(** * Ring buffer over IVshmem: a model of [ringbuf.c] and its properties

    The driver keeps a kfifo of fixed-size message headers at the start of
    the shared BAR2 region and copies payload bytes into the area behind
    it.  This file embeds the data path of the driver ([ringbuf_fifo_init],
    [ringbuf_write], [ringbuf_read], [ringbuf_release], [ringbuf_ioctl])
    and the kfifo operations it calls over a byte-level model of the
    mapped region, and proves what the code does.

    - The region is a list of bytes.  Each guest maps it at an address of
      its own; an access outside the mapping ends the run with a fault.
    - Integers are [Z] with the wrap-around of their C type written out;
      the layout is that of a little-endian machine with 8-byte words.
    - One call runs at a time.  Barriers, the spin lock and the doorbell
      write are recorded, with every access to the region, in an event
      list, so that their order can be stated.  Where the other guest
      matters, a call is cut into steps between which the other guest
      can run ([Steps], [Race]).
    - [printk] calls are left out: they touch none of the modelled
      state. *)

From Stdlib Require Import ZArith List Lia Bool.
From Stdlib Require Import Strings.Byte.
Import ListNotations.

Local Open Scope Z_scope.

(* ------------------------------------------------------------------ *)
(** * C integers and the ABI *)
(* ------------------------------------------------------------------ *)

Module CInt.

(** [unsigned int] arithmetic wraps modulo 2^32, [size_t] modulo 2^64. *)
Definition wrap32 (x : Z) : Z := x mod 2 ^ 32.
Definition wrap64 (x : Z) : Z := x mod 2 ^ 64.

(** Conversion of a 64-bit pattern to [ssize_t] and back. *)
Definition to_ssize (x : Z) : Z :=
  let u := wrap64 x in if u <? 2 ^ 63 then u else u - 2 ^ 64.
Definition of_ssize (x : Z) : Z := wrap64 x.

(** The two Linux data models.  [unsigned int] has 4 bytes in both;
    pointers, [size_t] and [ssize_t] have the size of a machine word. *)
Inductive data_model := ILP32 | LP64.

Definition sizeof_uint : Z := 4.
Definition sizeof_word (m : data_model) : Z :=
  match m with ILP32 => 4 | LP64 => 8 end.

(** [struct __kfifo { unsigned int in, out, mask, esize; void *data; }] *)
Definition sizeof___kfifo (m : data_model) : Z :=
  4 * sizeof_uint + sizeof_word m.

(** [struct ringbuf_msg_hd { unsigned int src_qid; unsigned int
    payload_off; ssize_t payload_len; }]: two 4-byte fields and a word,
    already aligned. *)
Definition sizeof_rbmsg_hd (m : data_model) : Z :=
  2 * sizeof_uint + sizeof_word m.

(** ringbuf.c:330 and :380 place the queue's byte buffer at
    [(void* )fifo_addr + 0x18].  In [STRUCT_KFIFO(char, RINGBUF_SZ)] the
    buffer follows [struct __kfifo], so the literal is the size of that
    struct. *)
Definition KFIFO_BUF_OFF : Z := 0x18.

(** The data model the driver is written for. *)
Definition target : data_model := LP64.

End CInt.
Import CInt.

(* ------------------------------------------------------------------ *)
(** * Bytes and little-endian words *)
(* ------------------------------------------------------------------ *)

Module Bytes.

Definition byte_to_Z (b : byte) : Z := Z.of_N (Byte.to_N b).

Definition byte_of_Z (z : Z) : byte :=
  match Byte.of_N (Z.to_N (z mod 256)) with
  | Some b => b
  | None => x00
  end.

(** [n] bytes of [v], least significant first (x86). *)
Fixpoint le_bytes (n : nat) (v : Z) : list byte :=
  match n with
  | O => []
  | S k => byte_of_Z v :: le_bytes k (v / 256)
  end.

Fixpoint le_Z (bs : list byte) : Z :=
  match bs with
  | [] => 0
  | b :: r => byte_to_Z b + 256 * le_Z r
  end.

(** A block of memory as a list of bytes; offsets and lengths are [Z]
    as in the C code, and are non-negative wherever they are used. *)
Definition load_bytes (off n : Z) (m : list byte) : list byte :=
  firstn (Z.to_nat n) (skipn (Z.to_nat off) m).

Definition store_bytes (off : Z) (bs : list byte) (m : list byte)
  : list byte :=
  firstn (Z.to_nat off) m ++ bs
    ++ skipn (Z.to_nat off + length bs) m.

Definition zlen {A} (l : list A) : Z := Z.of_nat (length l).

End Bytes.
Import Bytes.

(* ------------------------------------------------------------------ *)
(** * The machine: device record, shared region, effects *)
(* ------------------------------------------------------------------ *)

Module Machine.

(** The fields of [struct ringbuf_device] that the data path uses.
    Pointers are addresses, [0] is [NULL]. *)
Record ringbuf_device := {
  revision : Z;
  ivposition : Z;
  regs_addr : Z;
  base_addr : Z;
  bar2_size : Z;
  fifo_addr : Z;
  payloads_st : Z;
  write_lock : Z;
  role : Z
}.

(** What one kernel does that the other side or the device can observe:
    accesses to the shared region (offset from the start of BAR2 and
    byte count), barriers, the lock, and register writes. *)
Inductive event :=
| EvLoad (off n : Z)
| EvStore (off n : Z)
| EvWmb
| EvMb
| EvRmb
| EvSmpWmb
| EvSpinLockInit (lock : Z)
| EvSpinLock (lock : Z)
| EvSpinUnlock (lock : Z)
| EvWritel (value addr : Z).

(** One side's view: its static [ringbuf_dev] and [payload_pt], the
    bytes of the BAR2 region (mapped at [base_addr]), and the events so
    far, oldest first. *)
Record kstate := {
  dev : ringbuf_device;
  payload_pt : Z;
  shm : list byte;
  log : list event
}.

(** Where C gives the program no meaning the model stops: an access
    outside the mapped region, a copy that overruns a caller's buffer,
    [BUG_ON]. *)
Inductive fault :=
| OutOfRegion (addr n : Z)
| OutOfBuffer (n : Z)
| BugOn.

Inductive result (A : Type) :=
| Ok (a : A) (s : kstate)
| Fault (f : fault).
Arguments Ok {A} a s.
Arguments Fault {A} f.

Definition M (A : Type) : Type := kstate -> result A.

Definition ret {A} (a : A) : M A := fun s => Ok a s.

Definition bind {A B} (m : M A) (f : A -> M B) : M B :=
  fun s => match m s with
           | Ok a s' => f a s'
           | Fault e => Fault e
           end.

Definition raise {A} (e : fault) : M A := fun _ => Fault e.

Definition get_dev : M ringbuf_device := fun s => Ok (dev s) s.
Definition get_payload_pt : M Z := fun s => Ok (payload_pt s) s.

Definition set_payload_pt (v : Z) : M unit := fun s =>
  Ok tt {| dev := dev s; payload_pt := v; shm := shm s; log := log s |}.

Definition emit (e : event) : M unit := fun s =>
  Ok tt {| dev := dev s; payload_pt := payload_pt s; shm := shm s;
           log := log s ++ [e] |}.

(** [n] bytes at address [addr] lie in the mapping of BAR2. *)
Definition in_region (s : kstate) (addr n : Z) : bool :=
  negb (base_addr (dev s) =? 0)
  && (base_addr (dev s) <=? addr)
  && (addr + n <=? base_addr (dev s) + zlen (shm s)).

(** Reading and writing the shared region.  A copy of no bytes touches
    nothing. *)
Definition shm_load (addr n : Z) : M (list byte) := fun s =>
  if n <=? 0 then Ok [] s
  else if in_region s addr n then
    let off := addr - base_addr (dev s) in
    Ok (load_bytes off n (shm s))
       {| dev := dev s; payload_pt := payload_pt s; shm := shm s;
          log := log s ++ [EvLoad off n] |}
  else Fault (OutOfRegion addr n).

Definition shm_store (addr : Z) (bs : list byte) : M unit := fun s =>
  if zlen bs <=? 0 then Ok tt s
  else if in_region s addr (zlen bs) then
    let off := addr - base_addr (dev s) in
    Ok tt {| dev := dev s; payload_pt := payload_pt s;
             shm := store_bytes off bs (shm s);
             log := log s ++ [EvStore off (zlen bs)] |}
  else Fault (OutOfRegion addr (zlen bs)).

End Machine.
Import Machine.

Declare Scope ringbuf_scope.
Delimit Scope ringbuf_scope with rb.
Notation "x <- m ;; f" := (bind m (fun x => f))
  (at level 61, m at next level, right associativity) : ringbuf_scope.
Notation "m ;; f" := (bind m (fun _ => f))
  (at level 61, right associativity) : ringbuf_scope.
Local Open Scope ringbuf_scope.

Module Prim.

Definition load_u32 (addr : Z) : M Z :=
  bs <- shm_load addr 4 ;; ret (le_Z bs).
Definition store_u32 (addr v : Z) : M unit :=
  shm_store addr (le_bytes 4 v).
Definition load_ptr (addr : Z) : M Z :=
  bs <- shm_load addr 8 ;; ret (le_Z bs).
Definition store_ptr (addr v : Z) : M unit :=
  shm_store addr (le_bytes 8 v).

(** [memcpy(dst, src, n)] with [dst] in the shared region and [src] a
    buffer of the caller. *)
Definition memcpy_to_shm (dst : Z) (src : list byte) (n : Z) : M unit :=
  if zlen src <? n then raise (OutOfBuffer n)
  else shm_store dst (firstn (Z.to_nat n) src).

(** [memcpy(dst + at, src, n)] with [src] in the shared region and [dst]
    a buffer of the caller; the buffer's new contents are returned. *)
Definition memcpy_from_shm (dst : list byte) (at_ : Z) (src n : Z)
  : M (list byte) :=
  bs <- shm_load src n ;;
  if zlen dst <? at_ + n then raise (OutOfBuffer n)
  else ret (store_bytes at_ bs dst).

Definition wmb : M unit := emit EvWmb.
Definition mb : M unit := emit EvMb.
Definition rmb : M unit := emit EvRmb.
Definition smp_wmb : M unit := emit EvSmpWmb.

(** The bytes of an unlocked [spinlock_t] of [n] bytes.  In a kernel
    built without lock debugging the lock is the word of the queued
    spinlock, and [__SPIN_LOCK_UNLOCKED] has every bit of it clear. *)
Definition SPIN_LOCK_UNLOCKED (n : Z) : list byte := repeat x00 (Z.to_nat n).

(** [spin_lock_init(l)] assigns the unlocked lock to [*l], a
    [spinlock_t] of [n] bytes in the shared region. *)
Definition spin_lock_init (l n : Z) : M unit :=
  shm_store l (SPIN_LOCK_UNLOCKED n) ;;
  emit (EvSpinLockInit l).

(** The lock is used by one thread at a time here, and a lock that is
    taken and dropped is left as it was: taking and dropping it are
    recorded. *)
Definition spin_lock (l : Z) : M unit := emit (EvSpinLock l).
Definition spin_unlock (l : Z) : M unit := emit (EvSpinUnlock l).

Definition writel (value addr : Z) : M unit := emit (EvWritel value addr).

End Prim.
Import Prim.

(* ------------------------------------------------------------------ *)
(** * kfifo *)
(* ------------------------------------------------------------------ *)

(** The queue is a [STRUCT_KFIFO(char, RINGBUF_SZ)] of the Linux kernel
    (ringbuf.c:83).  The kfifo operations the driver calls are macros and
    functions of [include/linux/kfifo.h] and [lib/kfifo.c]; they are
    written here over the shared region, for a fifo without record
    framing ([recsize] is 0 for [STRUCT_KFIFO]). *)
Module Kfifo.

(** Field offsets of [struct __kfifo] in the target data model. *)
Definition off_in : Z := 0.
Definition off_out : Z := 4.
Definition off_mask : Z := 8.
Definition off_esize : Z := 12.
Definition off_data : Z := 16.

(** [kfifo_size(fifo)]: [mask + 1]. *)
Definition kfifo_size (f : Z) : M Z :=
  mask <- load_u32 (f + off_mask) ;;
  ret (wrap32 (mask + 1)).

(** [kfifo_len(fifo)]: [in - out]. *)
Definition kfifo_len (f : Z) : M Z :=
  i <- load_u32 (f + off_in) ;;
  o <- load_u32 (f + off_out) ;;
  ret (wrap32 (i - o)).

(** [kfifo_avail(fifo)]: [kfifo_size(fifo) - kfifo_len(fifo)]. *)
Definition kfifo_avail (f : Z) : M Z :=
  sz <- kfifo_size f ;;
  l <- kfifo_len f ;;
  ret (wrap32 (sz - l)).

(** [kfifo_unused]: [(fifo->mask + 1) - (fifo->in - fifo->out)]. *)
Definition kfifo_unused (f : Z) : M Z :=
  mask <- load_u32 (f + off_mask) ;;
  i <- load_u32 (f + off_in) ;;
  o <- load_u32 (f + off_out) ;;
  ret (wrap32 ((mask + 1) - (i - o))).

(** The scaling of [off], [size] and [len] by the element size that
    [kfifo_copy_in] and [kfifo_copy_out] share. *)
Definition scale (esize off size n : Z) : Z * Z * Z :=
  if esize =? 1 then (off, size, n)
  else (wrap32 (off * esize), wrap32 (size * esize), wrap32 (n * esize)).

(** [kfifo_copy_in(fifo, src, len, off)] *)
Definition kfifo_copy_in (f : Z) (src : list byte) (n off : Z) : M unit :=
  mask <- load_u32 (f + off_mask) ;;
  esize <- load_u32 (f + off_esize) ;;
  mask' <- load_u32 (f + off_mask) ;;
  let '(off, size, n) := scale esize (Z.land off mask') (wrap32 (mask + 1)) n in
  let l := Z.min n (wrap32 (size - off)) in
  data <- load_ptr (f + off_data) ;;
  memcpy_to_shm (data + off) src l ;;
  data' <- load_ptr (f + off_data) ;;
  memcpy_to_shm data' (skipn (Z.to_nat l) src) (n - l) ;;
  smp_wmb.

(** [kfifo_copy_out(fifo, dst, len, off)]; returns the new [dst]. *)
Definition kfifo_copy_out (f : Z) (dst : list byte) (n off : Z)
  : M (list byte) :=
  mask <- load_u32 (f + off_mask) ;;
  esize <- load_u32 (f + off_esize) ;;
  mask' <- load_u32 (f + off_mask) ;;
  let '(off, size, n) := scale esize (Z.land off mask') (wrap32 (mask + 1)) n in
  let l := Z.min n (wrap32 (size - off)) in
  data <- load_ptr (f + off_data) ;;
  dst1 <- memcpy_from_shm dst 0 (data + off) l ;;
  data' <- load_ptr (f + off_data) ;;
  dst2 <- memcpy_from_shm dst1 l data' (n - l) ;;
  smp_wmb ;;
  ret dst2.

(** [kfifo_in(fifo, buf, n)], that is [__kfifo_in]. *)
Definition kfifo_in (f : Z) (buf : list byte) (n : Z) : M Z :=
  l <- kfifo_unused f ;;
  let n := if l <? n then l else n in
  i <- load_u32 (f + off_in) ;;
  kfifo_copy_in f buf n i ;;
  i' <- load_u32 (f + off_in) ;;
  store_u32 (f + off_in) (wrap32 (i' + n)) ;;
  ret n.

(** [kfifo_out(fifo, buf, n)], that is [__kfifo_out] over
    [__kfifo_out_peek]; returns the count and the new [buf]. *)
Definition kfifo_out (f : Z) (buf : list byte) (n : Z) : M (Z * list byte) :=
  i <- load_u32 (f + off_in) ;;
  o <- load_u32 (f + off_out) ;;
  let l := wrap32 (i - o) in
  let n := if l <? n then l else n in
  o' <- load_u32 (f + off_out) ;;
  buf' <- kfifo_copy_out f buf n o' ;;
  o'' <- load_u32 (f + off_out) ;;
  store_u32 (f + off_out) (wrap32 (o'' + n)) ;;
  ret (n, buf').

(** [INIT_KFIFO(fifo)] for a fifo with its buffer inside the struct of
    [size] bytes. *)
Definition INIT_KFIFO (f size : Z) : M unit :=
  store_u32 (f + off_in) 0 ;;
  store_u32 (f + off_out) 0 ;;
  store_u32 (f + off_mask) (size - 1) ;;
  store_u32 (f + off_esize) 1 ;;
  store_ptr (f + off_data) (f + sizeof___kfifo target).

End Kfifo.
Import Kfifo.

(* ------------------------------------------------------------------ *)
(** * The driver *)
(* ------------------------------------------------------------------ *)

Module Ringbuf.

Definition RINGBUF_SZ : Z := 512.
Definition RINGBUF_MSG_SZ : Z := sizeof_rbmsg_hd target.
Definition QEMU_PROCESS_ID : Z := 1.
Definition DOORBELL_REG_OFF : Z := 0x0c.
Definition EFAULT : Z := 14.

Definition Consumer : Z := 0.
Definition Producer : Z := 1.

(** [sizeof(fifo)] for [STRUCT_KFIFO(char, RINGBUF_SZ)]. *)
Definition sizeof_fifo : Z := sizeof___kfifo target + RINGBUF_SZ.

(** [MIN(a, b)] at the types of ringbuf.c:343: [a] is a [size_t] and
    [b] an [ssize_t], so [b] is converted to unsigned for the comparison
    and for the result. *)
Definition MIN (a b : Z) : Z :=
  let ub := of_ssize b in if a <? ub then a else ub.

Record rbmsg_hd := {
  src_qid : Z;
  payload_off : Z;
  payload_len : Z
}.

(** The header as the bytes of the struct. *)
Definition encode_hd (h : rbmsg_hd) : list byte :=
  le_bytes 4 (src_qid h) ++ le_bytes 4 (payload_off h)
    ++ le_bytes 8 (payload_len h).

Definition decode_hd (bs : list byte) : rbmsg_hd :=
  {| src_qid := le_Z (load_bytes 0 4 bs);
     payload_off := le_Z (load_bytes 4 4 bs);
     payload_len := to_ssize (le_Z (load_bytes 8 8 bs)) |}.

Inductive ioctl_cmd :=
| IOCTL_RING
| IOCTL_WAIT
| IOCTL_IVPOSITION
| IOCTL_other (cmd : Z).

(** ringbuf.c:172-203 *)
Definition ringbuf_ioctl (cmd : ioctl_cmd) (value : Z) : M Z :=
  d <- get_dev ;;
  if base_addr d =? 0 then raise BugOn
  else match cmd with
       | IOCTL_RING =>
           writel (Z.land value 0xffffffff) (regs_addr d + DOORBELL_REG_OFF) ;;
           ret 0
       | IOCTL_WAIT => ret 0
       | IOCTL_IVPOSITION => ret (ivposition d)
       | IOCTL_other _ => ret (-1)
       end.

(** ringbuf.c:272-292.  [fifo_indevice] and [lock] are the two
    uninitialised locals that the function copies into the region;
    [zlen lock] is [sizeof(spinlock_t)]. *)
Definition ringbuf_fifo_init (fifo_indevice lock : list byte) : M unit :=
  d <- get_dev ;;
  sz <- kfifo_size (fifo_addr d) ;;
  (if negb (sz =? RINGBUF_SZ) then
     memcpy_to_shm (fifo_addr d) fifo_indevice sizeof_fifo ;;
     INIT_KFIFO (fifo_addr d) RINGBUF_SZ ;;
     memcpy_to_shm (write_lock d) lock (zlen lock) ;;
     spin_lock_init (write_lock d) (zlen lock)
   else ret tt) ;;
  set_payload_pt 0.

(** ringbuf.c:308-348.  [hd] is the uninitialised local header, as
    bytes; the result is the return value and the caller's buffer. *)
Definition ringbuf_read (hd : list byte) (buffer : list byte) (len : Z)
  : M (Z * list byte) :=
  d <- get_dev ;;
  let fifo_addr := fifo_addr d in
  if negb (role d =? Consumer) then ret (0, buffer)
  else if (base_addr d =? 0) || (fifo_addr =? 0) then ret (0, buffer)
  else
    l <- kfifo_len fifo_addr ;;
    if l <? RINGBUF_MSG_SZ then ret (0, buffer)
    else
      store_ptr (fifo_addr + off_data) (fifo_addr + KFIFO_BUF_OFF) ;;
      mb ;;
      r <- kfifo_out fifo_addr hd RINGBUF_MSG_SZ ;;
      let hd := decode_hd (snd r) in
      if negb (src_qid hd =? QEMU_PROCESS_ID) then ret (- EFAULT, buffer)
      else
        rmb ;;
        buffer' <- memcpy_from_shm buffer 0
                     (payloads_st d + payload_off hd)
                     (MIN len (payload_len hd)) ;;
        ret (0, buffer').

(** ringbuf.c:352-398 *)
Definition ringbuf_write (buffer : list byte) (len : Z) : M Z :=
  d <- get_dev ;;
  let fifo_addr := fifo_addr d in
  if negb (role d =? Producer) then ret 0
  else if (base_addr d =? 0) || (fifo_addr =? 0) then ret 0
  else
    avail <- kfifo_avail fifo_addr ;;
    if avail <? RINGBUF_MSG_SZ then ret 0
    else
      pt <- get_payload_pt ;;
      let hd := {| src_qid := QEMU_PROCESS_ID;
                   payload_off := pt;
                   payload_len := to_ssize len |} in
      memcpy_to_shm (payloads_st d + payload_off hd) buffer len ;;
      wmb ;;
      spin_lock (write_lock d) ;;
      store_ptr (fifo_addr + off_data) (fifo_addr + KFIFO_BUF_OFF) ;;
      mb ;;
      msgsent_len <- kfifo_in fifo_addr (encode_hd hd) RINGBUF_MSG_SZ ;;
      spin_unlock (write_lock d) ;;
      if negb (msgsent_len =? RINGBUF_MSG_SZ) then ret (- EFAULT)
      else
        ringbuf_ioctl IOCTL_RING 1 ;;
        pt' <- get_payload_pt ;;
        set_payload_pt (wrap32 (pt' + len)) ;;
        ret 0.

(** ringbuf.c:420-432.  [kfifo_free] does nothing for a fifo whose
    buffer is part of the struct. *)
Definition ringbuf_release : M Z :=
  d <- get_dev ;;
  (if negb (fifo_addr d =? 0) then set_payload_pt 0 else ret tt) ;;
  ret 0.

(** The device record after a successful [ringbuf_probe_device]
    (ringbuf.c:455-522), given what the PCI layer returned: the
    revision, the two mappings, the length of BAR2 and the IVPosition
    register.  [ROLE] is the module parameter. *)
Definition probed (rev regs base bar2_len ivpos ROLE : Z) : ringbuf_device :=
  {| revision := rev;
     ivposition := if rev =? 1 then ivpos else 0;
     regs_addr := regs;
     base_addr := base;
     bar2_size := wrap32 bar2_len;
     fifo_addr := base;
     payloads_st := base + sizeof_fifo + RINGBUF_SZ;
     write_lock := base + sizeof_fifo + RINGBUF_SZ - 16;
     role := wrap32 ROLE |}.

(** Offset of the payload area in the region, and the bytes it has in
    a region of [n] bytes. *)
Definition PAYLOADS_OFF : Z := sizeof_fifo + RINGBUF_SZ.
Definition arena_capacity (n : Z) : Z := n - PAYLOADS_OFF.

End Ringbuf.
Import Ringbuf.

(* ------------------------------------------------------------------ *)
(** * Reading the region *)
(* ------------------------------------------------------------------ *)

(** The queue's bookkeeping and the payload area as functions of the
    region's bytes, for stating what the driver does. *)
Module View.

Definition mk (d : ringbuf_device) (pt : Z) (m : list byte)
  (l : list event) : kstate :=
  {| dev := d; payload_pt := pt; shm := m; log := l |}.

Definition q_in (m : list byte) : Z := le_Z (load_bytes off_in 4 m).
Definition q_out (m : list byte) : Z := le_Z (load_bytes off_out 4 m).
Definition q_mask (m : list byte) : Z := le_Z (load_bytes off_mask 4 m).
Definition q_esize (m : list byte) : Z := le_Z (load_bytes off_esize 4 m).
Definition q_data (m : list byte) : Z := le_Z (load_bytes off_data 8 m).

(** Bytes queued and bytes free, as [kfifo_len] and [kfifo_avail]
    compute them. *)
Definition q_len (m : list byte) : Z := wrap32 (q_in m - q_out m).
Definition q_avail (m : list byte) : Z :=
  wrap32 (wrap32 (q_mask m + 1) - q_len m).

(** The queue has the geometry [INIT_KFIFO] gives it. *)
Definition formatted (m : list byte) : Prop :=
  q_mask m = RINGBUF_SZ - 1 /\ q_esize m = 1.

(** [n] payload bytes at offset [off] of the payload area. *)
Definition payload_at (off n : Z) (m : list byte) : list byte :=
  load_bytes (PAYLOADS_OFF + off) n m.

(** The device record is as a probe leaves it and BAR2, of [zlen m]
    bytes, holds at least the queue block; addresses fit a pointer and
    the length fits the [unsigned int] it is kept in. *)
Definition mapped (d : ringbuf_device) (m : list byte) : Prop :=
  0 < base_addr d /\
  fifo_addr d = base_addr d /\
  payloads_st d = base_addr d + PAYLOADS_OFF /\
  PAYLOADS_OFF <= zlen m /\
  zlen m < 2 ^ 32 /\
  base_addr d + zlen m < 2 ^ 64.

(** Events that leave the region and the device registers alone. *)
Definition is_load (e : event) : bool :=
  match e with EvLoad _ _ => true | _ => false end.

(** Stores into the payload area and into the queue block. *)
Definition is_payload_store (e : event) : bool :=
  match e with EvStore off _ => PAYLOADS_OFF <=? off | _ => false end.
Definition is_queue_store (e : event) : bool :=
  match e with EvStore off _ => off <? sizeof_fifo | _ => false end.
Definition is_payload_load (e : event) : bool :=
  match e with EvLoad off _ => PAYLOADS_OFF <=? off | _ => false end.
Definition is_queue_load (e : event) : bool :=
  match e with EvLoad off _ => off <? sizeof_fifo | _ => false end.

End View.
Import View.

(* ------------------------------------------------------------------ *)
(** * What the kfifo operations leave behind *)
(* ------------------------------------------------------------------ *)

(** Closed forms of the region and of the event list after [kfifo_in]
    and [kfifo_out] on a formatted queue; the lemmas below show that the
    operations compute exactly these. *)
Module KfifoSpec.

(** Where [kfifo_copy_in] and [kfifo_copy_out] split a block of [n]
    bytes at queue position [i]: the offset in the buffer and the
    length of the first piece. *)
Definition q_off (i : Z) : Z := i mod RINGBUF_SZ.
Definition q_first (i n : Z) : Z := Z.min n (RINGBUF_SZ - q_off i).

(** The region after [kfifo_copy_in] of the [n] bytes [buf] at
    position [i], and after the whole [kfifo_in]. *)
Definition copied_in (buf : list byte) (n i : Z) (m : list byte)
  : list byte :=
  let l1 := q_first i n in
  let m1 := store_bytes (KFIFO_BUF_OFF + q_off i) (firstn (Z.to_nat l1) buf) m in
  store_bytes KFIFO_BUF_OFF
    (firstn (Z.to_nat (n - l1)) (skipn (Z.to_nat l1) buf)) m1.

Definition after_in (buf : list byte) (n : Z) (m : list byte) : list byte :=
  store_bytes off_in (le_bytes 4 (wrap32 (q_in m + n)))
    (copied_in buf n (q_in m) m).

Definition tail_store (n : Z) : list event :=
  if n <=? 0 then [] else [EvStore KFIFO_BUF_OFF n].
Definition tail_load (n : Z) : list event :=
  if n <=? 0 then [] else [EvLoad KFIFO_BUF_OFF n].

Definition copy_in_events (i n : Z) : list event :=
  [EvLoad off_mask 4; EvLoad off_esize 4; EvLoad off_mask 4;
   EvLoad off_data 8; EvStore (KFIFO_BUF_OFF + q_off i) (q_first i n);
   EvLoad off_data 8]
  ++ tail_store (n - q_first i n)
  ++ [EvSmpWmb].

Definition in_events (i n : Z) : list event :=
  [EvLoad off_mask 4; EvLoad off_in 4; EvLoad off_out 4; EvLoad off_in 4]
  ++ copy_in_events i n
  ++ [EvLoad off_in 4; EvStore off_in 4].

(** The [n] bytes at queue position [i], across the end of the
    buffer if need be; the bytes [kfifo_out] copies out, and the region
    after it. *)
Definition block_at (i n : Z) (m : list byte) : list byte :=
  load_bytes (KFIFO_BUF_OFF + q_off i) (q_first i n) m
    ++ load_bytes KFIFO_BUF_OFF (n - q_first i n) m.

Definition out_bytes (n : Z) (m : list byte) : list byte :=
  block_at (q_out m) n m.

Definition after_out (n : Z) (m : list byte) : list byte :=
  store_bytes off_out (le_bytes 4 (wrap32 (q_out m + n))) m.

Definition copy_out_events (o n : Z) : list event :=
  [EvLoad off_mask 4; EvLoad off_esize 4; EvLoad off_mask 4;
   EvLoad off_data 8; EvLoad (KFIFO_BUF_OFF + q_off o) (q_first o n);
   EvLoad off_data 8]
  ++ tail_load (n - q_first o n)
  ++ [EvSmpWmb].

Definition out_events (o n : Z) : list event :=
  [EvLoad off_in 4; EvLoad off_out 4; EvLoad off_out 4]
  ++ copy_out_events o n
  ++ [EvLoad off_out 4; EvStore off_out 4].

End KfifoSpec.
Import KfifoSpec.

(* ------------------------------------------------------------------ *)
(** * What the driver leaves behind *)
(* ------------------------------------------------------------------ *)

Module DriverSpec.

(** The header [ringbuf_write] builds (ringbuf.c:372-374). *)
Definition write_hd (pt len : Z) : rbmsg_hd :=
  {| src_qid := QEMU_PROCESS_ID; payload_off := pt;
     payload_len := to_ssize len |}.

(** The region with the queue's [data] pointer set for this mapping
    (ringbuf.c:330, :380). *)
Definition set_data (d : ringbuf_device) (m : list byte) : list byte :=
  store_bytes off_data (le_bytes 8 (base_addr d + KFIFO_BUF_OFF)) m.

(** The region after the payload copy of [ringbuf_write], and after
    the whole call. *)
Definition payload_written (pt : Z) (buffer : list byte) (len : Z)
  (m : list byte) : list byte :=
  store_bytes (PAYLOADS_OFF + pt) (firstn (Z.to_nat len) buffer) m.

Definition written (d : ringbuf_device) (pt : Z) (buffer : list byte)
  (len : Z) (m : list byte) : list byte :=
  after_in (encode_hd (write_hd pt len)) RINGBUF_MSG_SZ
    (set_data d (payload_written pt buffer len m)).

Definition payload_store_events (pt len : Z) : list event :=
  if len <=? 0 then [] else [EvStore (PAYLOADS_OFF + pt) len].

Definition guard_events : list event :=
  [EvLoad off_mask 4; EvLoad off_in 4; EvLoad off_out 4].

Definition publish_events (d : ringbuf_device) (m : list byte)
  : list event :=
  [EvSpinLock (write_lock d); EvStore off_data 8; EvMb]
  ++ in_events (q_in m) RINGBUF_MSG_SZ
  ++ [EvSpinUnlock (write_lock d);
      EvWritel 1 (regs_addr d + DOORBELL_REG_OFF)].

Definition write_events (d : ringbuf_device) (pt len : Z) (m : list byte)
  : list event :=
  (guard_events ++ payload_store_events pt len)
  ++ [EvWmb] ++ publish_events d m.

(** The header [ringbuf_read] dequeues, and the region after the
    dequeue. *)
Definition dequeued_hd (d : ringbuf_device) (m : list byte) : rbmsg_hd :=
  decode_hd (out_bytes RINGBUF_MSG_SZ (set_data d m)).

Definition dequeued (d : ringbuf_device) (m : list byte) : list byte :=
  after_out RINGBUF_MSG_SZ (set_data d m).

Definition dequeue_events (m : list byte) : list event :=
  [EvLoad off_in 4; EvLoad off_out 4; EvStore off_data 8; EvMb]
  ++ out_events (q_out m) RINGBUF_MSG_SZ.

Definition payload_load_events (off n : Z) : list event :=
  if n <=? 0 then [] else [EvLoad (PAYLOADS_OFF + off) n].

Definition read_events (m : list byte) (off n : Z) : list event :=
  dequeue_events m ++ [EvRmb] ++ payload_load_events off n.

End DriverSpec.
Import DriverSpec.

(* ------------------------------------------------------------------ *)
(** * Properties of operations and of the region *)
(* ------------------------------------------------------------------ *)

Module Props.

(** Operations that leave the caller's [ringbuf_dev] and [payload_pt]
    alone. *)
Definition keeps_local {A} (c : M A) : Prop :=
  forall s a s', c s = Ok a s' ->
    payload_pt s' = payload_pt s /\ dev s' = dev s.

(** Operations that do not write to the region. *)
Definition readonly {A} (c : M A) : Prop :=
  forall s a s', c s = Ok a s' -> shm s' = shm s.

(** The values an operation can return. *)
Definition returns {A} (P : A -> Prop) (c : M A) : Prop :=
  forall s a s', c s = Ok a s' -> P a.

(** A queue as [INIT_KFIFO] leaves it. *)
Definition fresh (m : list byte) : Prop :=
  formatted m /\ q_in m = 0 /\ q_out m = 0.

(** Complete headers in the queue. *)
Definition headers_outstanding (m : list byte) : Z :=
  q_len m / RINGBUF_MSG_SZ.

(** What every reachable queue satisfies: its geometry is intact and
    it holds a whole number of headers, no more than fit. *)
Definition queue_inv (m : list byte) : Prop :=
  formatted m /\
  exists k, 0 <= k <= RINGBUF_SZ / RINGBUF_MSG_SZ /\
            q_len m = RINGBUF_MSG_SZ * k.

(** Decidable forms of [mapped] and [formatted]. *)
Definition mappedb (d : ringbuf_device) (m : list byte) : bool :=
  (0 <? base_addr d)
  && (fifo_addr d =? base_addr d)
  && (payloads_st d =? base_addr d + PAYLOADS_OFF)
  && (PAYLOADS_OFF <=? zlen m)
  && (zlen m <? 2 ^ 32)
  && (base_addr d + zlen m <? 2 ^ 64).

Definition formattedb (m : list byte) : bool :=
  (q_mask m =? RINGBUF_SZ - 1) && (q_esize m =? 1).

(** The regions a producer [dP] and a consumer [dC] can bring about
    from a fresh queue by sends and receives that return. *)
Inductive reachable (dP dC : ringbuf_device) : list byte -> Prop :=
| reach_fresh m :
    fresh m -> mapped dP m -> mapped dC m -> reachable dP dC m
| reach_send m pt l buffer len r s' :
    reachable dP dC m ->
    0 <= pt -> 0 <= len ->
    ringbuf_write buffer len (mk dP pt m l) = Ok r s' ->
    reachable dP dC (shm s')
| reach_recv m pt l hd buffer len r s' :
    reachable dP dC m ->
    zlen hd = RINGBUF_MSG_SZ ->
    ringbuf_read hd buffer len (mk dC pt m l) = Ok r s' ->
    reachable dP dC (shm s').

End Props.
Import Props.

(* ------------------------------------------------------------------ *)
(** * The calls in steps *)
(* ------------------------------------------------------------------ *)

(** The two guests run at the same time, so between two statements of
    a call the other guest may have changed the region.  [ringbuf_write]
    and [ringbuf_read] are cut here at the places that matter for the
    order of payload and header: behind the copy of the payload, and
    behind the store of the queue's [data] pointer. *)
Module Steps.

(** ringbuf.c:357-375: the guards, the header and the copy of the
    payload.  The result is the header, or [None] where the call
    returns 0 at a guard. *)
Definition write_payload (buffer : list byte) (len : Z)
  : M (option rbmsg_hd) :=
  d <- get_dev ;;
  let fifo_addr := fifo_addr d in
  if negb (role d =? Producer) then ret None
  else if (base_addr d =? 0) || (fifo_addr =? 0) then ret None
  else
    avail <- kfifo_avail fifo_addr ;;
    if avail <? RINGBUF_MSG_SZ then ret None
    else
      pt <- get_payload_pt ;;
      let hd := {| src_qid := QEMU_PROCESS_ID;
                   payload_off := pt;
                   payload_len := to_ssize len |} in
      memcpy_to_shm (payloads_st d + payload_off hd) buffer len ;;
      ret (Some hd).

(** ringbuf.c:377-382: the barrier, the lock, and the queue's [data]
    pointer set to this guest's address of the buffer. *)
Definition write_point : M unit :=
  d <- get_dev ;;
  wmb ;;
  spin_lock (write_lock d) ;;
  store_ptr (fifo_addr d + off_data) (fifo_addr d + KFIFO_BUF_OFF) ;;
  mb.

(** ringbuf.c:384-397: the enqueue of the header, the doorbell and the
    cursor. *)
Definition write_enqueue (hd : rbmsg_hd) (len : Z) : M Z :=
  d <- get_dev ;;
  msgsent_len <- kfifo_in (fifo_addr d) (encode_hd hd) RINGBUF_MSG_SZ ;;
  spin_unlock (write_lock d) ;;
  if negb (msgsent_len =? RINGBUF_MSG_SZ) then ret (- EFAULT)
  else
    ringbuf_ioctl IOCTL_RING 1 ;;
    pt' <- get_payload_pt ;;
    set_payload_pt (wrap32 (pt' + len)) ;;
    ret 0.

Definition write_in_steps (buffer : list byte) (len : Z) : M Z :=
  r <- write_payload buffer len ;;
  match r with
  | None => ret 0
  | Some hd => write_point ;; write_enqueue hd len
  end.

(** ringbuf.c:313-332: the guards and the queue's [data] pointer set to
    this guest's address of the buffer.  The result is [false] where
    the call returns 0 at a guard. *)
Definition read_point : M bool :=
  d <- get_dev ;;
  let fifo_addr := fifo_addr d in
  if negb (role d =? Consumer) then ret false
  else if (base_addr d =? 0) || (fifo_addr =? 0) then ret false
  else
    l <- kfifo_len fifo_addr ;;
    if l <? RINGBUF_MSG_SZ then ret false
    else
      store_ptr (fifo_addr + off_data) (fifo_addr + KFIFO_BUF_OFF) ;;
      mb ;;
      ret true.

(** ringbuf.c:334-347: the dequeue of the header, the check of its tag
    and the copy of the payload. *)
Definition read_dequeue (hd : list byte) (buffer : list byte) (len : Z)
  : M (Z * list byte) :=
  d <- get_dev ;;
  r <- kfifo_out (fifo_addr d) hd RINGBUF_MSG_SZ ;;
  let hd := decode_hd (snd r) in
  if negb (src_qid hd =? QEMU_PROCESS_ID) then ret (- EFAULT, buffer)
  else
    rmb ;;
    buffer' <- memcpy_from_shm buffer 0
                 (payloads_st d + payload_off hd)
                 (MIN len (payload_len hd)) ;;
    ret (0, buffer').

Definition read_in_steps (hd : list byte) (buffer : list byte) (len : Z)
  : M (Z * list byte) :=
  go <- read_point ;;
  if go then read_dequeue hd buffer len else ret (0, buffer).

(** The guest with the device record [d] and the cursor [pt], running
    next after [s]: it finds the region, and the events, as [s] has
    them. *)
Definition seen_by (d : ringbuf_device) (pt : Z) (s : kstate) : kstate :=
  mk d pt (shm s) (log s).

(** What the region shows a consumer whose next header is the one at
    queue position [i]: a header with the producer's tag that gives the
    length [len] and the offset of bytes equal to the first [len] bytes
    of [buffer]. *)
Definition names_payload (i : Z) (buffer : list byte) (len : Z)
  (m : list byte) : Prop :=
  let h := decode_hd (block_at i RINGBUF_MSG_SZ m) in
  src_qid h = QEMU_PROCESS_ID /\ payload_len h = len /\
  payload_at (payload_off h) len m = firstn (Z.to_nat len) buffer.

(** The events of [write_point] and of [write_enqueue]. *)
Definition point_events (d : ringbuf_device) : list event :=
  [EvWmb; EvSpinLock (write_lock d); EvStore off_data 8; EvMb].

Definition enqueue_events (d : ringbuf_device) (m : list byte)
  : list event :=
  in_events (q_in m) RINGBUF_MSG_SZ
  ++ [EvSpinUnlock (write_lock d);
      EvWritel 1 (regs_addr d + DOORBELL_REG_OFF)].

End Steps.
Import Steps.

(* ------------------------------------------------------------------ *)
(** * A small machine to run the driver on *)
(* ------------------------------------------------------------------ *)

(** Two guests share a BAR2 of 1112 bytes: the queue block and a payload
    area of 64 bytes.  The producer maps it at 0x10000, the consumer at
    0x20000. *)
Module Scenario.

Definition raw_region : list byte := repeat x00 1112.

Definition devP : ringbuf_device := probed 1 0x500 0x10000 1112 3 Producer.
Definition devC : ringbuf_device := probed 1 0x600 0x20000 1112 4 Consumer.

Definition stack_fifo : list byte := repeat xff 536.
Definition stack_lock : list byte := repeat xaa 4.
Definition stack_hd : list byte := repeat xcc 16.

(** The state an operation ends in; the state it started from if it
    faults. *)
Definition state_after {A} (c : M A) (s : kstate) : kstate :=
  match c s with Ok _ s' => s' | Fault _ => s end.

(** The producer right after its probe has formatted the region. *)
Definition sP0 : kstate :=
  state_after (ringbuf_fifo_init stack_fifo stack_lock)
    (mk devP 0 raw_region []).

Definition region0 : list byte := shm sP0.

(** The consumer looking at a region [m]. *)
Definition sC (m : list byte) : kstate := mk devC 0 m [].

Definition hello : list byte := [x68; x65; x6c; x6c; x6f].
Definition world : list byte := [x57; x4f; x52; x4c; x44].
Definition dots (n : nat) : list byte := repeat x2e n.

(** [n] sends of one byte each. *)
Fixpoint send_n (n : nat) (s : kstate) : kstate :=
  match n with
  | O => s
  | S k => send_n k (state_after (ringbuf_write [x41] 1) s)
  end.

(** A region in which a peer has queued a header that claims 100
    payload bytes at offset 0. *)
Definition forged_hd : rbmsg_hd :=
  {| src_qid := QEMU_PROCESS_ID; payload_off := 0; payload_len := 100 |}.
Definition forged_region : list byte :=
  after_in (encode_hd forged_hd) RINGBUF_MSG_SZ region0.

(** A region in which a peer has queued a header with another
    source tag. *)
Definition alien_hd : rbmsg_hd :=
  {| src_qid := 7; payload_off := 0; payload_len := 5 |}.
Definition alien_region : list byte :=
  after_in (encode_hd alien_hd) RINGBUF_MSG_SZ region0.

End Scenario.
Import Scenario.

(* ------------------------------------------------------------------ *)
(** * Two guests at once *)
(* ------------------------------------------------------------------ *)

Module Race.

(** A send by the guest in state [sP] during which the consumer [dC]
    starts a receive: the consumer runs ringbuf.c:313-332 after the
    producer's :382 and before its :384. *)
Definition raced_send (dC : ringbuf_device) (buffer : list byte) (len : Z)
  : M Z := fun sP =>
  match write_payload buffer len sP with
  | Ok (Some hd) s1 =>
      match write_point s1 with
      | Ok _ s2 =>
          match read_point (seen_by dC 0 s2) with
          | Ok _ sC =>
              write_enqueue hd len (seen_by (dev s2) (payload_pt s2) sC)
          | Fault f => Fault f
          end
      | Fault f => Fault f
      end
  | Ok None s1 => Ok 0 s1
  | Fault f => Fault f
  end.

(** The producer of the scenario after it has sent "hello". *)
Definition sP1 : kstate := state_after (ringbuf_write hello 5) sP0.

(** Two guests that share a BAR2 of two pages and map it one page
    apart, the producer at 0x10000 and the consumer at 0x11000; the
    producer has formatted the region and sent "hello". *)
Definition wide_raw : list byte := repeat x00 (Z.to_nat 8192).
Definition wideP : ringbuf_device := probed 1 0x500 0x10000 8192 3 Producer.
Definition wideC : ringbuf_device := probed 1 0x600 0x11000 8192 4 Consumer.
Definition wP1 : kstate :=
  state_after (ringbuf_write hello 5)
    (state_after (ringbuf_fifo_init stack_fifo stack_lock)
       (mk wideP 0 wide_raw [])).

End Race.
Import Race.

(* ------------------------------------------------------------------ *)
(** * The queue as a list of messages *)
(* ------------------------------------------------------------------ *)

(** What the region holds, seen from outside: the payloads whose
    headers are queued, oldest first. *)
Module Fifo.

(** The header in the slot at queue position [o], and the position
    behind it. *)
Definition slot_header (o : Z) (m : list byte) : rbmsg_hd :=
  decode_hd (block_at o RINGBUF_MSG_SZ m).

Definition next_pos (o : Z) : Z := wrap32 (o + RINGBUF_MSG_SZ).

(** Both indices are multiples of the header size, as they are in a
    queue that started fresh. *)
Definition aligned (m : list byte) : Prop :=
  q_in m mod RINGBUF_MSG_SZ = 0 /\ q_out m mod RINGBUF_MSG_SZ = 0.

(** Header [h] names the payload [P]: it carries the accepted tag and
    the length of [P], and the bytes of [P] lie at its offset, below the
    producer's cursor [pt]. *)
Definition holds (m : list byte) (pt : Z) (h : rbmsg_hd) (P : list byte)
  : Prop :=
  src_qid h = QEMU_PROCESS_ID /\
  payload_len h = zlen P /\
  0 <= payload_off h /\
  payload_off h + zlen P <= pt /\
  payload_at (payload_off h) (zlen P) m = P.

(** The slots from position [o] on name the payloads [msgs], in order. *)
Fixpoint delivers (m : list byte) (pt o : Z) (msgs : list (list byte))
  : Prop :=
  match msgs with
  | [] => True
  | P :: rest => holds m pt (slot_header o m) P /\ delivers m pt (next_pos o) rest
  end.

(** The region [m], with the producer's cursor at [pt], holds exactly
    the messages [msgs]. *)
Definition represents (m : list byte) (pt : Z) (msgs : list (list byte))
  : Prop :=
  formatted m /\ aligned m /\
  q_len m = RINGBUF_MSG_SZ * zlen msgs /\
  zlen msgs <= RINGBUF_SZ / RINGBUF_MSG_SZ /\
  0 <= pt <= arena_capacity (zlen m) /\
  delivers m pt (q_out m) msgs.

(** Total payload bytes of a list of messages. *)
Definition total_len (msgs : list (list byte)) : Z :=
  fold_right (fun P acc => zlen P + acc) 0 msgs.

(** The caller's buffer after a receive of [P] with length argument
    [len]. *)
Definition received (P buffer : list byte) (len : Z) : list byte :=
  firstn (Z.to_nat (Z.min len (zlen P))) P
    ++ skipn (Z.to_nat (Z.min len (zlen P))) buffer.

(** Sends in a row, as the loop of test/send_msg.c:34-39 issues them,
    and as many receives, each into the same buffer contents. *)
Fixpoint send_all (msgs : list (list byte)) : M (list Z) :=
  match msgs with
  | [] => ret []
  | P :: rest =>
      r <- ringbuf_write P (zlen P) ;;
      rs <- send_all rest ;;
      ret (r :: rs)
  end.

Fixpoint receive_n (n : nat) (hd buffer : list byte) (len : Z)
  : M (list (Z * list byte)) :=
  match n with
  | O => ret []
  | S k =>
      r <- ringbuf_read hd buffer len ;;
      rs <- receive_n k hd buffer len ;;
      ret (r :: rs)
  end.

End Fifo.
Import Fifo.

(* ------------------------------------------------------------------ *)
(** * What a call lets the other side see *)
(* ------------------------------------------------------------------ *)

Module Observe.

(** Writes to the doorbell register. *)
Definition is_doorbell (e : event) : bool :=
  match e with EvWritel _ _ => true | _ => false end.

(** The send is taken: the caller is the producer and the queue has
    room for a header (ringbuf.c:361, :366). *)
Definition accepted (d : ringbuf_device) (m : list byte) : bool :=
  (role d =? Producer) && (RINGBUF_MSG_SZ <=? q_avail m).

(** Operations all of whose events satisfy [P]. *)
Definition emits_only {A} (P : event -> bool) (c : M A) : Prop :=
  forall s a s', c s = Ok a s' ->
    exists evs, log s' = log s ++ evs /\ forallb P evs = true.

End Observe.
Import Observe.

(* ------------------------------------------------------------------ *)
(** * What the format leaves behind *)
(* ------------------------------------------------------------------ *)

Module FormatSpec.

(** Offset of the lock word in the region (ringbuf.c:501-502). *)
Definition LOCK_OFF : Z := PAYLOADS_OFF - 16.

(** The region after [ringbuf_fifo_init] has formatted it
    (ringbuf.c:281-286): the uninitialised queue struct of the stack is
    copied in, [INIT_KFIFO] sets the five fields, the uninitialised
    lock of the stack is copied to the lock word, and [spin_lock_init]
    stores the unlocked lock over it. *)
Definition format_region (d : ringbuf_device) (fifo_indevice lock : list byte)
  (m : list byte) : list byte :=
  let m1 := store_bytes 0 fifo_indevice m in
  let m2 := store_bytes off_in (le_bytes 4 0) m1 in
  let m3 := store_bytes off_out (le_bytes 4 0) m2 in
  let m4 := store_bytes off_mask (le_bytes 4 (RINGBUF_SZ - 1)) m3 in
  let m5 := store_bytes off_esize (le_bytes 4 1) m4 in
  let m6 := store_bytes off_data
              (le_bytes 8 (base_addr d + sizeof___kfifo target)) m5 in
  let m7 := store_bytes LOCK_OFF lock m6 in
  store_bytes LOCK_OFF (SPIN_LOCK_UNLOCKED (zlen lock)) m7.

Definition lock_store (n : Z) : list event :=
  if n <=? 0 then [] else [EvStore LOCK_OFF n].

Definition format_events (d : ringbuf_device) (lock : list byte)
  : list event :=
  [EvLoad off_mask 4; EvStore 0 sizeof_fifo;
   EvStore off_in 4; EvStore off_out 4; EvStore off_mask 4;
   EvStore off_esize 4; EvStore off_data 8]
  ++ lock_store (zlen lock)
  ++ lock_store (zlen lock)
  ++ [EvSpinLockInit (write_lock d)].

End FormatSpec.
Import FormatSpec.

(* ------------------------------------------------------------------ *)
(** * The receive tasklet *)
(* ------------------------------------------------------------------ *)

Module Tasklet.

(** The bytes [printk] prints for a [%s] argument that points to
    [bs]: those in front of the first NUL.  Without a NUL in [bs] the
    conversion runs past the end of [bs], and the result is [None]. *)
Fixpoint c_string (bs : list byte) : option (list byte) :=
  match bs with
  | [] => None
  | b :: r =>
      if Byte.eqb b x00 then Some []
      else match c_string r with
           | Some t => Some (b :: t)
           | None => None
           end
  end.

Definition RECV_SZ : Z := 512.

(** ringbuf.c:300-306.  [recv] is the uninitialised array of the
    stack and [hd] the uninitialised header of the receive it calls;
    the return value of the receive is dropped.  The result is the text
    of the message line behind [recv msg: ]. *)
Definition ringbuf_readmsg (hd recv : list byte) : M (option (list byte)) :=
  r <- ringbuf_read hd recv RECV_SZ ;;
  ret (c_string (snd r)).

End Tasklet.
Import Tasklet.

(* ------------------------------------------------------------------ *)
(** * Probing the device *)
(* ------------------------------------------------------------------ *)

(** The probe talks to the PCI and interrupt layers of the kernel.
    What these return is given by an environment; the calls that take
    or give back a resource are collected in a list, in order. *)
Module Probe.

Definition ENOMEM : Z := 12.
Definition EINVAL : Z := 22.

Inductive pci_call :=
| PciEnableDevice
| PciRequestRegions
| Ioremap (addr size : Z)
| Iounmap (addr : Z)
| PciReleaseRegions
| PciDisableDevice
| Kmalloc (n : Z)
| Kfree (p : Z)
| PciAllocIrqVectors (min_vecs max_vecs : Z)
| PciFreeIrqVectors
| RequestIrq (irq : Z).

(** What the kernel answers: the results of [pci_enable_device] and
    [pci_request_regions], the byte at [PCI_REVISION_ID], start and
    length of a BAR, the address [ioremap] returns for a physical
    address and a size (0 is NULL), the value [ioread32] finds in the
    IVPosition register, the block [kmalloc] returns for the names, the
    result of [pci_alloc_irq_vectors], the interrupt number of an entry
    and the result of [request_irq] for an interrupt number. *)
Record pci_env := {
  pci_enable_device : Z;
  pci_request_regions : Z;
  revision_id : Z;
  pci_resource_start : Z -> Z;
  pci_resource_len : Z -> Z;
  ioremap : Z -> Z -> Z;
  ioread32_ivposition : Z;
  kmalloc_names : Z;
  pci_alloc_irq_vectors : Z;
  pci_irq_vector : Z -> Z;
  request_irq : Z -> Z
}.

(** [static ringbuf_device ringbuf_dev] before any probe. *)
Definition static_dev : ringbuf_device :=
  {| revision := 0; ivposition := 0; regs_addr := 0; base_addr := 0;
     bar2_size := 0; fifo_addr := 0; payloads_st := 0; write_lock := 0;
     role := 0 |}.

Definition set_dev (d : ringbuf_device) : M unit := fun s =>
  Ok tt {| dev := d; payload_pt := payload_pt s; shm := shm s;
           log := log s |}.

(** The loop of ringbuf.c:241-256 from entry [i] on, for [count] more
    entries: the first result of [request_irq] that is not 0, or 0 when
    the loop runs to its end. *)
Fixpoint request_irqs (e : pci_env) (count : nat) (i : Z)
  : Z * list pci_call :=
  match count with
  | O => (0, [])
  | S k =>
      let irq_number := pci_irq_vector e i in
      let ret := request_irq e irq_number in
      if ret =? 0 then
        let '(r, cs) := request_irqs e k (i + 1) in
        (r, RequestIrq irq_number :: cs)
      else (ret, [RequestIrq irq_number])
  end.

(** ringbuf.c:221-270.  [msix_names] has elements of 256 bytes. *)
Definition request_msix_vectors (e : pci_env) (n : Z) : Z * list pci_call :=
  let names := kmalloc_names e in
  let cs := [Kmalloc (wrap64 (n * 256))] in
  if names =? 0 then (- ENOMEM, cs)
  else
    let alloc_nums := pci_alloc_irq_vectors e in
    let cs := cs ++ [PciAllocIrqVectors 1 n] in
    if alloc_nums <? 0 then (- EINVAL, cs ++ [Kfree names])
    else
      let '(ret, rs) := request_irqs e (Z.to_nat alloc_nums) 0 in
      if ret =? 0 then (0, cs ++ rs)
      else (ret, cs ++ rs ++ [PciFreeIrqVectors; Kfree names]).

(** ringbuf.c:435-544.  [dev->vec_tb] (ringbuf.c:483) is not a member
    of [struct ringbuf_device]; the mapping of BAR1 is kept in a
    variable of its own here.  [ROLE] is the module parameter;
    [fifo_indevice] and [lock] are the locals of the format; [rv] is
    the local [ret]. *)
Definition ringbuf_probe_device (e : pci_env) (ROLE : Z)
  (fifo_indevice lock : list byte) : M (Z * list pci_call) :=
  let rv := pci_enable_device e in
  let cs := [PciEnableDevice] in
  if rv <? 0 then ret (rv, cs)
  else
    let rv := pci_request_regions e in
    let cs := cs ++ [PciRequestRegions] in
    if rv <? 0 then ret (rv, cs ++ [PciDisableDevice])
    else
      d <- get_dev ;;
      let bar0_addr := wrap32 (pci_resource_start e 0) in
      let bar0_size := wrap32 (pci_resource_len e 0) in
      let bar1_addr := wrap32 (pci_resource_start e 1) in
      let bar1_size := wrap32 (pci_resource_len e 1) in
      let bar2_addr := wrap32 (pci_resource_start e 2) in
      let bar2_sz := wrap32 (pci_resource_len e 2) in
      let regs := ioremap e bar0_addr bar0_size in
      let d := {| revision := revision_id e mod 256;
                  ivposition := ivposition d;
                  regs_addr := regs;
                  base_addr := base_addr d;
                  bar2_size := bar2_sz;
                  fifo_addr := fifo_addr d;
                  payloads_st := payloads_st d;
                  write_lock := write_lock d;
                  role := role d |} in
      set_dev d ;;
      let cs := cs ++ [Ioremap bar0_addr bar0_size] in
      if regs =? 0 then
        ret (rv, cs ++ [PciReleaseRegions; PciDisableDevice])
      else
        let vec_tb := ioremap e bar1_addr bar1_size in
        let cs := cs ++ [Ioremap bar1_addr bar1_size] in
        if vec_tb =? 0 then
          ret (rv, cs ++ [PciReleaseRegions; PciDisableDevice])
        else
          let base := ioremap e bar2_addr bar2_sz in
          let cs := cs ++ [Ioremap bar2_addr bar2_sz] in
          if base =? 0 then
            set_dev {| revision := revision d; ivposition := ivposition d;
                       regs_addr := regs_addr d; base_addr := base;
                       bar2_size := bar2_size d; fifo_addr := fifo_addr d;
                       payloads_st := payloads_st d;
                       write_lock := write_lock d; role := role d |} ;;
            ret (rv, cs ++ [Iounmap regs; PciReleaseRegions;
                             PciDisableDevice])
          else
            let d := {| revision := revision d;
                        ivposition := ivposition d;
                        regs_addr := regs_addr d;
                        base_addr := base;
                        bar2_size := bar2_size d;
                        fifo_addr := base;
                        payloads_st := base + sizeof_fifo + RINGBUF_SZ;
                        write_lock := base + sizeof_fifo + RINGBUF_SZ - 16;
                        role := wrap32 ROLE |} in
            set_dev d ;;
            let destroy r cs :=
              (r, cs ++ [Iounmap base; Iounmap regs; PciReleaseRegions;
                           PciDisableDevice]) in
            if revision d =? 1 then
              let ivpos := wrap32 (ioread32_ivposition e) in
              set_dev {| revision := revision d; ivposition := ivpos;
                         regs_addr := regs_addr d; base_addr := base_addr d;
                         bar2_size := bar2_size d; fifo_addr := fifo_addr d;
                         payloads_st := payloads_st d;
                         write_lock := write_lock d; role := role d |} ;;
              if negb (ivpos =? 0) then
                let '(r, ms) := request_msix_vectors e 4 in
                if negb (r =? 0) then ret (destroy r (cs ++ ms))
                else
                  ringbuf_fifo_init fifo_indevice lock ;;
                  ret (0, cs ++ ms)
              else
                ringbuf_fifo_init fifo_indevice lock ;;
                ret (0, cs)
            else
              ringbuf_fifo_init fifo_indevice lock ;;
              ret (0, cs).

(** Calls that give a resource back. *)
Definition is_release (c : pci_call) : bool :=
  match c with
  | Iounmap _ | PciReleaseRegions | PciDisableDevice
  | Kfree _ | PciFreeIrqVectors => true
  | _ => false
  end.

(** The calls of a probe that goes through: the three mappings and,
    for a revision 1 device with an IVPosition other than 0, the request
    for the vectors. *)
Definition probe_calls (e : pci_env) : list pci_call :=
  let cs :=
    [PciEnableDevice; PciRequestRegions;
     Ioremap (wrap32 (pci_resource_start e 0)) (wrap32 (pci_resource_len e 0));
     Ioremap (wrap32 (pci_resource_start e 1)) (wrap32 (pci_resource_len e 1));
     Ioremap (wrap32 (pci_resource_start e 2)) (wrap32 (pci_resource_len e 2))]
  in
  if (revision_id e mod 256 =? 1)
     && negb (wrap32 (ioread32_ivposition e) =? 0)
  then cs ++ snd (request_msix_vectors e 4) else cs.

(** The record a probe in the environment [e] builds, and the
    environments in which every call of the probe succeeds. *)
Definition probed_by (e : pci_env) (ROLE : Z) : ringbuf_device :=
  probed (revision_id e mod 256)
    (ioremap e (wrap32 (pci_resource_start e 0)) (wrap32 (pci_resource_len e 0)))
    (ioremap e (wrap32 (pci_resource_start e 2)) (wrap32 (pci_resource_len e 2)))
    (pci_resource_len e 2) (wrap32 (ioread32_ivposition e)) ROLE.

Definition probe_ok (e : pci_env) : Prop :=
  0 <= pci_enable_device e /\ 0 <= pci_request_regions e /\
  ioremap e (wrap32 (pci_resource_start e 0)) (wrap32 (pci_resource_len e 0))
  <> 0 /\
  ioremap e (wrap32 (pci_resource_start e 1)) (wrap32 (pci_resource_len e 1))
  <> 0 /\
  ioremap e (wrap32 (pci_resource_start e 2)) (wrap32 (pci_resource_len e 2))
  <> 0 /\
  (revision_id e mod 256 <> 1 \/ wrap32 (ioread32_ivposition e) = 0 \/
   fst (request_msix_vectors e 4) = 0).

End Probe.
Import Probe.

(* ------------------------------------------------------------------ *)
(** * The sender of test/send_msg.c *)
(* ------------------------------------------------------------------ *)

Module Harness.

Definition ENODEV : Z := 19.
Definition RINGBUF_DEVICE_MINOR_NR : Z := 0.

(** ringbuf.c:402-416, for the device node with minor number
    [minor]. *)
Definition ringbuf_open (minor : Z) : M Z :=
  if negb (minor =? RINGBUF_DEVICE_MINOR_NR) then ret (- ENODEV)
  else ret 0.

(** The conversions [%d], [%ld] and [%lu] of the kernel's [sprintf] for
    a value that is not negative and has at most 20 digits, as all
    values of 64 bits have: the decimal digits, most significant
    first. *)
Definition digit (v : Z) : byte := byte_of_Z (48 + v).

Fixpoint decimal_from (fuel : nat) (v : Z) (acc : list byte) : list byte :=
  match fuel with
  | O => acc
  | S k =>
      let acc := digit (v mod 10) :: acc in
      if v / 10 =? 0 then acc else decimal_from k (v / 10) acc
  end.

Definition decimal (v : Z) : list byte := decimal_from 20 v [].

(** The text [sprintf] writes for the format of send_msg.c:35,
    [MSG #%d   from peer%ld   (jiffies: %lu)]. *)
Definition sprintf_msg (i ivposition jiffies : Z) : list byte :=
  [x4d; x53; x47; x20; x23] ++ decimal i
  ++ [x20; x20; x20; x66; x72; x6f; x6d; x20; x70; x65; x65; x72]
  ++ decimal ivposition
  ++ [x20; x20; x20; x28; x6a; x69; x66; x66; x69; x65; x73; x3a; x20]
  ++ decimal jiffies
  ++ [x29].

(** [strlen]; for an array without a NUL it runs to the end of the
    array. *)
Definition strlen (bs : list byte) : Z :=
  match c_string bs with
  | Some t => zlen t
  | None => zlen bs
  end.

(** The loop of send_msg.c:34-39 from iteration [i] on, for [count]
    more iterations.  [jiffies i] is the value of [jiffies] read in
    iteration [i]; [msg] is the array of 256 bytes, whose contents the
    loop returns. *)
Fixpoint send_loop (count : nat) (i ivposition : Z) (jiffies : Z -> Z)
  (msg : list byte) : M (list byte) :=
  match count with
  | O => ret msg
  | S k =>
      let msg :=
        store_bytes 0 (sprintf_msg i ivposition (jiffies i) ++ [x00]) msg in
      ringbuf_write msg (strlen msg + 1) ;;
      send_loop k (i + 1) ivposition jiffies msg
  end.

(** send_msg.c:20-42, for a node [/dev/ringbuf] with the minor number
    of the driver, so that [filp_open] returns a file. *)
Definition sendmsg_init (jiffies : Z -> Z) (msg : list byte) : M Z :=
  ringbuf_open RINGBUF_DEVICE_MINOR_NR ;;
  ivposition <- ringbuf_ioctl IOCTL_IVPOSITION 0 ;;
  send_loop 20 0 ivposition jiffies msg ;;
  ringbuf_release ;;
  ret 0.

(** The texts of the loop, in order, and a text as it is sent: with
    its NUL. *)
Fixpoint harness_texts (count : nat) (i ivposition : Z) (jiffies : Z -> Z)
  : list (list byte) :=
  match count with
  | O => []
  | S k =>
      sprintf_msg i ivposition (jiffies i)
        :: harness_texts k (i + 1) ivposition jiffies
  end.

Definition with_nul (t : list byte) : list byte := t ++ [x00].

(** The tasklet run [n] times, each time with the same bytes in its
    uninitialised locals; the texts printed. *)
Fixpoint readmsg_n (n : nat) (hd recv : list byte)
  : M (list (option (list byte))) :=
  match n with
  | O => ret []
  | S k =>
      t <- ringbuf_readmsg hd recv ;;
      ts <- readmsg_n k hd recv ;;
      ret (t :: ts)
  end.

End Harness.
Import Harness.

(* ------------------------------------------------------------------ *)
(** * Sends and receives in any order *)
(* ------------------------------------------------------------------ *)

Module Refine.

(** What the two sides do, one call after the other. *)
Inductive op :=
| Send (P : list byte)
| Receive.

(** What a call gives back: the value of a send, or the value of a
    receive and the caller's buffer. *)
Definition outcome : Type := (Z + Z * list byte)%type.

(** The producer [dP] and the consumer [dC] run [ops] on the region
    [m]; [pt] is the producer's cursor.  Every receive is given the
    same [buffer] and length [len].  The result is what the calls gave
    back, the cursor and the region; nothing if a call faults. *)
Fixpoint run_ops (dP dC : ringbuf_device) (hd buffer : list byte) (len : Z)
  (ops : list op) (pt : Z) (m : list byte)
  : option (list outcome * Z * list byte) :=
  match ops with
  | [] => Some ([], pt, m)
  | Send P :: rest =>
      match ringbuf_write P (zlen P) (mk dP pt m []) with
      | Ok r s =>
          match run_ops dP dC hd buffer len rest (payload_pt s) (shm s) with
          | Some (outs, pt', m') => Some (inl r :: outs, pt', m')
          | None => None
          end
      | Fault _ => None
      end
  | Receive :: rest =>
      match ringbuf_read hd buffer len (mk dC 0 m []) with
      | Ok rb s =>
          match run_ops dP dC hd buffer len rest pt (shm s) with
          | Some (outs, pt', m') => Some (inr rb :: outs, pt', m')
          | None => None
          end
      | Fault _ => None
      end
  end.

(** A queue of at most 32 messages that drops a message sent to it
    when it is full, and what its calls give back. *)
Definition QUEUE_MAX : Z := RINGBUF_SZ / RINGBUF_MSG_SZ.

Fixpoint queue_ops (buffer : list byte) (len : Z) (ops : list op)
  (q : list (list byte)) : list outcome * list (list byte) :=
  match ops with
  | [] => ([], q)
  | Send P :: rest =>
      let q' := if QUEUE_MAX <=? zlen q then q else q ++ [P] in
      let '(outs, qf) := queue_ops buffer len rest q' in
      (inl 0 :: outs, qf)
  | Receive :: rest =>
      match q with
      | [] =>
          let '(outs, qf) := queue_ops buffer len rest [] in
          (inr (0, buffer) :: outs, qf)
      | P :: q' =>
          let '(outs, qf) := queue_ops buffer len rest q' in
          (inr (0, received P buffer len) :: outs, qf)
      end
  end.

(** The payloads of the sends that are taken fit the payload area of
    [cap] bytes, from the cursor [pt] on. *)
Fixpoint arena_fits (cap : Z) (ops : list op) (n pt : Z) : Prop :=
  match ops with
  | [] => True
  | Send P :: rest =>
      if QUEUE_MAX <=? n then arena_fits cap rest n pt
      else pt + zlen P <= cap /\ arena_fits cap rest (n + 1) (pt + zlen P)
  | Receive :: rest => arena_fits cap rest (Z.max 0 (n - 1)) pt
  end.

End Refine.
Import Refine.

(* ------------------------------------------------------------------ *)
(** * More regions to run the driver on *)
(* ------------------------------------------------------------------ *)

Module Cases.

(** The region of the scenario after the producer has sent [hello] and
    then [world]. *)
Definition two_queued : list byte :=
  written devP 5 world 5 (written devP 0 hello 5 region0).

(** A header a peer could queue whose length field is negative. *)
Definition negative_hd : rbmsg_hd :=
  {| src_qid := QEMU_PROCESS_ID; payload_off := 0; payload_len := -1 |}.
Definition negative_region : list byte :=
  after_in (encode_hd negative_hd) RINGBUF_MSG_SZ
    (payload_written 0 hello 5 region0).

(** [hi] as a C string, and the region after the producer has sent
    it. *)
Definition hi_text : list byte := [x68; x69].
Definition hi_msg : list byte := hi_text ++ [x00].
Definition hi_queued : list byte := written devP 0 hi_msg 3 region0.

(** What the stack held where the tasklet's array lies. *)
Definition stack_recv : list byte := [x6f; x6c; x64; x00] ++ repeat xcc 508.

(** A PCI layer that gives the producer of the scenario what it
    asks for: revision 1, IVPosition 3, BAR0 mapped at 0x500, BAR1 at
    0x800 and the 1112 bytes of BAR2 at 0x10000; and two that differ
    from it in one answer, the mapping of BAR1 and the second
    [request_irq]. *)
Definition env_ok : pci_env :=
  {| pci_enable_device := 0;
     pci_request_regions := 0;
     revision_id := 1;
     pci_resource_start := fun bar => 0xfe000000 + bar * 0x100000;
     pci_resource_len := fun bar => if bar =? 2 then 1112 else 256;
     ioremap := fun addr _ =>
       if addr =? 0xfe000000 then 0x500
       else if addr =? 0xfe100000 then 0x800
       else if addr =? 0xfe200000 then 0x10000 else 0;
     ioread32_ivposition := 3;
     kmalloc_names := 0x7000;
     pci_alloc_irq_vectors := 4;
     pci_irq_vector := fun i => 40 + i;
     request_irq := fun _ => 0 |}.

Definition env_no_bar1 : pci_env :=
  {| pci_enable_device := 0;
     pci_request_regions := 0;
     revision_id := 1;
     pci_resource_start := pci_resource_start env_ok;
     pci_resource_len := pci_resource_len env_ok;
     ioremap := fun addr size =>
       if addr =? 0xfe100000 then 0 else ioremap env_ok addr size;
     ioread32_ivposition := 3;
     kmalloc_names := 0x7000;
     pci_alloc_irq_vectors := 4;
     pci_irq_vector := fun i => 40 + i;
     request_irq := fun _ => 0 |}.

Definition env_busy : pci_env :=
  {| pci_enable_device := 0;
     pci_request_regions := 0;
     revision_id := 1;
     pci_resource_start := pci_resource_start env_ok;
     pci_resource_len := pci_resource_len env_ok;
     ioremap := ioremap env_ok;
     ioread32_ivposition := 3;
     kmalloc_names := 0x7000;
     pci_alloc_irq_vectors := 4;
     pci_irq_vector := fun i => 40 + i;
     request_irq := fun irq => if irq =? 41 then -16 else 0 |}.

(** A BAR2 of 4096 bytes, with a payload area of 3048 bytes, seen by a
    producer and a consumer, and formatted by the producer. *)
Definition big_raw : list byte := repeat x00 4096.
Definition big_devP : ringbuf_device :=
  probed 1 0x500 0x10000 4096 3 Producer.
Definition big_devC : ringbuf_device :=
  probed 1 0x600 0x20000 4096 4 Consumer.
Definition big_region : list byte :=
  shm (state_after (ringbuf_fifo_init stack_fifo stack_lock)
         (mk big_devP 0 big_raw [])).

(** The array of the sender before the first [sprintf], and the values
    [jiffies] has in the iterations of its loop, three seconds apart
    at 250 ticks per second. *)
Definition stack_msg : list byte := repeat xcc 256.
Definition jiffies_at (i : Z) : Z := 4294937296 + 750 * i.

(** The PCI layer of the consumer of the scenario: IVPosition 4, BAR0
    mapped at 0x600 and BAR2 at 0x20000. *)
Definition env_consumer : pci_env :=
  {| pci_enable_device := 0;
     pci_request_regions := 0;
     revision_id := 1;
     pci_resource_start := pci_resource_start env_ok;
     pci_resource_len := pci_resource_len env_ok;
     ioremap := fun addr _ =>
       if addr =? 0xfe000000 then 0x600
       else if addr =? 0xfe100000 then 0x900
       else if addr =? 0xfe200000 then 0x20000 else 0;
     ioread32_ivposition := 4;
     kmalloc_names := 0x7400;
     pci_alloc_irq_vectors := 4;
     pci_irq_vector := fun i => 44 + i;
     request_irq := fun _ => 0 |}.

End Cases.
Import Cases.

(* ------------------------------------------------------------------ *)
(** * Facts about bytes and blocks *)
(* ------------------------------------------------------------------ *)

Section ByteFacts.

Lemma byte_to_Z_range (b : byte) : 0 <= byte_to_Z b < 256.
Proof.
  unfold byte_to_Z. pose proof (Byte.to_N_bounded b). lia.
Qed.

Lemma byte_to_of_Z (z : Z) : byte_to_Z (byte_of_Z z) = z mod 256.
Proof.
  unfold byte_to_Z, byte_of_Z.
  assert (Hr : 0 <= z mod 256 < 256) by (apply Z.mod_pos_bound; lia).
  destruct (Byte.of_N (Z.to_N (z mod 256))) as [b|] eqn:E.
  - apply Byte.to_of_N in E. rewrite E. lia.
  - apply Byte.of_N_None_iff in E. lia.
Qed.

Lemma byte_of_to_Z (b : byte) : byte_of_Z (byte_to_Z b) = b.
Proof.
  unfold byte_of_Z, byte_to_Z.
  pose proof (Byte.to_N_bounded b).
  rewrite Z.mod_small by lia.
  rewrite N2Z.id, Byte.of_to_N. reflexivity.
Qed.

Lemma le_bytes_length (n : nat) (v : Z) : length (le_bytes n v) = n.
Proof. revert v; induction n; intros; simpl; auto. Qed.

Lemma le_Z_range (bs : list byte) : 0 <= le_Z bs < 2 ^ (8 * zlen bs).
Proof.
  unfold zlen. induction bs as [|b r IH].
  - simpl. lia.
  - cbn [le_Z length]. pose proof (byte_to_Z_range b).
    replace (8 * Z.of_nat (S (length r))) with (8 + 8 * Z.of_nat (length r)) by lia.
    rewrite Z.pow_add_r by lia. change (2 ^ 8) with 256. nia.
Qed.

Lemma le_Z_bytes (n : nat) (v : Z) :
  le_Z (le_bytes n v) = v mod 2 ^ (8 * Z.of_nat n).
Proof.
  revert v. induction n as [|n IH]; intros v.
  - simpl. now rewrite Z.mod_1_r.
  - cbn [le_bytes le_Z]. rewrite byte_to_of_Z, IH.
    replace (8 * Z.of_nat (S n)) with (8 + 8 * Z.of_nat n) by lia.
    rewrite Z.pow_add_r by lia. change (2 ^ 8) with 256.
    rewrite Z.rem_mul_r by lia. reflexivity.
Qed.

Lemma le_bytes_Z (bs : list byte) : le_bytes (length bs) (le_Z bs) = bs.
Proof.
  induction bs as [|b r IH]; [reflexivity|].
  cbn [le_bytes le_Z length]. pose proof (byte_to_Z_range b).
  f_equal.
  - rewrite <- (byte_of_to_Z b) at 2. unfold byte_of_Z.
    replace ((byte_to_Z b + 256 * le_Z r) mod 256) with (byte_to_Z b mod 256);
      [reflexivity|].
    rewrite (Z.mod_small (byte_to_Z b)) by lia.
    apply (Z.mod_unique_pos _ _ (le_Z r)); lia.
  - replace ((byte_to_Z b + 256 * le_Z r) / 256) with (le_Z r); [exact IH|].
    apply (Z.div_unique_pos _ _ _ (byte_to_Z b)); lia.
Qed.

End ByteFacts.

Section BlockFacts.

Implicit Types m bs : list byte.

Lemma zlen_nonneg {A} (l : list A) : 0 <= zlen l.
Proof. unfold zlen. lia. Qed.

Lemma zlen_app {A} (l1 l2 : list A) : zlen (l1 ++ l2) = zlen l1 + zlen l2.
Proof. unfold zlen. rewrite length_app. lia. Qed.

Lemma zlen_le_bytes (n : nat) (v : Z) : zlen (le_bytes n v) = Z.of_nat n.
Proof. unfold zlen. now rewrite le_bytes_length. Qed.

Lemma zlen_firstn {A} (n : Z) (l : list A) :
  0 <= n <= zlen l -> zlen (firstn (Z.to_nat n) l) = n.
Proof. unfold zlen. intros. rewrite length_firstn. lia. Qed.

Lemma zlen_skipn {A} (n : Z) (l : list A) :
  0 <= n <= zlen l -> zlen (skipn (Z.to_nat n) l) = zlen l - n.
Proof. unfold zlen. intros. rewrite length_skipn. lia. Qed.

(** A block that lies in the first part of a list. *)
Lemma block_app_l (o n : nat) (a r : list byte) :
  (o + n <= length a)%nat ->
  firstn n (skipn o (a ++ r)) = firstn n (skipn o a).
Proof.
  intros H. rewrite skipn_app, firstn_app.
  replace (n - length (skipn o a))%nat with 0%nat
    by (rewrite length_skipn; lia).
  simpl. now rewrite app_nil_r.
Qed.

(** A block that lies behind the first part of a list. *)
Lemma block_app_r (o n : nat) (a r : list byte) :
  (length a <= o)%nat ->
  firstn n (skipn o (a ++ r)) = firstn n (skipn (o - length a) r).
Proof.
  intros H. rewrite skipn_app.
  rewrite (skipn_all2 a) by lia. reflexivity.
Qed.

Lemma store_bytes_zlen (off : Z) bs m :
  0 <= off -> off + zlen bs <= zlen m ->
  zlen (store_bytes off bs m) = zlen m.
Proof.
  unfold store_bytes, zlen. intros H0 H1.
  rewrite !length_app, length_firstn, length_skipn. lia.
Qed.

Lemma store_bytes_nil (off : Z) m : store_bytes off [] m = m.
Proof.
  unfold store_bytes. simpl. rewrite Nat.add_0_r. apply firstn_skipn.
Qed.

Lemma load_bytes_zlen (off n : Z) m :
  0 <= off -> 0 <= n -> off + n <= zlen m ->
  zlen (load_bytes off n m) = n.
Proof.
  unfold load_bytes, zlen. intros.
  rewrite length_firstn, length_skipn. lia.
Qed.

Lemma load_store_same (off : Z) bs m :
  0 <= off -> off + zlen bs <= zlen m ->
  load_bytes off (zlen bs) (store_bytes off bs m) = bs.
Proof.
  unfold load_bytes, store_bytes, zlen. intros H0 H1.
  rewrite Nat2Z.id.
  rewrite block_app_r by (rewrite length_firstn; lia).
  rewrite length_firstn.
  replace (Z.to_nat off - Nat.min (Z.to_nat off) (length m))%nat
    with 0%nat by lia.
  simpl. rewrite firstn_app, Nat.sub_diag, firstn_all. simpl.
  now rewrite app_nil_r.
Qed.

Lemma block_of_prefix (o n k : nat) m :
  (o + n <= k)%nat ->
  firstn n (skipn o (firstn k m)) = firstn n (skipn o m).
Proof.
  intros H. destruct (Nat.le_gt_cases k (length m)) as [Hle|Hgt].
  - transitivity (firstn n (skipn o (firstn k m ++ skipn k m))).
    + symmetry. apply block_app_l. rewrite length_firstn. lia.
    + now rewrite firstn_skipn.
  - rewrite (firstn_all2 m) by lia. reflexivity.
Qed.

Lemma block_of_suffix (o n k : nat) m :
  (k <= o)%nat ->
  firstn n (skipn (o - k) (skipn k m)) = firstn n (skipn o m).
Proof.
  intros H. rewrite skipn_skipn. f_equal. f_equal. lia.
Qed.

Lemma load_store_other (off off' n : Z) bs m :
  0 <= off -> 0 <= off' -> 0 <= n ->
  off + zlen bs <= zlen m ->
  off' + n <= off \/ off + zlen bs <= off' ->
  load_bytes off' n (store_bytes off bs m) = load_bytes off' n m.
Proof.
  unfold load_bytes, store_bytes, zlen. intros H0 H1 H2 H3 [H|H].
  - rewrite block_app_l by (rewrite length_firstn; lia).
    apply block_of_prefix. lia.
  - rewrite app_assoc.
    rewrite block_app_r by (rewrite length_app, length_firstn; lia).
    rewrite length_app, length_firstn.
    replace (Nat.min (Z.to_nat off) (length m) + length bs)%nat
      with (Z.to_nat off + length bs)%nat by lia.
    apply block_of_suffix. lia.
Qed.

End BlockFacts.

(* ------------------------------------------------------------------ *)
(** * Running the effects *)
(* ------------------------------------------------------------------ *)

Section MonadFacts.

Context {A B : Type}.

Lemma bind_Ok (c : M A) (k : A -> M B) (s s' : kstate) (a : A) :
  c s = Ok a s' -> bind c k s = k a s'.
Proof. unfold bind. now intros ->. Qed.

Lemma bind_Fault (c : M A) (k : A -> M B) (s : kstate) (e : fault) :
  c s = Fault e -> bind c k s = Fault e.
Proof. unfold bind. now intros ->. Qed.

End MonadFacts.

Lemma bind_assoc {A B C} (c : M A) (f : A -> M B) (g : B -> M C) (s : kstate) :
  bind (bind c f) g s = bind c (fun x => bind (f x) g) s.
Proof. unfold bind. destruct (c s); reflexivity. Qed.

Section PrimFacts.

Variables (d : ringbuf_device) (pt : Z) (m : list byte) (l : list event).

Hypothesis Hbase : 0 < base_addr d.

Lemma in_region_true (o n : Z) :
  0 <= o -> o + n <= zlen m ->
  in_region (mk d pt m l) (base_addr d + o) n = true.
Proof.
  intros. unfold in_region, mk; cbn.
  rewrite !andb_true_iff, negb_true_iff.
  repeat split; lia.
Qed.

Lemma in_region_false (o n : Z) :
  zlen m < o + n ->
  in_region (mk d pt m l) (base_addr d + o) n = false.
Proof.
  intros. unfold in_region, mk; cbn.
  rewrite !andb_false_iff. right. lia.
Qed.

Lemma shm_load_ok (o n : Z) :
  0 < n -> 0 <= o -> o + n <= zlen m ->
  shm_load (base_addr d + o) n (mk d pt m l)
  = Ok (load_bytes o n m) (mk d pt m (l ++ [EvLoad o n])).
Proof.
  intros. unfold shm_load.
  replace (n <=? 0) with false by lia.
  rewrite in_region_true by lia. cbn.
  now replace (base_addr d + o - base_addr d) with o by lia.
Qed.

Lemma shm_load_none (a n : Z) (s : kstate) :
  n <= 0 -> shm_load a n s = Ok [] s.
Proof. intros. unfold shm_load. now replace (n <=? 0) with true by lia. Qed.

Lemma shm_load_fault (o n : Z) :
  0 < n -> zlen m < o + n ->
  shm_load (base_addr d + o) n (mk d pt m l)
  = Fault (OutOfRegion (base_addr d + o) n).
Proof.
  intros. unfold shm_load.
  replace (n <=? 0) with false by lia.
  now rewrite in_region_false by lia.
Qed.

Lemma shm_store_ok (o : Z) (bs : list byte) :
  0 < zlen bs -> 0 <= o -> o + zlen bs <= zlen m ->
  shm_store (base_addr d + o) bs (mk d pt m l)
  = Ok tt (mk d pt (store_bytes o bs m) (l ++ [EvStore o (zlen bs)])).
Proof.
  intros. unfold shm_store.
  replace (zlen bs <=? 0) with false by lia.
  rewrite in_region_true by lia. cbn.
  now replace (base_addr d + o - base_addr d) with o by lia.
Qed.

Lemma shm_store_none (a : Z) (bs : list byte) (s : kstate) :
  zlen bs <= 0 -> shm_store a bs s = Ok tt s.
Proof.
  intros. unfold shm_store. now replace (zlen bs <=? 0) with true by lia.
Qed.

Lemma shm_store_fault (o : Z) (bs : list byte) :
  0 < zlen bs -> zlen m < o + zlen bs ->
  shm_store (base_addr d + o) bs (mk d pt m l)
  = Fault (OutOfRegion (base_addr d + o) (zlen bs)).
Proof.
  intros. unfold shm_store.
  replace (zlen bs <=? 0) with false by lia.
  now rewrite in_region_false by lia.
Qed.

Lemma load_u32_ok (o : Z) :
  0 <= o -> o + 4 <= zlen m ->
  load_u32 (base_addr d + o) (mk d pt m l)
  = Ok (le_Z (load_bytes o 4 m)) (mk d pt m (l ++ [EvLoad o 4])).
Proof.
  intros. unfold load_u32.
  erewrite bind_Ok by (apply shm_load_ok; lia). reflexivity.
Qed.

Lemma load_ptr_ok (o : Z) :
  0 <= o -> o + 8 <= zlen m ->
  load_ptr (base_addr d + o) (mk d pt m l)
  = Ok (le_Z (load_bytes o 8 m)) (mk d pt m (l ++ [EvLoad o 8])).
Proof.
  intros. unfold load_ptr.
  erewrite bind_Ok by (apply shm_load_ok; lia). reflexivity.
Qed.

Lemma store_u32_ok (o v : Z) :
  0 <= o -> o + 4 <= zlen m ->
  store_u32 (base_addr d + o) v (mk d pt m l)
  = Ok tt (mk d pt (store_bytes o (le_bytes 4 v) m) (l ++ [EvStore o 4])).
Proof.
  intros. unfold store_u32.
  rewrite shm_store_ok; rewrite ?zlen_le_bytes; try lia. reflexivity.
Qed.

Lemma store_ptr_ok (o v : Z) :
  0 <= o -> o + 8 <= zlen m ->
  store_ptr (base_addr d + o) v (mk d pt m l)
  = Ok tt (mk d pt (store_bytes o (le_bytes 8 v) m) (l ++ [EvStore o 8])).
Proof.
  intros. unfold store_ptr.
  rewrite shm_store_ok; rewrite ?zlen_le_bytes; try lia. reflexivity.
Qed.

Lemma emit_ok (e : event) :
  emit e (mk d pt m l) = Ok tt (mk d pt m (l ++ [e])).
Proof. reflexivity. Qed.

End PrimFacts.

(* ------------------------------------------------------------------ *)
(** * kfifo on a mapped region *)
(* ------------------------------------------------------------------ *)

Section WrapFacts.

Lemma wrap32_range (x : Z) : 0 <= wrap32 x < 2 ^ 32.
Proof. unfold wrap32. apply Z.mod_pos_bound. lia. Qed.

Lemma wrap32_small (x : Z) : 0 <= x < 2 ^ 32 -> wrap32 x = x.
Proof. unfold wrap32. intros. now apply Z.mod_small. Qed.

Lemma wrap32_sub (a b : Z) : wrap32 (wrap32 a - wrap32 b) = wrap32 (a - b).
Proof. unfold wrap32. now rewrite <- Zminus_mod. Qed.

Lemma land_mask (i : Z) : Z.land i (RINGBUF_SZ - 1) = i mod RINGBUF_SZ.
Proof.
  change (RINGBUF_SZ - 1) with (Z.ones 9). change RINGBUF_SZ with (2 ^ 9).
  apply Z.land_ones. lia.
Qed.

Lemma u32_range (o : Z) (m : list byte) :
  0 <= le_Z (load_bytes o 4 m) < 2 ^ 32.
Proof.
  pose proof (le_Z_range (load_bytes o 4 m)) as H.
  assert (Hl : zlen (load_bytes o 4 m) <= 4).
  { unfold zlen, load_bytes. pose proof (firstn_le_length (Z.to_nat 4) (skipn (Z.to_nat o) m)). lia. }
  assert (2 ^ (8 * zlen (load_bytes o 4 m)) <= 2 ^ 32).
  { apply Z.pow_le_mono_r; [lia|]. lia. }
  lia.
Qed.

End WrapFacts.

Section KfifoFacts.

Variables (d : ringbuf_device) (pt : Z) (m : list byte) (l : list event).
Hypothesis Hmap : mapped d m.

Lemma mapped_base : 0 < base_addr d.
Proof. apply Hmap. Qed.

Lemma mapped_size : 1048 <= zlen m.
Proof. destruct Hmap as (_ & _ & _ & H & _). exact H. Qed.

Lemma kfifo_size_ok :
  kfifo_size (base_addr d) (mk d pt m l)
  = Ok (wrap32 (q_mask m + 1)) (mk d pt m (l ++ [EvLoad off_mask 4])).
Proof.
  pose proof mapped_base. pose proof mapped_size.
  unfold kfifo_size.
  erewrite bind_Ok by (apply load_u32_ok; unfold off_mask; lia).
  reflexivity.
Qed.

Lemma kfifo_len_ok :
  kfifo_len (base_addr d) (mk d pt m l)
  = Ok (q_len m) (mk d pt m (l ++ [EvLoad off_in 4; EvLoad off_out 4])).
Proof.
  pose proof mapped_base. pose proof mapped_size.
  unfold kfifo_len.
  erewrite bind_Ok by (apply load_u32_ok; unfold off_in; lia).
  erewrite bind_Ok by (apply load_u32_ok; unfold off_out; lia).
  rewrite <- app_assoc. reflexivity.
Qed.

Lemma kfifo_unused_ok :
  kfifo_unused (base_addr d) (mk d pt m l)
  = Ok (q_avail m)
       (mk d pt m (l ++ [EvLoad off_mask 4; EvLoad off_in 4; EvLoad off_out 4])).
Proof.
  pose proof mapped_base. pose proof mapped_size.
  unfold kfifo_unused.
  erewrite bind_Ok by (apply load_u32_ok; unfold off_mask; lia).
  erewrite bind_Ok by (apply load_u32_ok; unfold off_in; lia).
  erewrite bind_Ok by (apply load_u32_ok; unfold off_out; lia).
  rewrite <- !app_assoc. unfold ret, q_avail, q_len.
  rewrite wrap32_sub. reflexivity.
Qed.

End KfifoFacts.

Lemma kfifo_avail_ok d pt m l :
  mapped d m ->
  kfifo_avail (base_addr d) (mk d pt m l)
  = Ok (q_avail m)
       (mk d pt m (l ++ [EvLoad off_mask 4; EvLoad off_in 4; EvLoad off_out 4])).
Proof.
  intros Hmap. unfold kfifo_avail.
  erewrite bind_Ok by (now apply kfifo_size_ok).
  erewrite bind_Ok by (now apply kfifo_len_ok).
  rewrite <- !app_assoc. reflexivity.
Qed.
Ltac consts :=
  unfold KFIFO_BUF_OFF, off_in, off_out, off_mask, off_esize, off_data in *;
  change RINGBUF_SZ with 512 in *;
  change RINGBUF_MSG_SZ with 16 in *;
  change sizeof_fifo with 536 in *;
  change PAYLOADS_OFF with 1048 in *.

Ltac zsolve := consts; lia.

Lemma q_off_range i : 0 <= q_off i < 512.
Proof. unfold q_off. apply Z.mod_pos_bound. reflexivity. Qed.

Lemma q_first_range i n : 0 < n -> 0 < q_first i n <= n.
Proof. unfold q_first. pose proof (q_off_range i). change RINGBUF_SZ with 512. lia. Qed.

Lemma q_first_fits i n : q_off i + q_first i n <= 512.
Proof. unfold q_first. change RINGBUF_SZ with 512. lia. Qed.

Lemma memcpy_to_shm_ok d pt m l o src n :
  0 < base_addr d -> 0 <= n <= zlen src -> 0 <= o -> o + n <= zlen m ->
  memcpy_to_shm (base_addr d + o) src n (mk d pt m l)
  = Ok tt (mk d pt (store_bytes o (firstn (Z.to_nat n) src) m)
                   (l ++ if n <=? 0 then [] else [EvStore o n])).
Proof.
  intros Hb Hn Ho Hfit. unfold memcpy_to_shm.
  replace (zlen src <? n) with false by lia.
  destruct (Z.leb_spec n 0) as [Hz|Hz].
  - assert (n = 0) by lia. subst n. simpl firstn.
    rewrite shm_store_none by (unfold zlen; simpl; lia).
    now rewrite store_bytes_nil, app_nil_r.
  - rewrite shm_store_ok; rewrite ?zlen_firstn; try lia. reflexivity.
Qed.

Lemma zlen_unlocked (n : Z) : 0 <= n -> zlen (SPIN_LOCK_UNLOCKED n) = n.
Proof.
  intros. unfold SPIN_LOCK_UNLOCKED, zlen. rewrite repeat_length. lia.
Qed.

Lemma spin_lock_init_ok d pt m l o n :
  0 < base_addr d -> 0 <= n -> 0 <= o -> o + n <= zlen m ->
  spin_lock_init (base_addr d + o) n (mk d pt m l)
  = Ok tt (mk d pt (store_bytes o (SPIN_LOCK_UNLOCKED n) m)
                   (l ++ (if n <=? 0 then [] else [EvStore o n])
                      ++ [EvSpinLockInit (base_addr d + o)])).
Proof.
  intros Hb Hn Ho Hfit. unfold spin_lock_init.
  pose proof (zlen_unlocked n Hn) as Hu.
  destruct (Z.leb_spec n 0) as [Hz|Hz].
  - assert (n = 0) by lia. subst n.
    erewrite bind_Ok by (apply shm_store_none; rewrite Hu; lia).
    rewrite emit_ok. unfold SPIN_LOCK_UNLOCKED. cbn [Z.to_nat repeat].
    now rewrite store_bytes_nil.
  - erewrite bind_Ok by (apply shm_store_ok; rewrite ?Hu; lia).
    rewrite emit_ok, Hu, <- app_assoc. reflexivity.
Qed.

Lemma kfifo_copy_in_ok d pt m l buf i :
  mapped d m -> formatted m -> q_data m = base_addr d + KFIFO_BUF_OFF ->
  zlen buf = RINGBUF_MSG_SZ ->
  kfifo_copy_in (base_addr d) buf RINGBUF_MSG_SZ i (mk d pt m l)
  = Ok tt (mk d pt (copied_in buf RINGBUF_MSG_SZ i m)
                   (l ++ copy_in_events i RINGBUF_MSG_SZ)).
Proof.
  intros Hmap [Hmask Hes] Hdata Hbuf.
  pose proof (mapped_base _ _ Hmap) as Hb. pose proof (mapped_size _ _ Hmap) as Hsz.
  pose proof (q_off_range i) as Hoff.
  pose proof (q_first_range i 16 ltac:(lia)) as Hl1.
  pose proof (q_first_fits i 16) as Hfit.
  change RINGBUF_MSG_SZ with 16 in *.
  unfold q_mask, q_esize, q_data in *.
  unfold kfifo_copy_in.
  erewrite bind_Ok by (apply load_u32_ok; unfold off_mask; lia).
  erewrite bind_Ok by (apply load_u32_ok; unfold off_esize; lia).
  erewrite bind_Ok by (apply load_u32_ok; unfold off_mask; lia).
  rewrite Hmask, Hes, land_mask.
  change (scale 1 (i mod RINGBUF_SZ) (wrap32 (RINGBUF_SZ - 1 + 1)) 16)
    with (q_off i, 512, 16).
  cbv iota beta.
  rewrite (wrap32_small (512 - q_off i)) by lia.
  change (Z.min 16 (512 - q_off i)) with (q_first i 16).
  erewrite bind_Ok by (apply load_ptr_ok; unfold off_data; lia).
  rewrite Hdata, <- Z.add_assoc.
  erewrite bind_Ok by (apply memcpy_to_shm_ok; unfold KFIFO_BUF_OFF; lia).
  replace (q_first i 16 <=? 0) with false by lia.
  set (m1 := store_bytes _ _ m).
  assert (Hm1 : zlen m1 = zlen m).
  { apply store_bytes_zlen; rewrite ?zlen_firstn; unfold KFIFO_BUF_OFF; lia. }
  erewrite bind_Ok by (apply load_ptr_ok; unfold off_data; lia).
  replace (load_bytes off_data 8 m1) with (load_bytes off_data 8 m).
  2:{ symmetry. apply load_store_other; rewrite ?zlen_firstn;
      unfold KFIFO_BUF_OFF, off_data; lia. }
  rewrite Hdata.
  erewrite bind_Ok.
  2:{ apply memcpy_to_shm_ok; rewrite ?zlen_skipn; unfold KFIFO_BUF_OFF; lia. }
  unfold smp_wmb. rewrite emit_ok.
  unfold copied_in, copy_in_events, tail_store. fold m1.
  rewrite <- !app_assoc. reflexivity.
Qed.

Section CopiedIn.
Variables (buf m : list byte) (i : Z).
Hypothesis Hbuf : zlen buf = 16.
Hypothesis Hsz : 1048 <= zlen m.

Let l1 := q_first i 16.
Let m1 := store_bytes (KFIFO_BUF_OFF + q_off i) (firstn (Z.to_nat l1) buf) m.

Lemma copied_in_m1_zlen : zlen m1 = zlen m.
Proof.
  pose proof (q_off_range i). pose proof (q_first_range i 16 ltac:(lia)).
  pose proof (q_first_fits i 16).
  apply store_bytes_zlen; rewrite ?zlen_firstn; unfold KFIFO_BUF_OFF; lia.
Qed.

Lemma zlen_tail : zlen (firstn (Z.to_nat (16 - l1)) (skipn (Z.to_nat l1) buf)) = 16 - l1.
Proof.
  pose proof (q_first_range i 16 ltac:(lia)).
  rewrite zlen_firstn; rewrite ?zlen_skipn; lia.
Qed.

Lemma copied_in_zlen : zlen (copied_in buf 16 i m) = zlen m.
Proof.
  pose proof (q_first_range i 16 ltac:(lia)).
  unfold copied_in. fold l1. fold m1.
  rewrite store_bytes_zlen; rewrite ?zlen_tail, ?copied_in_m1_zlen;
    unfold KFIFO_BUF_OFF; lia.
Qed.

(** Only the queue's buffer changes. *)
Lemma copied_in_frame (o n : Z) :
  0 <= o -> 0 <= n -> o + n <= KFIFO_BUF_OFF \/ sizeof_fifo <= o ->
  load_bytes o n (copied_in buf 16 i m) = load_bytes o n m.
Proof.
  intros Ho Hn Hdis.
  pose proof (q_off_range i). pose proof (q_first_range i 16 ltac:(lia)).
  pose proof (q_first_fits i 16).
  unfold sizeof_fifo, KFIFO_BUF_OFF in Hdis; cbn in Hdis.
  unfold copied_in. fold l1. fold m1.
  rewrite load_store_other; rewrite ?zlen_tail, ?copied_in_m1_zlen;
    unfold KFIFO_BUF_OFF; try lia.
  unfold m1.
  rewrite load_store_other; rewrite ?zlen_firstn;
    unfold KFIFO_BUF_OFF; fold l1; try lia.
  reflexivity.
Qed.

(** The two pieces, read back. *)
Lemma copied_in_first :
  load_bytes (KFIFO_BUF_OFF + q_off i) l1 (copied_in buf 16 i m)
  = firstn (Z.to_nat l1) buf.
Proof.
  pose proof (q_off_range i). pose proof (q_first_range i 16 ltac:(lia)).
  pose proof (q_first_fits i 16).
  unfold copied_in. fold l1. fold m1.
  rewrite load_store_other; rewrite ?zlen_tail, ?copied_in_m1_zlen;
    unfold KFIFO_BUF_OFF; try lia.
  - unfold m1.
    replace l1 with (zlen (firstn (Z.to_nat l1) buf)) at 1
      by (apply zlen_firstn; lia).
    apply load_store_same; rewrite ?zlen_firstn; zsolve.
  - unfold l1, q_first in *. zsolve.
Qed.

Lemma copied_in_second :
  load_bytes KFIFO_BUF_OFF (16 - l1) (copied_in buf 16 i m)
  = skipn (Z.to_nat l1) buf.
Proof.
  pose proof (q_first_range i 16 ltac:(lia)).
  unfold copied_in. fold l1. fold m1.
  rewrite <- zlen_tail at 1.
  rewrite load_store_same; rewrite ?zlen_tail, ?copied_in_m1_zlen;
    unfold KFIFO_BUF_OFF; try lia.
  apply firstn_all2. rewrite length_skipn. unfold zlen in Hbuf. lia.
Qed.

End CopiedIn.

Lemma after_in_zlen buf m :
  zlen buf = 16 -> 1048 <= zlen m -> zlen (after_in buf 16 m) = zlen m.
Proof.
  intros. unfold after_in.
  rewrite store_bytes_zlen; rewrite ?zlen_le_bytes, ?copied_in_zlen; zsolve.
Qed.

Lemma kfifo_in_ok d pt m l buf :
  mapped d m -> formatted m -> q_data m = base_addr d + KFIFO_BUF_OFF ->
  zlen buf = RINGBUF_MSG_SZ -> RINGBUF_MSG_SZ <= q_avail m ->
  kfifo_in (base_addr d) buf RINGBUF_MSG_SZ (mk d pt m l)
  = Ok RINGBUF_MSG_SZ
       (mk d pt (after_in buf RINGBUF_MSG_SZ m)
                (l ++ in_events (q_in m) RINGBUF_MSG_SZ)).
Proof.
  intros Hmap Hfmt Hdata Hbuf Hav.
  pose proof (mapped_base _ _ Hmap) as Hb. pose proof (mapped_size _ _ Hmap) as Hsz.
  unfold kfifo_in.
  erewrite bind_Ok by (now apply kfifo_unused_ok).
  replace (q_avail m <? RINGBUF_MSG_SZ) with false by lia.
  erewrite bind_Ok by (apply load_u32_ok; zsolve).
  change (le_Z (load_bytes off_in 4 m)) with (q_in m).
  erewrite bind_Ok by (now apply kfifo_copy_in_ok).
  change RINGBUF_MSG_SZ with 16 in *.
  assert (Hm2 : zlen (copied_in buf 16 (q_in m) m) = zlen m)
    by (now apply copied_in_zlen).
  erewrite bind_Ok by (apply load_u32_ok; zsolve).
  rewrite copied_in_frame by (try assumption; zsolve).
  change (le_Z (load_bytes off_in 4 m)) with (q_in m).
  erewrite bind_Ok by (apply store_u32_ok; zsolve).
  unfold after_in, in_events, ret. rewrite <- !app_assoc. reflexivity.
Qed.

Lemma memcpy_from_shm_ok d pt m l dst at_ o n :
  0 < base_addr d -> 0 <= n -> 0 <= at_ -> at_ + n <= zlen dst ->
  0 <= o -> o + n <= zlen m ->
  memcpy_from_shm dst at_ (base_addr d + o) n (mk d pt m l)
  = Ok (store_bytes at_ (load_bytes o n m) dst)
       (mk d pt m (l ++ if n <=? 0 then [] else [EvLoad o n])).
Proof.
  intros Hb Hn Hat Hdst Ho Hfit. unfold memcpy_from_shm.
  destruct (Z.leb_spec n 0) as [Hz|Hz].
  - assert (n = 0) by lia. subst n.
    erewrite bind_Ok by (apply shm_load_none; lia).
    replace (zlen dst <? at_ + 0) with false by lia.
    unfold load_bytes. simpl firstn. now rewrite app_nil_r.
  - erewrite bind_Ok by (apply shm_load_ok; lia).
    replace (zlen dst <? at_ + n) with false by lia. reflexivity.
Qed.

(** Filling a buffer in two pieces from its start. *)
Lemma store_two (a b dst : list byte) :
  zlen dst = zlen a + zlen b ->
  store_bytes (zlen a) b (store_bytes 0 a dst) = a ++ b.
Proof.
  unfold store_bytes, zlen. intros H. simpl. rewrite Nat2Z.id.
  rewrite firstn_app, Nat.sub_diag, firstn_all. simpl. rewrite app_nil_r.
  f_equal. rewrite <- app_nil_r. f_equal.
  apply skipn_all2. rewrite length_app, length_skipn. lia.
Qed.

Lemma kfifo_copy_out_ok d pt m l dst o :
  mapped d m -> formatted m -> q_data m = base_addr d + KFIFO_BUF_OFF ->
  zlen dst = RINGBUF_MSG_SZ ->
  kfifo_copy_out (base_addr d) dst RINGBUF_MSG_SZ o (mk d pt m l)
  = Ok (block_at o RINGBUF_MSG_SZ m)
       (mk d pt m (l ++ copy_out_events o RINGBUF_MSG_SZ)).
Proof.
  intros Hmap [Hmask Hes] Hdata Hdst.
  pose proof (mapped_base _ _ Hmap) as Hb. pose proof (mapped_size _ _ Hmap) as Hsz.
  pose proof (q_off_range o) as Hoff.
  pose proof (q_first_range o 16 ltac:(lia)) as Hl1.
  pose proof (q_first_fits o 16) as Hfit.
  change RINGBUF_MSG_SZ with 16 in *.
  unfold q_mask, q_esize, q_data in *.
  unfold kfifo_copy_out.
  erewrite bind_Ok by (apply load_u32_ok; zsolve).
  erewrite bind_Ok by (apply load_u32_ok; zsolve).
  erewrite bind_Ok by (apply load_u32_ok; zsolve).
  rewrite Hmask, Hes, land_mask.
  change (scale 1 (o mod RINGBUF_SZ) (wrap32 (RINGBUF_SZ - 1 + 1)) 16)
    with (q_off o, 512, 16).
  cbv iota beta.
  rewrite (wrap32_small (512 - q_off o)) by lia.
  change (Z.min 16 (512 - q_off o)) with (q_first o 16).
  erewrite bind_Ok by (apply load_ptr_ok; zsolve).
  rewrite Hdata, <- Z.add_assoc.
  erewrite bind_Ok by (apply memcpy_from_shm_ok; zsolve).
  replace (q_first o 16 <=? 0) with false by lia.
  erewrite bind_Ok by (apply load_ptr_ok; zsolve).
  rewrite Hdata.
  set (a := load_bytes (KFIFO_BUF_OFF + q_off o) (q_first o 16) m).
  set (b := load_bytes KFIFO_BUF_OFF (16 - q_first o 16) m).
  assert (Ha : zlen a = q_first o 16)
    by (apply load_bytes_zlen; zsolve).
  assert (Hbz : zlen b = 16 - q_first o 16)
    by (apply load_bytes_zlen; zsolve).
  assert (Hd1 : zlen (store_bytes 0 a dst) = 16).
  { rewrite store_bytes_zlen; lia. }
  erewrite bind_Ok by (apply memcpy_from_shm_ok; zsolve).
  fold b.
  replace (store_bytes (q_first o 16) b (store_bytes 0 a dst)) with (a ++ b)
    by (symmetry; rewrite <- Ha; apply store_two; lia).
  unfold smp_wmb. erewrite bind_Ok by apply emit_ok.
  unfold copy_out_events, tail_load, ret, block_at. fold a b.
  rewrite <- !app_assoc. reflexivity.
Qed.

Lemma after_out_zlen m :
  1048 <= zlen m -> zlen (after_out 16 m) = zlen m.
Proof.
  intros. unfold after_out.
  rewrite store_bytes_zlen; rewrite ?zlen_le_bytes; zsolve.
Qed.

Lemma kfifo_out_ok d pt m l dst :
  mapped d m -> formatted m -> q_data m = base_addr d + KFIFO_BUF_OFF ->
  zlen dst = RINGBUF_MSG_SZ -> RINGBUF_MSG_SZ <= q_len m ->
  kfifo_out (base_addr d) dst RINGBUF_MSG_SZ (mk d pt m l)
  = Ok (RINGBUF_MSG_SZ, out_bytes RINGBUF_MSG_SZ m)
       (mk d pt (after_out RINGBUF_MSG_SZ m)
                (l ++ out_events (q_out m) RINGBUF_MSG_SZ)).
Proof.
  intros Hmap Hfmt Hdata Hdst Hlen.
  pose proof (mapped_base _ _ Hmap) as Hb. pose proof (mapped_size _ _ Hmap) as Hsz.
  unfold kfifo_out.
  erewrite bind_Ok by (apply load_u32_ok; zsolve).
  erewrite bind_Ok by (apply load_u32_ok; zsolve).
  change (wrap32 (le_Z (load_bytes off_in 4 m) - le_Z (load_bytes off_out 4 m)))
    with (q_len m).
  replace (q_len m <? RINGBUF_MSG_SZ) with false by lia.
  erewrite bind_Ok by (apply load_u32_ok; zsolve).
  change (le_Z (load_bytes off_out 4 m)) with (q_out m).
  erewrite bind_Ok by (now apply kfifo_copy_out_ok).
  erewrite bind_Ok by (apply load_u32_ok; zsolve).
  change (le_Z (load_bytes off_out 4 m)) with (q_out m).
  erewrite bind_Ok by (apply store_u32_ok; zsolve).
  unfold after_out, out_events, out_bytes, ret.
  rewrite <- !app_assoc. reflexivity.
Qed.
(* ------------------------------------------------------------------ *)
(** * Frames: what each step leaves unchanged *)
(* ------------------------------------------------------------------ *)

Section Frames.

Variables (d : ringbuf_device) (m : list byte).
Hypothesis Hsz : 1048 <= zlen m.

Lemma set_data_zlen : zlen (set_data d m) = zlen m.
Proof.
  unfold set_data. rewrite store_bytes_zlen; rewrite ?zlen_le_bytes; zsolve.
Qed.

Lemma set_data_frame (o n : Z) :
  0 <= o -> 0 <= n -> o + n <= off_data \/ KFIFO_BUF_OFF <= o ->
  load_bytes o n (set_data d m) = load_bytes o n m.
Proof.
  intros. unfold set_data.
  apply load_store_other; rewrite ?zlen_le_bytes; zsolve.
Qed.

Lemma set_data_data :
  0 <= base_addr d -> base_addr d + zlen m < 2 ^ 64 ->
  q_data (set_data d m) = base_addr d + KFIFO_BUF_OFF.
Proof.
  intros. unfold q_data, set_data.
  change 8 with (zlen (le_bytes 8 (base_addr d + KFIFO_BUF_OFF))) at 1.
  rewrite load_store_same by (rewrite ?zlen_le_bytes; zsolve).
  rewrite le_Z_bytes. apply Z.mod_small. zsolve.
Qed.

Lemma after_in_frame (buf : list byte) (o n : Z) :
  zlen buf = 16 ->
  0 <= o -> 0 <= n ->
  (off_out <= o /\ o + n <= KFIFO_BUF_OFF) \/ sizeof_fifo <= o ->
  load_bytes o n (after_in buf 16 m) = load_bytes o n m.
Proof.
  intros Hbuf Ho Hn Hdis. unfold after_in.
  rewrite load_store_other;
    rewrite ?zlen_le_bytes, ?copied_in_zlen; try zsolve.
  apply copied_in_frame; try assumption; zsolve.
Qed.

Lemma after_in_in (buf : list byte) :
  zlen buf = 16 -> q_in (after_in buf 16 m) = wrap32 (q_in m + 16).
Proof.
  intros Hbuf. unfold q_in at 1. unfold after_in.
  change 4 with (zlen (le_bytes 4 (wrap32 (q_in m + 16)))) at 1.
  rewrite load_store_same
    by (rewrite ?zlen_le_bytes, ?copied_in_zlen; zsolve).
  rewrite le_Z_bytes. apply Z.mod_small.
  pose proof (wrap32_range (q_in m + 16)). zsolve.
Qed.

(** The header bytes sit where a later [kfifo_out] at the same
    position reads them. *)
Lemma after_in_blocks (buf : list byte) :
  zlen buf = 16 ->
  block_at (q_in m) 16 (after_in buf 16 m) = buf.
Proof.
  intros Hbuf.
  pose proof (q_off_range (q_in m)).
  pose proof (q_first_range (q_in m) 16 ltac:(lia)).
  unfold block_at, after_in.
  rewrite !load_store_other
    by (rewrite ?zlen_le_bytes, ?copied_in_zlen; zsolve).
  rewrite copied_in_first, copied_in_second by assumption.
  apply firstn_skipn.
Qed.

Lemma after_out_frame (o n : Z) :
  0 <= o -> 0 <= n -> o + n <= off_out \/ off_mask <= o ->
  load_bytes o n (after_out 16 m) = load_bytes o n m.
Proof.
  intros. unfold after_out.
  apply load_store_other; rewrite ?zlen_le_bytes; zsolve.
Qed.

Lemma after_out_out : q_out (after_out 16 m) = wrap32 (q_out m + 16).
Proof.
  unfold q_out at 1. unfold after_out.
  change 4 with (zlen (le_bytes 4 (wrap32 (q_out m + 16)))) at 1.
  rewrite load_store_same by (rewrite ?zlen_le_bytes; zsolve).
  rewrite le_Z_bytes. apply Z.mod_small.
  pose proof (wrap32_range (q_out m + 16)). zsolve.
Qed.

Lemma payload_written_none (pt : Z) (buffer : list byte) :
  payload_written pt buffer 0 m = m.
Proof. unfold payload_written. simpl firstn. apply store_bytes_nil. Qed.

Lemma payload_written_zlen (pt : Z) (buffer : list byte) (len : Z) :
  0 <= pt -> 0 <= len <= zlen buffer ->
  len = 0 \/ PAYLOADS_OFF + pt + len <= zlen m ->
  zlen (payload_written pt buffer len m) = zlen m.
Proof.
  intros ? ? [->|?]; [now rewrite payload_written_none|].
  unfold payload_written.
  apply store_bytes_zlen; rewrite ?zlen_firstn; zsolve.
Qed.

Lemma payload_written_frame (pt : Z) (buffer : list byte) (len o n : Z) :
  0 <= pt -> 0 <= len <= zlen buffer ->
  len = 0 \/ PAYLOADS_OFF + pt + len <= zlen m ->
  0 <= o -> 0 <= n -> o + n <= PAYLOADS_OFF + pt ->
  load_bytes o n (payload_written pt buffer len m) = load_bytes o n m.
Proof.
  intros ? ? [->|?] ? ? ?; [now rewrite payload_written_none|].
  unfold payload_written.
  apply load_store_other; rewrite ?zlen_firstn; zsolve.
Qed.

Lemma payload_written_at (pt : Z) (buffer : list byte) (len : Z) :
  0 <= pt -> 0 <= len <= zlen buffer -> PAYLOADS_OFF + pt + len <= zlen m ->
  payload_at pt len (payload_written pt buffer len m)
  = firstn (Z.to_nat len) buffer.
Proof.
  intros. unfold payload_at, payload_written.
  replace len with (zlen (firstn (Z.to_nat len) buffer)) at 1
    by (apply zlen_firstn; lia).
  apply load_store_same; rewrite ?zlen_firstn; zsolve.
Qed.

End Frames.

Section HeaderCodec.

Lemma load_app_first (a r : list byte) :
  load_bytes 0 (zlen a) (a ++ r) = a.
Proof.
  unfold load_bytes, zlen. simpl. rewrite Nat2Z.id.
  rewrite firstn_app, Nat.sub_diag, firstn_all. simpl. apply app_nil_r.
Qed.

Lemma load_app_rest (a r : list byte) (o n : Z) :
  0 <= o ->
  load_bytes (zlen a + o) n (a ++ r) = load_bytes o n r.
Proof.
  unfold load_bytes, zlen. intros.
  rewrite Z2Nat.inj_add, Nat2Z.id by lia.
  rewrite skipn_app, (skipn_all2 a) by lia. simpl.
  f_equal. f_equal. lia.
Qed.

Lemma to_ssize_le (v : Z) :
  - 2 ^ 63 <= v < 2 ^ 63 -> to_ssize (le_Z (le_bytes 8 v)) = v.
Proof.
  intros Hv. rewrite le_Z_bytes. change (8 * Z.of_nat 8) with 64.
  unfold to_ssize, wrap64. rewrite Z.mod_mod by lia.
  destruct (Z.ltb_spec (v mod 2 ^ 64) (2 ^ 63)) as [H|H].
  - destruct (Z.neg_nonneg_cases v) as [Hn|Hn].
    + rewrite <- (Z.mod_add v 1) in H by lia. rewrite Z.mod_small in H; lia.
    + apply Z.mod_small. lia.
  - destruct (Z.neg_nonneg_cases v) as [Hn|Hn].
    + rewrite <- (Z.mod_add v 1) by lia. rewrite Z.mod_small; lia.
    + rewrite Z.mod_small in H; lia.
Qed.

Lemma zlen_encode_hd (h : rbmsg_hd) : zlen (encode_hd h) = RINGBUF_MSG_SZ.
Proof.
  unfold encode_hd. rewrite !zlen_app, !zlen_le_bytes. reflexivity.
Qed.

Lemma decode_encode_hd (h : rbmsg_hd) :
  0 <= src_qid h < 2 ^ 32 -> 0 <= payload_off h < 2 ^ 32 ->
  - 2 ^ 63 <= payload_len h < 2 ^ 63 ->
  decode_hd (encode_hd h) = h.
Proof.
  intros Hs Ho Hl. destruct h as [s o pl]; cbn [src_qid payload_off payload_len] in *.
  unfold decode_hd, encode_hd; cbn [src_qid payload_off payload_len].
  f_equal.
  - change 4 with (zlen (le_bytes 4 s)) at 1.
    rewrite load_app_first, le_Z_bytes. apply Z.mod_small. lia.
  - change (load_bytes 4 4) with (load_bytes (zlen (le_bytes 4 s) + 0) 4).
    rewrite load_app_rest by lia.
    change 4 with (zlen (le_bytes 4 o)) at 1.
    rewrite load_app_first, le_Z_bytes. apply Z.mod_small. lia.
  - change (load_bytes 8 8) with (load_bytes (zlen (le_bytes 4 s) + 4) 8).
    rewrite load_app_rest by lia.
    change (load_bytes 4 8) with (load_bytes (zlen (le_bytes 4 o) + 0) 8).
    rewrite load_app_rest by lia.
    change (load_bytes 0 8) with (load_bytes 0 (zlen (le_bytes 8 pl))).
    rewrite <- (app_nil_r (le_bytes 8 pl)) at 2.
    rewrite load_app_first. now apply to_ssize_le.
Qed.

Lemma to_ssize_small (v : Z) : 0 <= v < 2 ^ 63 -> to_ssize v = v.
Proof.
  intros. unfold to_ssize, wrap64. rewrite Z.mod_small by lia.
  destruct (Z.ltb_spec v (2 ^ 63)); lia.
Qed.

Lemma MIN_small (a b : Z) : 0 <= b < 2 ^ 63 -> MIN a b = Z.min a b.
Proof.
  intros. unfold MIN, of_ssize, wrap64. rewrite Z.mod_small by lia.
  destruct (Z.ltb_spec a b); lia.
Qed.

End HeaderCodec.

Section SetDataViews.

Variables (d : ringbuf_device) (m : list byte).
Hypothesis Hmap : mapped d m.

Lemma mapped_set_data : mapped d (set_data d m).
Proof.
  pose proof (mapped_size _ _ Hmap).
  destruct Hmap as (Hb & Hf & Hp & Hsz & H32 & H64).
  unfold mapped. rewrite set_data_zlen by assumption. auto 10.
Qed.

Lemma set_data_in : q_in (set_data d m) = q_in m.
Proof.
  pose proof (mapped_size _ _ Hmap).
  unfold q_in. now rewrite set_data_frame by zsolve.
Qed.

Lemma set_data_out : q_out (set_data d m) = q_out m.
Proof.
  pose proof (mapped_size _ _ Hmap).
  unfold q_out. now rewrite set_data_frame by zsolve.
Qed.

Lemma set_data_mask : q_mask (set_data d m) = q_mask m.
Proof.
  pose proof (mapped_size _ _ Hmap).
  unfold q_mask. now rewrite set_data_frame by zsolve.
Qed.

Lemma set_data_esize : q_esize (set_data d m) = q_esize m.
Proof.
  pose proof (mapped_size _ _ Hmap).
  unfold q_esize. now rewrite set_data_frame by zsolve.
Qed.

Lemma set_data_formatted : formatted m -> formatted (set_data d m).
Proof. unfold formatted. now rewrite set_data_mask, set_data_esize. Qed.

Lemma set_data_len : q_len (set_data d m) = q_len m.
Proof. unfold q_len. now rewrite set_data_in, set_data_out. Qed.

Lemma set_data_avail : q_avail (set_data d m) = q_avail m.
Proof. unfold q_avail. now rewrite set_data_mask, set_data_len. Qed.

Lemma set_data_q_data : q_data (set_data d m) = base_addr d + KFIFO_BUF_OFF.
Proof.
  pose proof (mapped_size _ _ Hmap).
  destruct Hmap as (Hb & Hf & Hp & Hsz & H32 & H64).
  apply set_data_data; lia.
Qed.

End SetDataViews.

Section PayloadViews.

Variables (d : ringbuf_device) (m : list byte).
Variables (pt : Z) (buffer : list byte) (len : Z).
Hypothesis Hmap : mapped d m.
Hypothesis Hpt : 0 <= pt.
Hypothesis Hlen : 0 <= len <= zlen buffer.
Hypothesis Hfit : len = 0 \/ PAYLOADS_OFF + pt + len <= zlen m.

Let m' := payload_written pt buffer len m.

Lemma mapped_payload_written : mapped d m'.
Proof.
  pose proof (mapped_size _ _ Hmap).
  destruct Hmap as (Hb & Hf & Hp & Hsz & H32 & H64).
  unfold mapped, m'. rewrite payload_written_zlen by assumption. auto 10.
Qed.

Lemma payload_written_in : q_in m' = q_in m.
Proof.
  pose proof (mapped_size _ _ Hmap).
  unfold q_in, m'. now rewrite payload_written_frame by zsolve.
Qed.

Lemma payload_written_out : q_out m' = q_out m.
Proof.
  pose proof (mapped_size _ _ Hmap).
  unfold q_out, m'. now rewrite payload_written_frame by zsolve.
Qed.

Lemma payload_written_mask : q_mask m' = q_mask m.
Proof.
  pose proof (mapped_size _ _ Hmap).
  unfold q_mask, m'. now rewrite payload_written_frame by zsolve.
Qed.

Lemma payload_written_esize : q_esize m' = q_esize m.
Proof.
  pose proof (mapped_size _ _ Hmap).
  unfold q_esize, m'. now rewrite payload_written_frame by zsolve.
Qed.

Lemma payload_written_formatted : formatted m -> formatted m'.
Proof.
  unfold formatted. now rewrite payload_written_mask, payload_written_esize.
Qed.

Lemma payload_written_len : q_len m' = q_len m.
Proof. unfold q_len. now rewrite payload_written_in, payload_written_out. Qed.

Lemma payload_written_avail : q_avail m' = q_avail m.
Proof. unfold q_avail. now rewrite payload_written_mask, payload_written_len. Qed.

End PayloadViews.

(* ------------------------------------------------------------------ *)
(** * The driver's calls in closed form *)
(* ------------------------------------------------------------------ *)

Lemma memcpy_payload_ok d pt m l buffer len :
  0 < base_addr d -> 0 <= pt -> 0 <= len <= zlen buffer ->
  len = 0 \/ PAYLOADS_OFF + pt + len <= zlen m ->
  memcpy_to_shm (base_addr d + (PAYLOADS_OFF + pt)) buffer len (mk d pt m l)
  = Ok tt (mk d pt (payload_written pt buffer len m)
                   (l ++ payload_store_events pt len)).
Proof.
  intros Hb Hpt Hlen [->|Hfit].
  - unfold memcpy_to_shm. replace (zlen buffer <? 0) with false by lia.
    simpl firstn. rewrite shm_store_none by (unfold zlen; simpl; lia).
    rewrite payload_written_none. unfold payload_store_events. simpl.
    now rewrite app_nil_r.
  - apply memcpy_to_shm_ok; zsolve.
Qed.

Lemma ringbuf_ioctl_ring_ok d pt m l :
  0 < base_addr d ->
  ringbuf_ioctl IOCTL_RING 1 (mk d pt m l)
  = Ok 0 (mk d pt m (l ++ [EvWritel 1 (regs_addr d + DOORBELL_REG_OFF)])).
Proof.
  intros Hb. unfold ringbuf_ioctl.
  erewrite bind_Ok by reflexivity. cbn [dev mk].
  replace (base_addr d =? 0) with false by lia.
  reflexivity.
Qed.

Lemma ringbuf_write_ok d pt m l buffer len :
  mapped d m -> formatted m ->
  role d = Producer ->
  RINGBUF_MSG_SZ <= q_avail m ->
  0 <= pt -> 0 <= len <= zlen buffer ->
  len = 0 \/ PAYLOADS_OFF + pt + len <= zlen m ->
  ringbuf_write buffer len (mk d pt m l)
  = Ok 0 (mk d (wrap32 (pt + len)) (written d pt buffer len m)
               (l ++ write_events d pt len m)).
Proof.
  intros Hmap Hfmt Hrole Hav Hpt Hlen Hfit.
  pose proof (mapped_base _ _ Hmap) as Hb.
  pose proof (mapped_size _ _ Hmap) as Hsz.
  assert (Hf : fifo_addr d = base_addr d) by apply Hmap.
  assert (Hp : payloads_st d = base_addr d + PAYLOADS_OFF) by apply Hmap.
  pose proof (mapped_payload_written d m pt buffer len Hmap Hpt Hlen Hfit) as HmapA.
  pose proof (mapped_set_data d _ HmapA) as HmapB.
  unfold ringbuf_write.
  erewrite bind_Ok by reflexivity. cbn [dev mk].
  rewrite Hrole, Hf. cbn [Z.eqb Producer Pos.eqb negb].
  replace (base_addr d =? 0) with false by lia. cbn [orb].
  erewrite bind_Ok by (now apply kfifo_avail_ok).
  replace (q_avail m <? RINGBUF_MSG_SZ) with false by lia.
  erewrite bind_Ok by reflexivity. cbn [payload_pt mk payload_off].
  rewrite Hp, <- Z.add_assoc.
  erewrite bind_Ok by (now apply memcpy_payload_ok).
  fold (payload_written pt buffer len m).
  unfold wmb, spin_lock. erewrite bind_Ok by apply emit_ok.
  erewrite bind_Ok by apply emit_ok.
  erewrite bind_Ok
    by (apply store_ptr_ok; rewrite ?payload_written_zlen; zsolve).
  fold (set_data d (payload_written pt buffer len m)).
  unfold mb. erewrite bind_Ok by apply emit_ok.
  erewrite bind_Ok.
  2:{ apply kfifo_in_ok;
      [ exact HmapB
      | apply set_data_formatted; [assumption|];
        exact (payload_written_formatted d m pt buffer len Hmap Hpt Hlen Hfit Hfmt)
      | now apply set_data_q_data
      | apply zlen_encode_hd
      | rewrite set_data_avail by assumption;
        rewrite (payload_written_avail d) by assumption; exact Hav ]. }
  unfold spin_unlock. erewrite bind_Ok by apply emit_ok.
  cbn [Z.eqb RINGBUF_MSG_SZ sizeof_rbmsg_hd target sizeof_word sizeof_uint
       Z.mul Z.add Pos.mul Pos.add Pos.eqb negb].
  erewrite bind_Ok by (now apply ringbuf_ioctl_ring_ok).
  erewrite bind_Ok by reflexivity. cbn [payload_pt mk].
  rewrite set_data_in by assumption.
  rewrite (payload_written_in d) by assumption.
  unfold written, write_hd, write_events, guard_events, payload_store_events,
    publish_events.
  change RINGBUF_MSG_SZ with 16.
  rewrite <- !app_assoc. reflexivity.
Qed.

(** No capacity check guards the payload copy. *)
Lemma ringbuf_write_overrun d pt m l buffer len :
  mapped d m ->
  role d = Producer ->
  RINGBUF_MSG_SZ <= q_avail m ->
  0 <= pt -> 0 < len <= zlen buffer ->
  zlen m < PAYLOADS_OFF + pt + len ->
  ringbuf_write buffer len (mk d pt m l)
  = Fault (OutOfRegion (payloads_st d + pt) len).
Proof.
  intros Hmap Hrole Hav Hpt Hlen Hfit.
  pose proof (mapped_base _ _ Hmap) as Hb.
  assert (Hf : fifo_addr d = base_addr d) by apply Hmap.
  assert (Hp : payloads_st d = base_addr d + PAYLOADS_OFF) by apply Hmap.
  unfold ringbuf_write.
  erewrite bind_Ok by reflexivity. cbn [dev mk].
  rewrite Hrole, Hf. cbn [Z.eqb Producer Pos.eqb negb].
  replace (base_addr d =? 0) with false by lia. cbn [orb].
  erewrite bind_Ok by (now apply kfifo_avail_ok).
  replace (q_avail m <? RINGBUF_MSG_SZ) with false by lia.
  erewrite bind_Ok by reflexivity. cbn [payload_pt mk payload_off].
  apply bind_Fault.
  unfold memcpy_to_shm. replace (zlen buffer <? len) with false by lia.
  rewrite Hp, <- Z.add_assoc.
  rewrite shm_store_fault; rewrite ?zlen_firstn; try lia.
  reflexivity.
Qed.

(** [ringbuf_read] up to and including the dequeue. *)
Lemma ringbuf_read_dequeue d pt m l hd buffer len :
  mapped d m -> formatted m ->
  role d = Consumer ->
  RINGBUF_MSG_SZ <= q_len m ->
  zlen hd = RINGBUF_MSG_SZ ->
  ringbuf_read hd buffer len (mk d pt m l)
  = (if negb (src_qid (dequeued_hd d m) =? QEMU_PROCESS_ID)
     then ret (- EFAULT, buffer)
     else
       rmb ;;
       buffer' <- memcpy_from_shm buffer 0
                    (payloads_st d + payload_off (dequeued_hd d m))
                    (MIN len (payload_len (dequeued_hd d m))) ;;
       ret (0, buffer'))
      (mk d pt (dequeued d m) (l ++ dequeue_events m)).
Proof.
  intros Hmap Hfmt Hrole Hlen Hhd.
  pose proof (mapped_base _ _ Hmap) as Hb.
  pose proof (mapped_size _ _ Hmap) as Hsz.
  assert (Hf : fifo_addr d = base_addr d) by apply Hmap.
  pose proof (mapped_set_data d _ Hmap) as HmapB.
  unfold ringbuf_read.
  erewrite bind_Ok by reflexivity. cbn [dev mk].
  rewrite Hrole, Hf. cbn [Z.eqb Consumer negb].
  replace (base_addr d =? 0) with false by lia. cbn [orb].
  erewrite bind_Ok by (now apply kfifo_len_ok).
  replace (q_len m <? RINGBUF_MSG_SZ) with false by lia.
  erewrite bind_Ok by (apply store_ptr_ok; zsolve).
  fold (set_data d m).
  unfold mb. erewrite bind_Ok by apply emit_ok.
  erewrite bind_Ok.
  2:{ apply kfifo_out_ok;
      [ exact HmapB
      | now apply set_data_formatted
      | now apply set_data_q_data
      | exact Hhd
      | rewrite set_data_len by assumption; exact Hlen ]. }
  cbn [snd]. rewrite set_data_out by assumption.
  unfold dequeued_hd, dequeued, dequeue_events.
  rewrite <- !app_assoc. reflexivity.
Qed.

Lemma state_eta (s : kstate) : s = mk (dev s) (payload_pt s) (shm s) (log s).
Proof. now destruct s. Qed.

Section WriteGuards.

Variables (buffer : list byte) (len : Z).

Lemma write_refused_role (s : kstate) :
  role (dev s) <> Producer -> ringbuf_write buffer len s = Ok 0 s.
Proof.
  intros H. unfold ringbuf_write.
  erewrite bind_Ok by reflexivity.
  replace (role (dev s) =? Producer) with false by lia. reflexivity.
Qed.

Lemma write_refused_null (s : kstate) :
  base_addr (dev s) = 0 \/ fifo_addr (dev s) = 0 ->
  ringbuf_write buffer len s = Ok 0 s.
Proof.
  intros H. unfold ringbuf_write.
  erewrite bind_Ok by reflexivity.
  destruct (negb (role (dev s) =? Producer)); [reflexivity|].
  replace ((base_addr (dev s) =? 0) || (fifo_addr (dev s) =? 0)) with true;
    [reflexivity|].
  symmetry. apply orb_true_iff. lia.
Qed.

Lemma write_refused_full d pt m l :
  mapped d m -> role d = Producer -> q_avail m < RINGBUF_MSG_SZ ->
  ringbuf_write buffer len (mk d pt m l)
  = Ok 0 (mk d pt m (l ++ guard_events)).
Proof.
  intros Hmap Hrole Hav.
  pose proof (mapped_base _ _ Hmap) as Hb.
  assert (Hf : fifo_addr d = base_addr d) by apply Hmap.
  unfold ringbuf_write.
  erewrite bind_Ok by reflexivity. cbn [dev mk].
  rewrite Hrole, Hf. cbn [Z.eqb Producer Pos.eqb negb].
  replace (base_addr d =? 0) with false by lia. cbn [orb].
  erewrite bind_Ok by (now apply kfifo_avail_ok).
  replace (q_avail m <? RINGBUF_MSG_SZ) with true by lia.
  reflexivity.
Qed.

Lemma write_short_buffer d pt m l :
  mapped d m -> role d = Producer -> RINGBUF_MSG_SZ <= q_avail m ->
  zlen buffer < len ->
  ringbuf_write buffer len (mk d pt m l) = Fault (OutOfBuffer len).
Proof.
  intros Hmap Hrole Hav Hlen.
  pose proof (mapped_base _ _ Hmap) as Hb.
  assert (Hf : fifo_addr d = base_addr d) by apply Hmap.
  unfold ringbuf_write.
  erewrite bind_Ok by reflexivity. cbn [dev mk].
  rewrite Hrole, Hf. cbn [Z.eqb Producer Pos.eqb negb].
  replace (base_addr d =? 0) with false by lia. cbn [orb].
  erewrite bind_Ok by (now apply kfifo_avail_ok).
  replace (q_avail m <? RINGBUF_MSG_SZ) with false by lia.
  erewrite bind_Ok by reflexivity.
  apply bind_Fault. unfold memcpy_to_shm.
  replace (zlen buffer <? len) with true by lia. reflexivity.
Qed.

End WriteGuards.

(** Every way [ringbuf_write] can return on a formatted queue. *)
Lemma ringbuf_write_inv d pt m l buffer len r s' :
  mapped d m -> formatted m -> 0 <= pt -> 0 <= len ->
  ringbuf_write buffer len (mk d pt m l) = Ok r s' ->
  r = 0 /\
  ((shm s' = m /\ payload_pt s' = pt /\ dev s' = d /\
    (log s' = l \/ log s' = l ++ guard_events)) \/
   (role d = Producer /\ RINGBUF_MSG_SZ <= q_avail m /\
    len <= zlen buffer /\
    (len = 0 \/ PAYLOADS_OFF + pt + len <= zlen m) /\
    s' = mk d (wrap32 (pt + len)) (written d pt buffer len m)
            (l ++ write_events d pt len m))).
Proof.
  intros Hmap Hfmt Hpt Hlen Hrun.
  destruct (Z.eq_dec (role d) Producer) as [Hrole|Hrole].
  2:{ rewrite write_refused_role in Hrun by exact Hrole.
      inversion Hrun; subst. cbn. auto 10. }
  destruct (Z.lt_ge_cases (q_avail m) RINGBUF_MSG_SZ) as [Hav|Hav].
  { rewrite write_refused_full in Hrun by assumption.
    inversion Hrun; subst. cbn. auto 10. }
  destruct (Z.lt_ge_cases (zlen buffer) len) as [Hb|Hb].
  { rewrite write_short_buffer in Hrun by assumption. discriminate. }
  destruct (Z.eq_dec len 0) as [H0|H0].
  { rewrite ringbuf_write_ok in Hrun by (try assumption; lia).
    inversion Hrun; subst. split; [reflexivity|]. right. auto 10. }
  destruct (Z.lt_ge_cases (zlen m) (PAYLOADS_OFF + pt + len)) as [Hfit|Hfit].
  { rewrite ringbuf_write_overrun in Hrun by (try assumption; lia).
    discriminate. }
  rewrite ringbuf_write_ok in Hrun by (try assumption; lia).
  inversion Hrun; subst. split; [reflexivity|]. right. auto 10.
Qed.

Section ReadGuards.

Variables (hd buffer : list byte) (len : Z).

Lemma read_refused_role (s : kstate) :
  role (dev s) <> Consumer ->
  ringbuf_read hd buffer len s = Ok (0, buffer) s.
Proof.
  intros H. unfold ringbuf_read.
  erewrite bind_Ok by reflexivity.
  replace (role (dev s) =? Consumer) with false by lia. reflexivity.
Qed.

Lemma read_refused_null (s : kstate) :
  base_addr (dev s) = 0 \/ fifo_addr (dev s) = 0 ->
  ringbuf_read hd buffer len s = Ok (0, buffer) s.
Proof.
  intros H. unfold ringbuf_read.
  erewrite bind_Ok by reflexivity.
  destruct (negb (role (dev s) =? Consumer)); [reflexivity|].
  replace ((base_addr (dev s) =? 0) || (fifo_addr (dev s) =? 0)) with true;
    [reflexivity|].
  symmetry. apply orb_true_iff. lia.
Qed.

Lemma read_refused_empty d pt m l :
  mapped d m -> role d = Consumer -> q_len m < RINGBUF_MSG_SZ ->
  ringbuf_read hd buffer len (mk d pt m l)
  = Ok (0, buffer) (mk d pt m (l ++ [EvLoad off_in 4; EvLoad off_out 4])).
Proof.
  intros Hmap Hrole Hlen.
  pose proof (mapped_base _ _ Hmap) as Hb.
  assert (Hf : fifo_addr d = base_addr d) by apply Hmap.
  unfold ringbuf_read.
  erewrite bind_Ok by reflexivity. cbn [dev mk].
  rewrite Hrole, Hf. cbn [Z.eqb Consumer negb].
  replace (base_addr d =? 0) with false by lia. cbn [orb].
  erewrite bind_Ok by (now apply kfifo_len_ok).
  replace (q_len m <? RINGBUF_MSG_SZ) with true by lia.
  reflexivity.
Qed.

End ReadGuards.

Section Dequeued.

Variables (d : ringbuf_device) (m : list byte).
Hypothesis Hmap : mapped d m.

Lemma dequeued_zlen : zlen (dequeued d m) = zlen m.
Proof.
  pose proof (mapped_size _ _ Hmap).
  unfold dequeued. change RINGBUF_MSG_SZ with 16.
  rewrite after_out_zlen; rewrite set_data_zlen; lia.
Qed.

Lemma mapped_dequeued : mapped d (dequeued d m).
Proof.
  destruct Hmap as (Hb & Hf & Hp & Hsz & H32 & H64).
  unfold mapped. rewrite dequeued_zlen. auto 10.
Qed.

(** A dequeue changes the [out] index and the [data] pointer only. *)
Lemma dequeued_frame (o n : Z) :
  0 <= o -> 0 <= n -> o + n <= off_out \/ KFIFO_BUF_OFF <= o \/
    (off_mask <= o /\ o + n <= off_data) ->
  load_bytes o n (dequeued d m) = load_bytes o n m.
Proof.
  intros Ho Hn Hdis. pose proof (mapped_size _ _ Hmap).
  unfold dequeued. change RINGBUF_MSG_SZ with 16.
  rewrite after_out_frame by (rewrite ?set_data_zlen; zsolve).
  apply set_data_frame; zsolve.
Qed.

Lemma dequeued_in : q_in (dequeued d m) = q_in m.
Proof. unfold q_in. rewrite dequeued_frame by zsolve. reflexivity. Qed.

Lemma dequeued_out : q_out (dequeued d m) = wrap32 (q_out m + RINGBUF_MSG_SZ).
Proof.
  pose proof (mapped_size _ _ Hmap).
  unfold dequeued. change RINGBUF_MSG_SZ with 16.
  rewrite after_out_out by (rewrite set_data_zlen; lia).
  now rewrite set_data_out.
Qed.

Lemma dequeued_mask : q_mask (dequeued d m) = q_mask m.
Proof. unfold q_mask. rewrite dequeued_frame by zsolve. reflexivity. Qed.

Lemma dequeued_esize : q_esize (dequeued d m) = q_esize m.
Proof. unfold q_esize. rewrite dequeued_frame by zsolve. reflexivity. Qed.

Lemma dequeued_formatted : formatted m -> formatted (dequeued d m).
Proof. unfold formatted. now rewrite dequeued_mask, dequeued_esize. Qed.

Lemma dequeued_len :
  RINGBUF_MSG_SZ <= q_len m ->
  q_len (dequeued d m) = q_len m - RINGBUF_MSG_SZ.
Proof.
  intros Hl. unfold q_len in *. rewrite dequeued_in, dequeued_out.
  pose proof (wrap32_range (q_in m - q_out m)) as Hr.
  change RINGBUF_MSG_SZ with 16 in *. unfold wrap32 in *.
  rewrite Zminus_mod_idemp_r.
  replace (q_in m - (q_out m + 16)) with ((q_in m - q_out m) - 16) by lia.
  rewrite <- Zminus_mod_idemp_l.
  apply Z.mod_small. lia.
Qed.

Lemma dequeued_payload (off n : Z) :
  0 <= off -> 0 <= n ->
  payload_at off n (dequeued d m) = payload_at off n m.
Proof. intros. unfold payload_at. apply dequeued_frame; zsolve. Qed.

(** The header read depends on the queue's bytes only, not on the
    device record. *)
Lemma dequeued_hd_bytes :
  dequeued_hd d m = decode_hd (block_at (q_out m) RINGBUF_MSG_SZ m).
Proof.
  pose proof (mapped_size _ _ Hmap).
  pose proof (q_off_range (q_out m)).
  pose proof (q_first_range (q_out m) 16 ltac:(lia)).
  unfold dequeued_hd, out_bytes, block_at. rewrite set_data_out by assumption.
  change RINGBUF_MSG_SZ with 16.
  now rewrite !set_data_frame by zsolve.
Qed.

End Dequeued.

Lemma MIN_nonneg (a b : Z) : 0 <= a -> 0 <= MIN a b.
Proof.
  intros. unfold MIN, of_ssize, wrap64.
  pose proof (Z.mod_pos_bound b (2 ^ 64) ltac:(lia)).
  destruct (a <? b mod 2 ^ 64); lia.
Qed.

Lemma memcpy_from_shm_none dst at_ a s :
  0 <= at_ <= zlen dst -> memcpy_from_shm dst at_ a 0 s = Ok dst s.
Proof.
  intros. unfold memcpy_from_shm.
  erewrite bind_Ok by (apply shm_load_none; lia).
  replace (zlen dst <? at_ + 0) with false by lia.
  unfold ret. now rewrite store_bytes_nil.
Qed.

Section ReadTail.

Variables (d : ringbuf_device) (pt : Z) (m : list byte) (l : list event).
Variables (hd buffer : list byte) (len : Z).
Hypothesis Hmap : mapped d m.
Hypothesis Hfmt : formatted m.
Hypothesis Hrole : role d = Consumer.
Hypothesis Hq : RINGBUF_MSG_SZ <= q_len m.
Hypothesis Hhd : zlen hd = RINGBUF_MSG_SZ.

Let h := dequeued_hd d m.
Let n := MIN len (payload_len h).

Lemma dequeued_off_range : 0 <= payload_off h < 2 ^ 32.
Proof. unfold h, dequeued_hd, decode_hd; cbn [payload_off]. apply u32_range. Qed.

Lemma read_mismatch :
  src_qid h <> QEMU_PROCESS_ID ->
  ringbuf_read hd buffer len (mk d pt m l)
  = Ok (- EFAULT, buffer) (mk d pt (dequeued d m) (l ++ dequeue_events m)).
Proof.
  intros Hsrc. rewrite ringbuf_read_dequeue by assumption. fold h.
  replace (src_qid h =? QEMU_PROCESS_ID) with false by lia.
  reflexivity.
Qed.

Lemma read_copy_ok :
  src_qid h = QEMU_PROCESS_ID ->
  0 <= len -> n <= zlen buffer ->
  n = 0 \/ PAYLOADS_OFF + payload_off h + n <= zlen m ->
  ringbuf_read hd buffer len (mk d pt m l)
  = Ok (0, store_bytes 0 (payload_at (payload_off h) n m) buffer)
       (mk d pt (dequeued d m) (l ++ read_events m (payload_off h) n)).
Proof.
  intros Hsrc Hlen Hbuf Hfit.
  pose proof (mapped_base _ _ Hmap) as Hb.
  assert (Hp : payloads_st d = base_addr d + PAYLOADS_OFF) by apply Hmap.
  pose proof dequeued_off_range as Hoff.
  pose proof (MIN_nonneg len (payload_len h) Hlen) as Hn. fold n in Hn.
  rewrite ringbuf_read_dequeue by assumption. fold h. fold n.
  replace (src_qid h =? QEMU_PROCESS_ID) with true by lia. cbn [negb].
  unfold rmb. erewrite bind_Ok by apply emit_ok.
  rewrite Hp, <- Z.add_assoc.
  destruct Hfit as [H0|Hfit].
  - rewrite H0.
    erewrite bind_Ok
      by (apply memcpy_from_shm_none; pose proof (zlen_nonneg buffer); lia).
    unfold payload_at, load_bytes, read_events, payload_load_events, ret.
    simpl firstn. rewrite store_bytes_nil. now rewrite <- !app_assoc.
  - erewrite bind_Ok.
    2:{ apply memcpy_from_shm_ok; rewrite ?dequeued_zlen by assumption; zsolve. }
    fold (payload_at (payload_off h) n (dequeued d m)).
    rewrite dequeued_payload by (try assumption; lia).
    unfold read_events, payload_load_events, ret.
    now rewrite <- !app_assoc.
Qed.

(** No capacity check guards the copy-out. *)
Lemma read_overrun :
  src_qid h = QEMU_PROCESS_ID ->
  0 < n ->
  zlen m < PAYLOADS_OFF + payload_off h + n ->
  ringbuf_read hd buffer len (mk d pt m l)
  = Fault (OutOfRegion (payloads_st d + payload_off h) n).
Proof.
  intros Hsrc Hn Hfit.
  pose proof (mapped_base _ _ Hmap) as Hb.
  assert (Hp : payloads_st d = base_addr d + PAYLOADS_OFF) by apply Hmap.
  rewrite ringbuf_read_dequeue by assumption. fold h. fold n.
  replace (src_qid h =? QEMU_PROCESS_ID) with true by lia. cbn [negb].
  unfold rmb. erewrite bind_Ok by apply emit_ok.
  apply bind_Fault. unfold memcpy_from_shm. apply bind_Fault.
  rewrite Hp, <- Z.add_assoc.
  apply shm_load_fault; rewrite ?dequeued_zlen by assumption; zsolve.
Qed.

Lemma read_short_buffer :
  src_qid h = QEMU_PROCESS_ID ->
  0 <= len -> zlen buffer < n ->
  PAYLOADS_OFF + payload_off h + n <= zlen m ->
  ringbuf_read hd buffer len (mk d pt m l) = Fault (OutOfBuffer n).
Proof.
  intros Hsrc Hlen Hbuf Hfit.
  pose proof (mapped_base _ _ Hmap) as Hb.
  assert (Hp : payloads_st d = base_addr d + PAYLOADS_OFF) by apply Hmap.
  pose proof dequeued_off_range as Hoff.
  pose proof (zlen_nonneg buffer).
  rewrite ringbuf_read_dequeue by assumption. fold h. fold n.
  replace (src_qid h =? QEMU_PROCESS_ID) with true by lia. cbn [negb].
  unfold rmb. erewrite bind_Ok by apply emit_ok.
  apply bind_Fault. unfold memcpy_from_shm.
  rewrite Hp, <- Z.add_assoc.
  erewrite bind_Ok by (apply shm_load_ok; rewrite ?dequeued_zlen by assumption; zsolve).
  replace (zlen buffer <? 0 + n) with true by lia. reflexivity.
Qed.

End ReadTail.

(* ------------------------------------------------------------------ *)
(** * Locality of the operations *)
(* ------------------------------------------------------------------ *)

Create HintDb keeps.

Section KeepsLocal.

Lemma bind_inv {A B} (c : M A) (k : A -> M B) s b s' :
  bind c k s = Ok b s' ->
  exists a s1, c s = Ok a s1 /\ k a s1 = Ok b s'.
Proof.
  unfold bind. destruct (c s) as [a s1|e]; [eauto|discriminate].
Qed.

Lemma keeps_ret {A} (a : A) : keeps_local (ret a).
Proof. intros s x s' H. inversion H; subst. auto. Qed.

Lemma keeps_raise {A} (e : fault) : keeps_local (@raise A e).
Proof. intros s x s' H. discriminate. Qed.

Lemma keeps_bind {A B} (c : M A) (k : A -> M B) :
  keeps_local c -> (forall a, keeps_local (k a)) -> keeps_local (bind c k).
Proof.
  intros Hc Hk s b s' H.
  apply bind_inv in H as (a & s1 & H1 & H2).
  apply Hc in H1 as [E1 E2]. apply Hk in H2 as [E3 E4].
  split; congruence.
Qed.

Lemma keeps_get_dev : keeps_local get_dev.
Proof. intros s x s' H. inversion H; subst. auto. Qed.

Lemma keeps_get_payload_pt : keeps_local get_payload_pt.
Proof. intros s x s' H. inversion H; subst. auto. Qed.

Lemma keeps_emit (e : event) : keeps_local (emit e).
Proof. intros s x s' H. inversion H; subst. auto. Qed.

Lemma keeps_shm_load (a n : Z) : keeps_local (shm_load a n).
Proof.
  intros s x s' H. unfold shm_load in H.
  destruct (n <=? 0); [inversion H; subst; auto|].
  destruct (in_region s a n); inversion H; subst; auto.
Qed.

Lemma keeps_shm_store (a : Z) (bs : list byte) : keeps_local (shm_store a bs).
Proof.
  intros s x s' H. unfold shm_store in H.
  destruct (zlen bs <=? 0); [inversion H; subst; auto|].
  destruct (in_region s a (zlen bs)); inversion H; subst; auto.
Qed.

End KeepsLocal.

#[export] Hint Resolve keeps_ret keeps_raise keeps_get_dev keeps_get_payload_pt
  keeps_emit keeps_shm_load keeps_shm_store : keeps.

Ltac keeps_step :=
  match goal with
  | |- keeps_local (bind _ _) => apply keeps_bind; [|intros]
  | |- keeps_local (if ?b then _ else _) => destruct b
  | |- keeps_local (let '(_, _) := ?p in _) => destruct p
  | |- keeps_local (match ?p with _ => _ end) => destruct p
  | |- keeps_local _ => solve [auto with keeps]
  end.

Ltac keeps := repeat keeps_step.

Section KeepsOps.

Lemma keeps_load_u32 a : keeps_local (load_u32 a).
Proof. unfold load_u32. keeps. Qed.

Lemma keeps_load_ptr a : keeps_local (load_ptr a).
Proof. unfold load_ptr. keeps. Qed.

Lemma keeps_store_u32 a v : keeps_local (store_u32 a v).
Proof. unfold store_u32. keeps. Qed.

Lemma keeps_store_ptr a v : keeps_local (store_ptr a v).
Proof. unfold store_ptr. keeps. Qed.

Lemma keeps_memcpy_to_shm a src n : keeps_local (memcpy_to_shm a src n).
Proof. unfold memcpy_to_shm. keeps. Qed.

Lemma keeps_memcpy_from_shm dst at_ a n :
  keeps_local (memcpy_from_shm dst at_ a n).
Proof. unfold memcpy_from_shm. keeps. Qed.

#[local] Hint Resolve keeps_load_u32 keeps_load_ptr keeps_store_u32 keeps_store_ptr
  keeps_memcpy_to_shm keeps_memcpy_from_shm : keeps.

Lemma keeps_kfifo_len f : keeps_local (kfifo_len f).
Proof. unfold kfifo_len. keeps. Qed.

Lemma keeps_kfifo_copy_out f dst n o : keeps_local (kfifo_copy_out f dst n o).
Proof. unfold kfifo_copy_out, smp_wmb. keeps. Qed.

#[local] Hint Resolve keeps_kfifo_len keeps_kfifo_copy_out : keeps.

Lemma keeps_kfifo_out f dst n : keeps_local (kfifo_out f dst n).
Proof. unfold kfifo_out. keeps. Qed.

#[local] Hint Resolve keeps_kfifo_out : keeps.

Lemma keeps_ringbuf_read hd buffer len :
  keeps_local (ringbuf_read hd buffer len).
Proof. unfold ringbuf_read, mb, rmb. keeps. Qed.

End KeepsOps.

(* ------------------------------------------------------------------ *)
(** * The region after a send *)
(* ------------------------------------------------------------------ *)

Section WrittenViews.

Variables (d : ringbuf_device) (m : list byte).
Variables (pt : Z) (buffer : list byte) (len : Z).
Hypothesis Hmap : mapped d m.
Hypothesis Hpt : 0 <= pt.
Hypothesis Hlen : 0 <= len <= zlen buffer.
Hypothesis Hfit : len = 0 \/ PAYLOADS_OFF + pt + len <= zlen m.

Let mA := payload_written pt buffer len m.
Let mB := set_data d mA.
Let hdr := encode_hd (write_hd pt len).

Local Lemma mapA : mapped d mA.
Proof. now apply mapped_payload_written. Qed.

Local Lemma mapB : mapped d mB.
Proof. apply mapped_set_data, mapA. Qed.

Local Lemma hdr16 : zlen hdr = 16.
Proof. apply zlen_encode_hd. Qed.

Lemma written_zlen : zlen (written d pt buffer len m) = zlen m.
Proof.
  pose proof (mapped_size _ _ Hmap). pose proof (mapped_size _ _ mapB).
  unfold written. change RINGBUF_MSG_SZ with 16. fold mA mB hdr.
  rewrite after_in_zlen by (try apply hdr16; lia).
  unfold mB. rewrite set_data_zlen by (apply (mapped_size _ _ mapA)).
  now apply payload_written_zlen.
Qed.

Lemma mapped_written : mapped d (written d pt buffer len m).
Proof.
  destruct Hmap as (Hb & Hf & Hp & Hsz & H32 & H64).
  unfold mapped. rewrite written_zlen. auto 10.
Qed.

Lemma written_in :
  q_in (written d pt buffer len m) = wrap32 (q_in m + RINGBUF_MSG_SZ).
Proof.
  unfold written. change RINGBUF_MSG_SZ with 16. fold mA mB hdr.
  rewrite after_in_in by (try apply hdr16; apply (mapped_size _ _ mapB)).
  unfold mB. rewrite (set_data_in d) by apply mapA.
  unfold mA. now rewrite (payload_written_in d).
Qed.

(** The fields of the queue other than [in]. *)
Lemma written_frame_fields (o n : Z) :
  off_out <= o -> 0 <= n -> o + n <= off_data ->
  load_bytes o n (written d pt buffer len m) = load_bytes o n m.
Proof.
  intros Ho Hn Hon.
  pose proof (mapped_size _ _ Hmap). pose proof (mapped_size _ _ mapA).
  pose proof (mapped_size _ _ mapB).
  unfold written. change RINGBUF_MSG_SZ with 16. fold mA mB hdr.
  rewrite after_in_frame by (try apply hdr16; zsolve).
  unfold mB. rewrite set_data_frame by zsolve.
  unfold mA. apply payload_written_frame; zsolve.
Qed.

Lemma written_out : q_out (written d pt buffer len m) = q_out m.
Proof. unfold q_out. now rewrite written_frame_fields by zsolve. Qed.

Lemma written_mask : q_mask (written d pt buffer len m) = q_mask m.
Proof. unfold q_mask. now rewrite written_frame_fields by zsolve. Qed.

Lemma written_esize : q_esize (written d pt buffer len m) = q_esize m.
Proof. unfold q_esize. now rewrite written_frame_fields by zsolve. Qed.

Lemma written_formatted :
  formatted m -> formatted (written d pt buffer len m).
Proof. unfold formatted. now rewrite written_mask, written_esize. Qed.

Lemma written_len :
  q_len m + RINGBUF_MSG_SZ < 2 ^ 32 ->
  q_len (written d pt buffer len m) = q_len m + RINGBUF_MSG_SZ.
Proof.
  intros Hl. unfold q_len in *. rewrite written_in, written_out.
  pose proof (wrap32_range (q_in m - q_out m)) as Hr.
  change RINGBUF_MSG_SZ with 16 in *. unfold wrap32 in *.
  rewrite Zminus_mod_idemp_l.
  replace (q_in m + 16 - q_out m) with ((q_in m - q_out m) + 16) by lia.
  rewrite <- Zplus_mod_idemp_l.
  apply Z.mod_small. lia.
Qed.

(** The header lies at the position the queue had before the send. *)
Lemma written_header :
  block_at (q_in m) RINGBUF_MSG_SZ (written d pt buffer len m) = hdr.
Proof.
  unfold written. change RINGBUF_MSG_SZ with 16. fold mA mB hdr.
  replace (q_in m) with (q_in mB).
  - apply after_in_blocks; [apply (mapped_size _ _ mapB)|apply hdr16].
  - unfold mB. rewrite (set_data_in d) by apply mapA.
    unfold mA. now rewrite (payload_written_in d).
Qed.

(** Payload bytes behind the queue block survive the enqueue. *)
Lemma written_payload_frame (o n : Z) :
  0 <= o -> 0 <= n ->
  payload_at o n (written d pt buffer len m) = payload_at o n mA.
Proof.
  intros Ho Hn.
  pose proof (mapped_size _ _ mapA). pose proof (mapped_size _ _ mapB).
  unfold payload_at, written. change RINGBUF_MSG_SZ with 16. fold mA mB hdr.
  rewrite after_in_frame by (try apply hdr16; zsolve).
  unfold mB. apply set_data_frame; zsolve.
Qed.

Lemma written_payload :
  PAYLOADS_OFF + pt + len <= zlen m ->
  payload_at pt len (written d pt buffer len m)
  = firstn (Z.to_nat len) buffer.
Proof.
  intros. rewrite written_payload_frame by lia.
  unfold mA.
  apply payload_written_at; try assumption; apply (mapped_size _ _ Hmap).
Qed.

(** Payload ranges that do not meet the new one are untouched. *)
Lemma written_payload_other (o n : Z) :
  0 <= o -> 0 <= n -> o + n <= pt \/ pt + len <= o ->
  payload_at o n (written d pt buffer len m) = payload_at o n m.
Proof.
  intros Ho Hn Hdis. rewrite written_payload_frame by lia.
  unfold mA. destruct Hfit as [->|Hf].
  - now rewrite payload_written_none.
  - unfold payload_at, payload_written.
    apply load_store_other; rewrite ?zlen_firstn; zsolve.
Qed.

End WrittenViews.

(* ------------------------------------------------------------------ *)
(** * Every way the calls can return *)
(* ------------------------------------------------------------------ *)

Lemma readonly_bind {A B} (c : M A) (k : A -> M B) :
  readonly c -> (forall a, readonly (k a)) -> readonly (bind c k).
Proof.
  intros Hc Hk s b s' H.
  apply bind_inv in H as (a & s1 & H1 & H2).
  apply Hc in H1. apply Hk in H2. congruence.
Qed.

Lemma readonly_shm_load a n : readonly (shm_load a n).
Proof.
  intros s x s' H. unfold shm_load in H.
  destruct (n <=? 0); [now inversion H|].
  destruct (in_region s a n); now inversion H.
Qed.

Lemma readonly_memcpy_from dst at_ a n :
  readonly (memcpy_from_shm dst at_ a n).
Proof.
  unfold memcpy_from_shm. apply readonly_bind; [apply readonly_shm_load|].
  intros bs s x s' H. destruct (zlen dst <? at_ + n); now inversion H.
Qed.

(** Every way [ringbuf_read] can return on a formatted queue. *)
Lemma ringbuf_read_inv d pt m l hd buffer len r b s' :
  mapped d m -> formatted m -> zlen hd = RINGBUF_MSG_SZ ->
  ringbuf_read hd buffer len (mk d pt m l) = Ok (r, b) s' ->
  (r = 0 /\ b = buffer /\ shm s' = m) \/
  (role d = Consumer /\ RINGBUF_MSG_SZ <= q_len m /\ shm s' = dequeued d m /\
   ((r = - EFAULT /\ b = buffer /\ src_qid (dequeued_hd d m) <> QEMU_PROCESS_ID)
    \/ (r = 0 /\ src_qid (dequeued_hd d m) = QEMU_PROCESS_ID))).
Proof.
  intros Hmap Hfmt Hhd Hrun.
  destruct (Z.eq_dec (role d) Consumer) as [Hrole|Hrole].
  2:{ rewrite read_refused_role in Hrun by exact Hrole.
      inversion Hrun; subst. cbn. auto. }
  destruct (Z.lt_ge_cases (q_len m) RINGBUF_MSG_SZ) as [Hq|Hq].
  { rewrite read_refused_empty in Hrun by assumption.
    inversion Hrun; subst. cbn. auto. }
  right. split; [assumption|]. split; [assumption|].
  destruct (Z.eq_dec (src_qid (dequeued_hd d m)) QEMU_PROCESS_ID) as [Hs|Hs].
  - rewrite ringbuf_read_dequeue in Hrun by assumption.
    replace (src_qid (dequeued_hd d m) =? QEMU_PROCESS_ID) with true in Hrun
      by lia.
    cbn [negb] in Hrun. unfold rmb in Hrun.
    erewrite bind_Ok in Hrun by apply emit_ok.
    apply bind_inv in Hrun as (b' & s1 & H1 & H2).
    apply readonly_memcpy_from in H1. inversion H2; subst.
    split; [exact H1|]. right. auto.
  - rewrite read_mismatch in Hrun by assumption.
    inversion Hrun; subst. cbn. auto 10.
Qed.

Lemma returns_ret {A} (P : A -> Prop) (a : A) : P a -> returns P (ret a).
Proof. intros H s x s' E. now inversion E; subst. Qed.

Lemma returns_bind {A B} (P : B -> Prop) (c : M A) (k : A -> M B) :
  (forall a, returns P (k a)) -> returns P (bind c k).
Proof.
  intros Hk s b s' H. apply bind_inv in H as (a & s1 & _ & H2).
  now apply Hk in H2.
Qed.

Ltac returns_step :=
  match goal with
  | |- returns _ (bind _ _) => apply returns_bind; intros
  | |- returns _ (if ?b then _ else _) => destruct b
  | |- returns _ (ret _) => apply returns_ret
  end.

Lemma ringbuf_read_returns hd buffer len :
  returns (fun rb => fst rb = 0 \/ (fst rb = - EFAULT /\ snd rb = buffer))
    (ringbuf_read hd buffer len).
Proof. unfold ringbuf_read. repeat returns_step; cbn; auto. Qed.

Lemma ringbuf_write_returns buffer len :
  returns (fun r => r = 0 \/ r = - EFAULT) (ringbuf_write buffer len).
Proof. unfold ringbuf_write. repeat returns_step; cbn; auto. Qed.

(* ------------------------------------------------------------------ *)
(** * Format, release and the probe *)
(* ------------------------------------------------------------------ *)

(** Format time and release both end with [payload_pt = 0]. *)
Lemma fifo_init_cursor fifo_indevice lock s s' :
  ringbuf_fifo_init fifo_indevice lock s = Ok tt s' -> payload_pt s' = 0.
Proof.
  unfold ringbuf_fifo_init. intros H.
  apply bind_inv in H as (d & s1 & _ & H).
  apply bind_inv in H as (sz & s2 & _ & H).
  apply bind_inv in H as (u & s3 & _ & H).
  now inversion H.
Qed.

Lemma ringbuf_release_ok d pt m l :
  ringbuf_release (mk d pt m l)
  = Ok 0 (mk d (if fifo_addr d =? 0 then pt else 0) m l).
Proof.
  unfold ringbuf_release. erewrite bind_Ok by reflexivity. cbn [dev mk].
  destruct (fifo_addr d =? 0); reflexivity.
Qed.

Lemma mappedb_ok d m : mappedb d m = true -> mapped d m.
Proof.
  unfold mappedb, mapped. rewrite !andb_true_iff.
  intros (((((H1 & H2) & H3) & H4) & H5) & H6). repeat split; lia.
Qed.

(** A successful probe leaves the device record as [mapped] asks. *)
Lemma probed_mapped rev regs base bar2_len ivpos ROLE m :
  0 < base -> zlen m = wrap32 bar2_len ->
  PAYLOADS_OFF <= zlen m -> base + zlen m < 2 ^ 64 ->
  mapped (probed rev regs base bar2_len ivpos ROLE) m /\
  bar2_size (probed rev regs base bar2_len ivpos ROLE) = zlen m /\
  write_lock (probed rev regs base bar2_len ivpos ROLE)
  = base + PAYLOADS_OFF - 16.
Proof.
  intros Hb Hz Hsz H64. pose proof (wrap32_range bar2_len).
  unfold mapped, probed; cbn [base_addr fifo_addr payloads_st bar2_size write_lock].
  repeat split; zsolve.
Qed.

Lemma formattedb_ok m : formattedb m = true -> formatted m.
Proof.
  unfold formattedb, formatted. rewrite andb_true_iff. intros [H1 H2].
  split; lia.
Qed.

(** The region after [ringbuf_fifo_init] has formatted it. *)
Lemma fifo_init_formats d pt m l fifo_indevice lock :
  mapped d m ->
  write_lock d = base_addr d + PAYLOADS_OFF - 16 ->
  zlen fifo_indevice = sizeof_fifo -> zlen lock <= 16 ->
  wrap32 (q_mask m + 1) <> RINGBUF_SZ ->
  exists s',
    ringbuf_fifo_init fifo_indevice lock (mk d pt m l) = Ok tt s' /\
    fresh (shm s') /\ zlen (shm s') = zlen m /\
    payload_pt s' = 0 /\ dev s' = d.
Proof.
  intros Hmap Hlock Hfi Hl Hsz.
  pose proof (mapped_base _ _ Hmap) as Hb.
  pose proof (mapped_size _ _ Hmap) as Hm.
  assert (Hf : fifo_addr d = base_addr d) by apply Hmap.
  pose proof (zlen_nonneg lock) as Hl0.
  change sizeof_fifo with 536 in Hfi.
  unfold ringbuf_fifo_init.
  erewrite bind_Ok by reflexivity. cbn [dev mk].
  rewrite Hf, Hlock.
  erewrite bind_Ok by (now apply kfifo_size_ok).
  replace (wrap32 (q_mask m + 1) =? RINGBUF_SZ) with false by lia.
  cbn [negb]. rewrite !bind_assoc.
  replace (memcpy_to_shm (base_addr d) fifo_indevice sizeof_fifo)
    with (memcpy_to_shm (base_addr d + 0) fifo_indevice sizeof_fifo)
    by (now rewrite Z.add_0_r).
  erewrite bind_Ok by (apply memcpy_to_shm_ok; zsolve).
  replace (firstn (Z.to_nat sizeof_fifo) fifo_indevice) with fifo_indevice.
  2:{ symmetry. apply firstn_all2. unfold zlen in Hfi. zsolve. }
  set (m1 := store_bytes 0 fifo_indevice m).
  assert (H1 : zlen m1 = zlen m) by (apply store_bytes_zlen; lia).
  unfold INIT_KFIFO. rewrite !bind_assoc.
  rewrite ?bind_assoc; erewrite bind_Ok by (apply store_u32_ok; zsolve).
  set (m2 := store_bytes off_in _ m1).
  assert (H2 : zlen m2 = zlen m)
    by (unfold m2; rewrite store_bytes_zlen; rewrite ?zlen_le_bytes; zsolve).
  rewrite ?bind_assoc; erewrite bind_Ok by (apply store_u32_ok; zsolve).
  set (m3 := store_bytes off_out _ m2).
  assert (H3 : zlen m3 = zlen m)
    by (unfold m3; rewrite store_bytes_zlen; rewrite ?zlen_le_bytes; zsolve).
  rewrite ?bind_assoc; erewrite bind_Ok by (apply store_u32_ok; zsolve).
  set (m4 := store_bytes off_mask _ m3).
  assert (H4 : zlen m4 = zlen m)
    by (unfold m4; rewrite store_bytes_zlen; rewrite ?zlen_le_bytes; zsolve).
  rewrite ?bind_assoc; erewrite bind_Ok by (apply store_u32_ok; zsolve).
  set (m5 := store_bytes off_esize _ m4).
  assert (H5 : zlen m5 = zlen m)
    by (unfold m5; rewrite store_bytes_zlen; rewrite ?zlen_le_bytes; zsolve).
  rewrite ?bind_assoc; erewrite bind_Ok by (apply store_ptr_ok; zsolve).
  set (m6 := store_bytes off_data _ m5).
  assert (H6 : zlen m6 = zlen m)
    by (unfold m6; rewrite store_bytes_zlen; rewrite ?zlen_le_bytes; zsolve).
  replace (base_addr d + PAYLOADS_OFF - 16) with (base_addr d + 1032) by zsolve.
  rewrite ?bind_assoc; erewrite bind_Ok by (apply memcpy_to_shm_ok; zsolve).
  replace (firstn (Z.to_nat (zlen lock)) lock) with lock
    by (unfold zlen; now rewrite Nat2Z.id, firstn_all).
  set (m6' := store_bytes 1032 lock m6).
  assert (H6' : zlen m6' = zlen m)
    by (unfold m6'; rewrite store_bytes_zlen; zsolve).
  rewrite ?bind_assoc;
    erewrite bind_Ok by (apply spin_lock_init_ok; zsolve).
  set (m7 := store_bytes 1032 _ m6').
  pose proof (zlen_unlocked (zlen lock) Hl0) as Hu.
  assert (H7 : zlen m7 = zlen m)
    by (unfold m7; rewrite store_bytes_zlen; rewrite ?Hu; zsolve).
  eexists. split; [reflexivity|]. cbn [shm payload_pt dev mk].
  assert (F7 : forall o n, 0 <= o -> 0 <= n -> o + n <= 1032 ->
            load_bytes o n m7 = load_bytes o n m6).
  { intros. unfold m7. rewrite load_store_other by (rewrite ?Hu; zsolve).
    unfold m6'. apply load_store_other; zsolve. }
  assert (F : forall o n bs mm, 0 <= o -> 0 <= n -> zlen mm = zlen m ->
            zlen bs <= 8 -> forall o', 0 <= o' -> o' + zlen bs <= 24 ->
            o + n <= o' \/ o' + zlen bs <= o ->
            load_bytes o n (store_bytes o' bs mm) = load_bytes o n mm).
  { intros. apply load_store_other; lia. }
  assert (S : forall o v mm, 0 <= o -> o + 4 <= 24 -> zlen mm = zlen m ->
            le_Z (load_bytes o 4 (store_bytes o (le_bytes 4 v) mm))
            = v mod 2 ^ 32).
  { intros. change 4 with (zlen (le_bytes 4 v)) at 1.
    rewrite load_store_same by (rewrite ?zlen_le_bytes; lia).
    now rewrite le_Z_bytes. }
  assert (Ein : q_in m7 = 0).
  { unfold q_in. rewrite F7 by zsolve.
    unfold m6. rewrite F by (rewrite ?zlen_le_bytes; zsolve).
    unfold m5. rewrite F by (rewrite ?zlen_le_bytes; zsolve).
    unfold m4. rewrite F by (rewrite ?zlen_le_bytes; zsolve).
    unfold m3. rewrite F by (rewrite ?zlen_le_bytes; zsolve).
    unfold m2. rewrite S by zsolve. reflexivity. }
  assert (Eout : q_out m7 = 0).
  { unfold q_out. rewrite F7 by zsolve.
    unfold m6. rewrite F by (rewrite ?zlen_le_bytes; zsolve).
    unfold m5. rewrite F by (rewrite ?zlen_le_bytes; zsolve).
    unfold m4. rewrite F by (rewrite ?zlen_le_bytes; zsolve).
    unfold m3. rewrite S by zsolve. reflexivity. }
  assert (Emask : q_mask m7 = RINGBUF_SZ - 1).
  { unfold q_mask. rewrite F7 by zsolve.
    unfold m6. rewrite F by (rewrite ?zlen_le_bytes; zsolve).
    unfold m5. rewrite F by (rewrite ?zlen_le_bytes; zsolve).
    unfold m4. rewrite S by zsolve. reflexivity. }
  assert (Ees : q_esize m7 = 1).
  { unfold q_esize. rewrite F7 by zsolve.
    unfold m6. rewrite F by (rewrite ?zlen_le_bytes; zsolve).
    unfold m5. rewrite S by zsolve. reflexivity. }
  unfold fresh, formatted. auto 10.
Qed.

(** The region of the scenario: probed by both guests, formatted by the
    producer's [ringbuf_fifo_init]. *)
Lemma scenario_fresh :
  fresh region0 /\ mapped devP region0 /\ mapped devC region0.
Proof.
  assert (HP : mapped devP raw_region).
  { apply probed_mapped; vm_compute; try reflexivity; discriminate. }
  destruct (fifo_init_formats devP 0 raw_region [] stack_fifo stack_lock HP)
    as (s' & Hrun & Hfresh & Hz & _ & _).
  - reflexivity.
  - reflexivity.
  - vm_compute. discriminate.
  - vm_compute. discriminate.
  - assert (E : region0 = shm s').
    { unfold region0, sP0, state_after. now rewrite Hrun. }
    rewrite E. split; [exact Hfresh|].
    split; apply probed_mapped; rewrite ?Hz; vm_compute;
      try reflexivity; discriminate.
Qed.

(* ------------------------------------------------------------------ *)
(** * The queue invariant *)
(* ------------------------------------------------------------------ *)

Lemma mapped_same_size d m m' :
  mapped d m -> zlen m' = zlen m -> mapped d m'.
Proof. unfold mapped. intros H E. rewrite E. exact H. Qed.

Lemma formatted_avail m :
  formatted m -> q_len m <= RINGBUF_SZ -> q_avail m = RINGBUF_SZ - q_len m.
Proof.
  intros [Hm _] Hl. unfold q_avail. rewrite Hm.
  pose proof (wrap32_range (q_in m - q_out m)) as Hr. fold (q_len m) in Hr.
  change (wrap32 (RINGBUF_SZ - 1 + 1)) with RINGBUF_SZ.
  apply wrap32_small. change RINGBUF_SZ with 512 in *. lia.
Qed.

Lemma fresh_inv m : fresh m -> queue_inv m.
Proof.
  intros (Hf & Hi & Ho). split; [exact Hf|].
  exists 0. split; [change (RINGBUF_SZ / RINGBUF_MSG_SZ) with 32; lia|].
  unfold q_len. now rewrite Hi, Ho.
Qed.

Lemma reachable_inv dP dC m :
  reachable dP dC m -> mapped dP m /\ mapped dC m /\ queue_inv m.
Proof.
  induction 1 as [m Hfr HP HC
                 | m pt l buffer len r s' Hreach IH Hpt Hlen Hrun
                 | m pt l hd buffer len r s' Hreach IH Hhd Hrun].
  - auto using fresh_inv.
  - destruct IH as (HP & HC & Hfmt & k & Hk & Hq).
    apply ringbuf_write_inv in Hrun as [_ [(-> & _)|(Hrole & Hav & Hb & Hfit & ->)]];
      try assumption.
    + do 3 (split; [assumption|]). now exists k.
    + cbn [shm mk].
      assert (Hle : q_len m <= RINGBUF_SZ)
        by (change (RINGBUF_SZ / RINGBUF_MSG_SZ) with 32 in Hk; zsolve).
      rewrite formatted_avail in Hav by assumption.
      assert (Hb' : 0 <= len <= zlen buffer) by lia.
      pose proof (written_zlen dP m pt buffer len HP Hpt Hb' Hfit) as Hz.
      split; [now apply mapped_written|].
      split; [now apply (mapped_same_size dC m)|].
      split; [now apply (written_formatted dP)|].
      exists (k + 1).
      rewrite (written_len dP) by (try assumption; zsolve).
      change (RINGBUF_SZ / RINGBUF_MSG_SZ) with 32 in *. zsolve.
  - destruct IH as (HP & HC & Hfmt & k & Hk & Hq). destruct r as [r b].
    apply ringbuf_read_inv in Hrun as [(_ & _ & ->)|(Hrole & Hl & -> & _)];
      try assumption.
    + do 3 (split; [assumption|]). now exists k.
    + pose proof (dequeued_zlen dC m HC) as Hz.
      split; [now apply (mapped_same_size dP m)|].
      split; [now apply mapped_dequeued|].
      split; [now apply dequeued_formatted|].
      exists (k - 1). rewrite dequeued_len by assumption.
      change (RINGBUF_SZ / RINGBUF_MSG_SZ) with 32 in *. zsolve.
Qed.
(* ------------------------------------------------------------------ *)
(** * The header's round trip *)
(* ------------------------------------------------------------------ *)

Lemma to_ssize_range (v : Z) : - 2 ^ 63 <= to_ssize v < 2 ^ 63.
Proof.
  unfold to_ssize, wrap64.
  pose proof (Z.mod_pos_bound v (2 ^ 64) ltac:(lia)).
  destruct (Z.ltb_spec (v mod 2 ^ 64) (2 ^ 63)); lia.
Qed.

Lemma idle_in_out m : q_len m = 0 -> q_out m = q_in m.
Proof.
  unfold q_len, wrap32. intros H.
  pose proof (u32_range off_in m) as Hi. pose proof (u32_range off_out m) as Ho.
  fold (q_in m) in Hi. fold (q_out m) in Ho.
  destruct (Z_le_gt_dec (q_out m) (q_in m)).
  - rewrite Z.mod_small in H by lia. lia.
  - rewrite <- (Z.mod_add _ 1) in H by lia. rewrite Z.mod_small in H; lia.
Qed.

Lemma load_prefix (o n k : Z) (m : list byte) :
  0 <= n <= k ->
  load_bytes o n m = firstn (Z.to_nat n) (load_bytes o k m).
Proof.
  intros. unfold load_bytes. rewrite firstn_firstn. f_equal. lia.
Qed.

Lemma store_at_start (a dst : list byte) :
  store_bytes 0 a dst = a ++ skipn (length a) dst.
Proof. reflexivity. Qed.

(** The header a consumer finds after a send into an idle queue is the
    one the producer built. *)
Lemma roundtrip_header dP dC m pt buffer len :
  mapped dP m -> mapped dC m -> q_len m = 0 ->
  0 <= pt < 2 ^ 32 -> 0 <= len <= zlen buffer ->
  len = 0 \/ PAYLOADS_OFF + pt + len <= zlen m ->
  dequeued_hd dC (written dP pt buffer len m) = write_hd pt len.
Proof.
  intros HP HC Hidle Hpt Hlen Hfit.
  assert (Hpt0 : 0 <= pt) by lia.
  pose proof (written_zlen dP m pt buffer len HP Hpt0 Hlen Hfit) as Hz.
  rewrite dequeued_hd_bytes by (now apply (mapped_same_size dC m)).
  rewrite (written_out dP) by assumption.
  rewrite idle_in_out by assumption.
  rewrite (written_header dP) by assumption.
  apply decode_encode_hd; cbn [write_hd src_qid payload_off payload_len].
  - unfold QEMU_PROCESS_ID. lia.
  - exact Hpt.
  - apply to_ssize_range.
Qed.

(* ------------------------------------------------------------------ *)
(** * Order of events *)
(* ------------------------------------------------------------------ *)

Section EventOrder.

Lemma before_wmb_no_queue_store (pt len : Z) :
  0 <= pt ->
  forallb (fun e => negb (is_queue_store e))
    (guard_events ++ payload_store_events pt len) = true.
Proof.
  intros Hpt. rewrite forallb_app. unfold payload_store_events.
  assert (E : (PAYLOADS_OFF + pt <? sizeof_fifo) = false) by zsolve.
  destruct (len <=? 0); cbn [forallb is_queue_store]; rewrite ?E; reflexivity.
Qed.

Lemma after_wmb_no_payload_store (d : ringbuf_device) (m : list byte) :
  forallb (fun e => negb (is_payload_store e)) (publish_events d m) = true.
Proof.
  pose proof (q_off_range (q_in m)).
  unfold publish_events, in_events, copy_in_events, tail_store.
  rewrite !forallb_app.
  assert (E : (PAYLOADS_OFF <=? KFIFO_BUF_OFF + q_off (q_in m)) = false)
    by zsolve.
  destruct (_ <=? 0); cbn [forallb is_payload_store]; rewrite ?E; reflexivity.
Qed.

Lemma publish_stores_header (d : ringbuf_device) (m : list byte) :
  In (EvStore (KFIFO_BUF_OFF + q_off (q_in m))
        (q_first (q_in m) RINGBUF_MSG_SZ)) (publish_events d m) /\
  In (EvStore off_in 4) (publish_events d m).
Proof.
  unfold publish_events, in_events, copy_in_events.
  split; rewrite !in_app_iff; cbn [In]; auto 25.
Qed.

Lemma dequeue_loads_header (m : list byte) :
  In (EvLoad (KFIFO_BUF_OFF + q_off (q_out m))
        (q_first (q_out m) RINGBUF_MSG_SZ)) (dequeue_events m) /\
  In (EvStore off_out 4) (dequeue_events m).
Proof.
  unfold dequeue_events, out_events, copy_out_events.
  split; rewrite !in_app_iff; cbn [In]; auto 25.
Qed.

Lemma dequeue_events_no_payload_load m :
  forallb (fun e => negb (is_payload_load e)) (dequeue_events m) = true.
Proof.
  pose proof (q_off_range (q_out m)).
  unfold dequeue_events, out_events, copy_out_events, tail_load.
  rewrite !forallb_app.
  assert (E : (PAYLOADS_OFF <=? KFIFO_BUF_OFF + q_off (q_out m)) = false)
    by zsolve.
  destruct (_ <=? 0); cbn [forallb is_payload_load]; rewrite ?E; reflexivity.
Qed.

End EventOrder.

Lemma outstanding_exact m k :
  q_len m = RINGBUF_MSG_SZ * k -> headers_outstanding m = k.
Proof.
  intros H. unfold headers_outstanding. rewrite H.
  change RINGBUF_MSG_SZ with 16. rewrite Z.mul_comm. apply Z.div_mul. lia.
Qed.

(* ------------------------------------------------------------------ *)
(** * The steps of the calls *)
(* ------------------------------------------------------------------ *)

Lemma keeps_dev {A} (c : M A) s a s' :
  keeps_local c -> c s = Ok a s' -> dev s' = dev s.
Proof. intros K E. now destruct (K s a s' E). Qed.

Lemma keeps_kfifo_avail f : keeps_local (kfifo_avail f).
Proof.
  unfold kfifo_avail, kfifo_size.
  repeat (keeps_step; auto using keeps_load_u32, keeps_kfifo_len with keeps).
Qed.

Lemma bind_get_dev {B} (k : ringbuf_device -> M B) s :
  bind get_dev k s = k (dev s) s.
Proof. reflexivity. Qed.

Lemma bind_get_payload_pt {B} (k : Z -> M B) s :
  bind get_payload_pt k s = k (payload_pt s) s.
Proof. reflexivity. Qed.

Lemma bind_ret {A B} (a : A) (k : A -> M B) s : bind (ret a) k s = k a s.
Proof. reflexivity. Qed.

Lemma bind_ext {A B} (c : M A) (k1 k2 : A -> M B) s :
  (forall a s', c s = Ok a s' -> k1 a s' = k2 a s') ->
  bind c k1 s = bind c k2 s.
Proof. unfold bind. destruct (c s); auto. Qed.

(** The steps, run one after the other, are the calls. *)
Lemma write_in_steps_eq buffer len s :
  write_in_steps buffer len s = ringbuf_write buffer len s.
Proof.
  unfold write_in_steps, write_payload, ringbuf_write.
  rewrite bind_assoc, !bind_get_dev.
  destruct (negb (role (dev s) =? Producer)); [reflexivity|].
  destruct ((base_addr (dev s) =? 0) || (fifo_addr (dev s) =? 0));
    [reflexivity|].
  rewrite bind_assoc. apply bind_ext. intros avail s1 E1.
  pose proof (keeps_dev _ _ _ _ (keeps_kfifo_avail _) E1) as D1.
  destruct (avail <? RINGBUF_MSG_SZ); [reflexivity|].
  rewrite bind_assoc, !bind_get_payload_pt.
  rewrite bind_assoc. apply bind_ext. intros [] s2 E2.
  pose proof (keeps_dev _ _ _ _ (keeps_memcpy_to_shm _ _ _) E2) as D2.
  rewrite bind_ret. unfold write_point, write_enqueue.
  rewrite bind_assoc, bind_get_dev, D2, D1.
  rewrite bind_assoc. apply bind_ext. intros [] s3 E3.
  pose proof (keeps_dev _ _ _ _ (keeps_emit _) E3) as D3.
  rewrite bind_assoc. apply bind_ext. intros [] s4 E4.
  pose proof (keeps_dev _ _ _ _ (keeps_emit _) E4) as D4.
  rewrite bind_assoc. apply bind_ext. intros [] s5 E5.
  pose proof (keeps_dev _ _ _ _ (keeps_store_ptr _ _) E5) as D5.
  apply bind_ext. intros [] s6 E6.
  pose proof (keeps_dev _ _ _ _ (keeps_emit _) E6) as D6.
  rewrite bind_get_dev, D6, D5, D4, D3, D2, D1. reflexivity.
Qed.

Lemma read_in_steps_eq hd buffer len s :
  read_in_steps hd buffer len s = ringbuf_read hd buffer len s.
Proof.
  unfold read_in_steps, read_point, ringbuf_read.
  rewrite bind_assoc, !bind_get_dev.
  destruct (negb (role (dev s) =? Consumer)); [reflexivity|].
  destruct ((base_addr (dev s) =? 0) || (fifo_addr (dev s) =? 0));
    [reflexivity|].
  rewrite bind_assoc. apply bind_ext. intros l s1 E1.
  pose proof (keeps_dev _ _ _ _ (keeps_kfifo_len _) E1) as D1.
  destruct (l <? RINGBUF_MSG_SZ); [reflexivity|].
  rewrite bind_assoc. apply bind_ext. intros [] s2 E2.
  pose proof (keeps_dev _ _ _ _ (keeps_store_ptr _ _) E2) as D2.
  rewrite bind_assoc. apply bind_ext. intros [] s3 E3.
  pose proof (keeps_dev _ _ _ _ (keeps_emit _) E3) as D3.
  rewrite bind_ret. unfold read_dequeue.
  rewrite bind_get_dev, D3, D2, D1. reflexivity.
Qed.

(** Each step in closed form. *)
Lemma write_payload_ok d pt m l buffer len :
  mapped d m -> role d = Producer ->
  RINGBUF_MSG_SZ <= q_avail m ->
  0 <= pt -> 0 <= len <= zlen buffer ->
  len = 0 \/ PAYLOADS_OFF + pt + len <= zlen m ->
  write_payload buffer len (mk d pt m l)
  = Ok (Some (write_hd pt len))
       (mk d pt (payload_written pt buffer len m)
                (l ++ guard_events ++ payload_store_events pt len)).
Proof.
  intros Hmap Hrole Hav Hpt Hlen Hfit.
  pose proof (mapped_base _ _ Hmap) as Hb.
  assert (Hf : fifo_addr d = base_addr d) by apply Hmap.
  assert (Hp : payloads_st d = base_addr d + PAYLOADS_OFF) by apply Hmap.
  unfold write_payload.
  rewrite bind_get_dev. cbn [dev mk].
  rewrite Hrole, Hf. cbn [Z.eqb Producer Pos.eqb negb].
  replace (base_addr d =? 0) with false by lia. cbn [orb].
  erewrite bind_Ok by (now apply kfifo_avail_ok).
  replace (q_avail m <? RINGBUF_MSG_SZ) with false by lia.
  rewrite bind_get_payload_pt. cbn [payload_pt mk payload_off].
  rewrite Hp, <- Z.add_assoc.
  erewrite bind_Ok by (now apply memcpy_payload_ok).
  unfold guard_events, write_hd. rewrite <- !app_assoc. reflexivity.
Qed.

Lemma write_point_ok d pt m l :
  mapped d m ->
  write_point (mk d pt m l)
  = Ok tt (mk d pt (set_data d m) (l ++ point_events d)).
Proof.
  intros Hmap.
  pose proof (mapped_base _ _ Hmap) as Hb.
  pose proof (mapped_size _ _ Hmap) as Hsz.
  assert (Hf : fifo_addr d = base_addr d) by apply Hmap.
  unfold write_point.
  rewrite bind_get_dev. cbn [dev mk]. rewrite Hf.
  unfold wmb, spin_lock. erewrite bind_Ok by apply emit_ok.
  erewrite bind_Ok by apply emit_ok.
  erewrite bind_Ok by (apply store_ptr_ok; zsolve).
  fold (set_data d m). unfold mb. rewrite emit_ok.
  unfold point_events. rewrite <- !app_assoc. reflexivity.
Qed.

Lemma write_enqueue_ok d pt m l hd len :
  mapped d m -> formatted m ->
  q_data m = base_addr d + KFIFO_BUF_OFF ->
  RINGBUF_MSG_SZ <= q_avail m ->
  write_enqueue hd len (mk d pt m l)
  = Ok 0 (mk d (wrap32 (pt + len))
               (after_in (encode_hd hd) RINGBUF_MSG_SZ m)
               (l ++ enqueue_events d m)).
Proof.
  intros Hmap Hfmt Hdata Hav.
  pose proof (mapped_base _ _ Hmap) as Hb.
  assert (Hf : fifo_addr d = base_addr d) by apply Hmap.
  unfold write_enqueue.
  rewrite bind_get_dev. cbn [dev mk]. rewrite Hf.
  erewrite bind_Ok
    by (apply kfifo_in_ok; try assumption; apply zlen_encode_hd).
  unfold spin_unlock. erewrite bind_Ok by apply emit_ok.
  cbn [Z.eqb RINGBUF_MSG_SZ sizeof_rbmsg_hd target sizeof_word sizeof_uint
       Z.mul Z.add Pos.mul Pos.add Pos.eqb negb].
  erewrite bind_Ok by (now apply ringbuf_ioctl_ring_ok).
  rewrite bind_get_payload_pt. cbn [payload_pt mk].
  unfold enqueue_events. change RINGBUF_MSG_SZ with 16.
  rewrite <- !app_assoc. reflexivity.
Qed.

(** The header a send leaves at the position the queue had, and what
    it names. *)
Lemma enqueued_header m hd :
  1048 <= zlen m ->
  0 <= src_qid hd < 2 ^ 32 -> 0 <= payload_off hd < 2 ^ 32 ->
  - 2 ^ 63 <= payload_len hd < 2 ^ 63 ->
  decode_hd (block_at (q_in m) RINGBUF_MSG_SZ
               (after_in (encode_hd hd) RINGBUF_MSG_SZ m)) = hd.
Proof.
  intros Hsz Hs Ho Hl. change RINGBUF_MSG_SZ with 16.
  rewrite after_in_blocks by (try apply zlen_encode_hd; lia).
  now apply decode_encode_hd.
Qed.

Lemma enqueued_names d pt m buffer len :
  mapped d m ->
  0 <= pt < 2 ^ 32 -> 0 <= len < 2 ^ 63 ->
  payload_at pt len m = firstn (Z.to_nat len) buffer ->
  names_payload (q_in m) buffer len
    (after_in (encode_hd (write_hd pt len)) RINGBUF_MSG_SZ m).
Proof.
  intros Hmap Hpt Hlen Hpay.
  pose proof (mapped_size _ _ Hmap) as Hsz.
  unfold names_payload.
  rewrite enqueued_header;
    cbn [write_hd src_qid payload_off payload_len];
    [ | exact Hsz | unfold QEMU_PROCESS_ID; lia | exact Hpt
      | apply to_ssize_range ].
  split; [reflexivity|].
  split; [now apply to_ssize_small|].
  unfold payload_at in *. change RINGBUF_MSG_SZ with 16.
  rewrite after_in_frame by (try apply zlen_encode_hd; zsolve).
  exact Hpay.
Qed.

(** A block that is read in full lies in the region. *)
Lemma load_bytes_full (o n : Z) (m : list byte) :
  0 <= o -> 0 < n -> zlen (load_bytes o n m) = n -> o + n <= zlen m.
Proof.
  unfold load_bytes, zlen. rewrite length_firstn, length_skipn. lia.
Qed.

(** A consumer that dequeues a header naming a payload is handed that
    payload. *)
Lemma read_named d pt m l hd bufC n buffer len :
  mapped d m -> formatted m -> role d = Consumer ->
  RINGBUF_MSG_SZ <= q_len m -> zlen hd = RINGBUF_MSG_SZ ->
  names_payload (q_out m) buffer len m ->
  0 <= len <= zlen buffer -> 0 <= n -> Z.min n len <= zlen bufC ->
  ringbuf_read hd bufC n (mk d pt m l)
  = Ok (0, firstn (Z.to_nat (Z.min n len)) buffer
           ++ skipn (Z.to_nat (Z.min n len)) bufC)
       (mk d pt (dequeued d m)
          (l ++ read_events m (payload_off (dequeued_hd d m)) (Z.min n len))).
Proof.
  intros Hmap Hfmt Hrole Hq Hhd Hn Hlen Hn0 Hbuf.
  unfold names_payload in Hn. rewrite <- (dequeued_hd_bytes d m Hmap) in Hn.
  cbv zeta in Hn. destruct Hn as (Htag & Hpl & Hpay).
  pose proof (dequeued_off_range d m) as Hoff.
  pose proof (to_ssize_range 0) as _.
  assert (Hl63 : 0 <= len < 2 ^ 63).
  { split; [lia|]. rewrite <- Hpl. unfold dequeued_hd, decode_hd.
    cbn [payload_len]. apply to_ssize_range. }
  assert (HMIN : MIN n (payload_len (dequeued_hd d m)) = Z.min n len).
  { rewrite Hpl. now apply MIN_small. }
  assert (Hfit : Z.min n len = 0 \/
                 PAYLOADS_OFF + payload_off (dequeued_hd d m) + Z.min n len
                 <= zlen m).
  { destruct (Z.eq_dec (Z.min n len) 0) as [E|E]; [now left|right].
    assert (Hfull : PAYLOADS_OFF + payload_off (dequeued_hd d m) + len
                    <= zlen m).
    { rewrite <- Z.add_assoc. rewrite Z.add_assoc.
      apply load_bytes_full; [zsolve|lia|].
      unfold payload_at in Hpay. rewrite Hpay. apply zlen_firstn. lia. }
    lia. }
  rewrite read_copy_ok; rewrite ?HMIN; try assumption.
  f_equal. f_equal.
  unfold payload_at. rewrite (load_prefix _ _ len) by lia.
  unfold payload_at in Hpay. rewrite Hpay.
  rewrite firstn_firstn, store_at_start.
  replace (Init.Nat.min (Z.to_nat (Z.min n len)) (Z.to_nat len))
    with (Z.to_nat (Z.min n len)) by lia.
  f_equal. f_equal. rewrite length_firstn. unfold zlen in *. lia.
Qed.

(* ------------------------------------------------------------------ *)
(** * The claims *)
(* ------------------------------------------------------------------ *)

(** C1.  Round trip: on a formatted, idle queue a send of the payload
    [P], which fits the rest of the payload area, succeeds, and the
    receive that follows it copies into the caller's buffer the first
    [min len (length P)] bytes of [P], where [len] is the buffer length
    the caller passes; the rest of the buffer is untouched. *)
Theorem C1_send_receive_roundtrip
  (dP dC : ringbuf_device) (ptP ptC : Z) (m : list byte)
  (lP lC : list event) (P hd buffer : list byte) (len : Z) :
  mapped dP m -> mapped dC m -> formatted m ->
  role dP = Producer -> role dC = Consumer ->
  q_len m = 0 ->
  0 <= ptP -> ptP + zlen P <= arena_capacity (zlen m) ->
  zlen hd = RINGBUF_MSG_SZ ->
  0 <= len -> Z.min len (zlen P) <= zlen buffer ->
  exists sP,
    ringbuf_write P (zlen P) (mk dP ptP m lP) = Ok 0 sP /\
    exists sC',
      ringbuf_read hd buffer len (mk dC ptC (shm sP) lC)
      = Ok (0, firstn (Z.to_nat (Z.min len (zlen P))) P
                 ++ skipn (Z.to_nat (Z.min len (zlen P))) buffer) sC'.
Proof.
  intros HP HC Hfmt HroleP HroleC Hidle Hpt Hfit Hhd Hlen Hbuf.
  unfold arena_capacity in Hfit.
  assert (Hfit0 : PAYLOADS_OFF + ptP + zlen P <= zlen m) by lia.
  clear Hfit. rename Hfit0 into Hfit.
  pose proof (zlen_nonneg P) as HP0.
  assert (H32 : zlen m < 2 ^ 32) by apply HP.
  assert (HlenP : 0 <= zlen P <= zlen P) by lia.
  assert (Hfit' : zlen P = 0 \/ PAYLOADS_OFF + ptP + zlen P <= zlen m) by lia.
  assert (Hav : RINGBUF_MSG_SZ <= q_avail m).
  { rewrite formatted_avail by (try assumption; rewrite Hidle; zsolve).
    rewrite Hidle. zsolve. }
  eexists. split.
  { apply ringbuf_write_ok; assumption. }
  cbn [shm mk]. set (m' := written dP ptP P (zlen P) m).
  pose proof (written_zlen dP m ptP P (zlen P) HP Hpt HlenP Hfit') as Hz.
  fold m' in Hz.
  assert (HC' : mapped dC m') by (now apply (mapped_same_size dC m)).
  assert (Hfmt' : formatted m') by (now apply (written_formatted dP)).
  assert (Hq : q_len m' = RINGBUF_MSG_SZ).
  { unfold m'. rewrite (written_len dP) by (try assumption; rewrite Hidle; zsolve).
    rewrite Hidle. lia. }
  assert (Hh : dequeued_hd dC m' = write_hd ptP (zlen P)).
  { apply roundtrip_header; try assumption. zsolve. }
  assert (Hn : MIN len (payload_len (dequeued_hd dC m')) = Z.min len (zlen P)).
  { rewrite Hh. cbn [write_hd payload_len].
    rewrite to_ssize_small by zsolve. apply MIN_small. zsolve. }
  eexists.
  rewrite read_copy_ok; try assumption; rewrite ?Hn, ?Hh;
    cbn [write_hd src_qid payload_off]; try reflexivity; try lia.
  f_equal. f_equal.
  assert (Hpl : payload_at ptP (Z.min len (zlen P)) m'
                = firstn (Z.to_nat (Z.min len (zlen P))) P).
  { unfold payload_at. rewrite (load_prefix _ _ (zlen P)) by lia.
    fold (payload_at ptP (zlen P) m'). unfold m'.
    rewrite (written_payload dP) by assumption.
    unfold zlen. now rewrite Nat2Z.id, firstn_all. }
  rewrite Hpl, store_at_start. f_equal. f_equal.
  rewrite length_firstn. unfold zlen in *. lia.
Qed.

Lemma C1_hello_witness :
  exists sP,
    ringbuf_write hello 5 sP0 = Ok 0 sP /\
    exists sC',
      ringbuf_read stack_hd (dots 16) 16 (sC (shm sP))
      = Ok (0, hello ++ dots 11) sC'.
Proof.
  apply (C1_send_receive_roundtrip devP devC 0 0 region0 (log sP0) []
           hello stack_hd (dots 16) 16).
  - apply mappedb_ok. vm_compute. reflexivity.
  - apply mappedb_ok. vm_compute. reflexivity.
  - apply formattedb_ok. vm_compute. reflexivity.
  - reflexivity.
  - reflexivity.
  - vm_compute. reflexivity.
  - lia.
  - vm_compute. discriminate.
  - reflexivity.
  - lia.
  - vm_compute. discriminate.
Defined.

(** C2 (as the code has it).  [ringbuf_write] has no exhaustion check.
    A send of [len > 0] bytes that passes the role, mapping and
    queue-space tests copies the payload to offset [payload_pt] of the
    payload area whatever the area's capacity: if [payload_pt + len]
    is within the capacity the bytes land inside the area and the send
    succeeds; if it exceeds the capacity the copy leaves the mapped
    region, and no error value is returned. *)
Theorem C2_payload_copy_unchecked
  (d : ringbuf_device) (pt : Z) (m : list byte) (l : list event)
  (buffer : list byte) (len : Z) :
  mapped d m -> formatted m -> role d = Producer ->
  RINGBUF_MSG_SZ <= q_avail m ->
  0 <= pt -> 0 < len <= zlen buffer ->
  (pt + len <= arena_capacity (zlen m) ->
     ringbuf_write buffer len (mk d pt m l)
     = Ok 0 (mk d (pt + len) (written d pt buffer len m)
                  (l ++ write_events d pt len m)) /\
     zlen (written d pt buffer len m) = zlen m /\
     payload_at pt len (written d pt buffer len m)
     = firstn (Z.to_nat len) buffer) /\
  (arena_capacity (zlen m) < pt + len ->
     ringbuf_write buffer len (mk d pt m l)
     = Fault (OutOfRegion (payloads_st d + pt) len)).
Proof.
  intros Hmap Hfmt Hrole Hav Hpt Hlen. unfold arena_capacity. split.
  - intros Hfit.
    assert (H32 : zlen m < 2 ^ 32) by apply Hmap.
    assert (Hlen' : 0 <= len <= zlen buffer) by lia.
    assert (Hfit' : len = 0 \/ PAYLOADS_OFF + pt + len <= zlen m) by lia.
    split; [|split].
    + rewrite ringbuf_write_ok by assumption.
      rewrite wrap32_small by zsolve. reflexivity.
    + now apply written_zlen.
    + apply written_payload; try assumption. lia.
  - intros Hover. apply ringbuf_write_overrun; try assumption. lia.
Qed.

Lemma C2_unchecked_witness :
  ringbuf_write hello 5 sP0
  = Ok 0 (mk devP (0 + 5) (written devP 0 hello 5 region0)
             (log sP0 ++ write_events devP 0 5 region0)) /\
  zlen (written devP 0 hello 5 region0) = zlen region0 /\
  payload_at 0 5 (written devP 0 hello 5 region0) = firstn (Z.to_nat 5) hello.
Proof.
  apply (C2_payload_copy_unchecked devP 0 region0 (log sP0) hello 5).
  - apply mappedb_ok. vm_compute. reflexivity.
  - apply formattedb_ok. vm_compute. reflexivity.
  - reflexivity.
  - vm_compute. discriminate.
  - lia.
  - vm_compute. split; [reflexivity|discriminate].
  - vm_compute. discriminate.
Defined.

(** C2 fails on the code: with 64 bytes of payload area and the cursor
    at 0, a send of 65 bytes is not refused; the copy is issued for 65
    bytes at the start of the area and runs off the region. *)
Lemma C2_overrun_not_refused :
  arena_capacity (zlen (shm sP0)) = 64 /\
  payload_pt sP0 + 65 > arena_capacity (zlen (shm sP0)) /\
  ringbuf_write (repeat x41 65) 65 sP0
  = Fault (OutOfRegion (payloads_st devP + 0) 65) /\
  forall r s', ringbuf_write (repeat x41 65) 65 sP0 <> Ok r s'.
Proof.
  assert (E : ringbuf_write (repeat x41 65) 65 sP0
              = Fault (OutOfRegion (payloads_st devP + 0) 65))
    by (vm_compute; reflexivity).
  split; [vm_compute; reflexivity|].
  split; [vm_compute; reflexivity|].
  split; [exact E|].
  intros r s'. rewrite E. discriminate.
Qed.

(** C3 (as the code has it).  [ringbuf_read] has no bound check on the
    header it dequeues.  With an accepted header [h] and
    [n = MIN(len, h.payload_len) > 0], it copies [n] bytes from offset
    [h.payload_off] of the payload area: if [h.payload_off + n] is
    within the area's capacity the caller gets those bytes; if it
    exceeds the capacity the copy reads outside the mapped region. *)
Theorem C3_copy_out_unchecked
  (d : ringbuf_device) (pt : Z) (m : list byte) (l : list event)
  (hd buffer : list byte) (len : Z) :
  mapped d m -> formatted m -> role d = Consumer ->
  RINGBUF_MSG_SZ <= q_len m -> zlen hd = RINGBUF_MSG_SZ ->
  src_qid (dequeued_hd d m) = QEMU_PROCESS_ID ->
  0 <= len ->
  0 < MIN len (payload_len (dequeued_hd d m)) <= zlen buffer ->
  let h := dequeued_hd d m in
  let n := MIN len (payload_len h) in
  (payload_off h + n <= arena_capacity (zlen m) ->
     ringbuf_read hd buffer len (mk d pt m l)
     = Ok (0, store_bytes 0 (payload_at (payload_off h) n m) buffer)
          (mk d pt (dequeued d m) (l ++ read_events m (payload_off h) n))) /\
  (arena_capacity (zlen m) < payload_off h + n ->
     ringbuf_read hd buffer len (mk d pt m l)
     = Fault (OutOfRegion (payloads_st d + payload_off h) n)).
Proof.
  intros Hmap Hfmt Hrole Hq Hhd Hsrc Hlen Hn h n.
  unfold arena_capacity. split.
  - intros Hfit. apply read_copy_ok; try assumption; fold h; fold n.
    + unfold n, h. lia.
    + right. lia.
  - intros Hover. apply read_overrun; try assumption; fold h; fold n.
    + unfold n, h. lia.
    + lia.
Qed.

Lemma C3_unchecked_witness :
  ringbuf_read stack_hd (dots 100) 100 (mk devC 0 forged_region [])
  = Fault (OutOfRegion (payloads_st devC + 0) 100).
Proof.
  apply (C3_copy_out_unchecked devC 0 forged_region [] stack_hd (dots 100) 100).
  - apply mappedb_ok. vm_compute. reflexivity.
  - apply formattedb_ok. vm_compute. reflexivity.
  - reflexivity.
  - vm_compute. discriminate.
  - reflexivity.
  - vm_compute. reflexivity.
  - lia.
  - vm_compute. split; [reflexivity|discriminate].
  - vm_compute. reflexivity.
Defined.

(** C3 fails on the code: a header in the queue that claims 100 bytes at
    offset 0 of a 64-byte payload area is not checked against the
    capacity; the receive issues the copy of 100 bytes, which leaves the
    mapped region. *)
Lemma C3_forged_header_read_past_arena :
  arena_capacity (zlen forged_region) = 64 /\
  dequeued_hd devC forged_region = forged_hd /\
  ringbuf_read stack_hd (dots 100) 100 (sC forged_region)
  = Fault (OutOfRegion (payloads_st devC + 0) 100).
Proof.
  split; [vm_compute; reflexivity|].
  split; vm_compute; reflexivity.
Qed.

(** C4.  A receive that dequeues a header whose [src_qid] is not the
    expected tag returns [-EFAULT]; the header is consumed (the queue's
    [out] index has moved on by one header and one header less is
    queued), the caller's buffer is returned unchanged and nothing was
    read from the payload area. *)
Theorem C4_mismatch_consumes_header
  (d : ringbuf_device) (pt : Z) (m : list byte) (l : list event)
  (hd buffer : list byte) (len : Z) :
  mapped d m -> formatted m -> role d = Consumer ->
  RINGBUF_MSG_SZ <= q_len m -> zlen hd = RINGBUF_MSG_SZ ->
  src_qid (dequeued_hd d m) <> QEMU_PROCESS_ID ->
  ringbuf_read hd buffer len (mk d pt m l)
  = Ok (- EFAULT, buffer) (mk d pt (dequeued d m) (l ++ dequeue_events m)) /\
  q_out (dequeued d m) = wrap32 (q_out m + RINGBUF_MSG_SZ) /\
  q_len (dequeued d m) = q_len m - RINGBUF_MSG_SZ /\
  forallb (fun e => negb (is_payload_load e)) (dequeue_events m) = true.
Proof.
  intros Hmap Hfmt Hrole Hq Hhd Hsrc. split; [|split; [|split]].
  - now apply read_mismatch.
  - now apply dequeued_out.
  - now apply dequeued_len.
  - apply dequeue_events_no_payload_load.
Qed.

Lemma C4_mismatch_witness :
  ringbuf_read stack_hd (dots 16) 16 (mk devC 0 alien_region [])
  = Ok (- EFAULT, dots 16)
       (mk devC 0 (dequeued devC alien_region) ([] ++ dequeue_events alien_region)) /\
  q_out (dequeued devC alien_region) = wrap32 (q_out alien_region + RINGBUF_MSG_SZ) /\
  q_len (dequeued devC alien_region) = q_len alien_region - RINGBUF_MSG_SZ /\
  forallb (fun e => negb (is_payload_load e)) (dequeue_events alien_region) = true.
Proof.
  apply (C4_mismatch_consumes_header devC 0 alien_region [] stack_hd (dots 16) 16).
  - apply mappedb_ok. vm_compute. reflexivity.
  - apply formattedb_ok. vm_compute. reflexivity.
  - reflexivity.
  - vm_compute. discriminate.
  - reflexivity.
  - vm_compute. discriminate.
Defined.

(** C5.  A send made with a role other than Producer, or with the
    region or the queue pointer unset ([NULL]), or with less free queue
    space than one header, returns 0 having done nothing: the region
    (payload area and queue) and [payload_pt] are as before, and the
    only events are loads, so nothing was stored and the doorbell was
    not rung. *)
Theorem C5_refused_send_is_noop
  (s : kstate) (buffer : list byte) (len : Z) :
  role (dev s) <> Producer \/
  base_addr (dev s) = 0 \/ fifo_addr (dev s) = 0 \/
  (mapped (dev s) (shm s) /\ q_avail (shm s) < RINGBUF_MSG_SZ) ->
  exists evs,
    ringbuf_write buffer len s
    = Ok 0 (mk (dev s) (payload_pt s) (shm s) (log s ++ evs)) /\
    forallb is_load evs = true.
Proof.
  intros H.
  destruct (Z.eq_dec (role (dev s)) Producer) as [Hrole|Hrole].
  2:{ exists []. rewrite app_nil_r, <- state_eta.
      split; [now apply write_refused_role|reflexivity]. }
  destruct H as [H|[H|[H|[Hmap Hav]]]].
  - contradiction.
  - exists []. rewrite app_nil_r, <- state_eta.
    split; [apply write_refused_null; auto|reflexivity].
  - exists []. rewrite app_nil_r, <- state_eta.
    split; [apply write_refused_null; auto|reflexivity].
  - exists guard_events. split; [|reflexivity].
    rewrite (state_eta s) at 1. now apply write_refused_full.
Qed.

Lemma C5_full_queue_witness :
  exists evs,
    ringbuf_write hello 5 (send_n 32 sP0)
    = Ok 0 (mk (dev (send_n 32 sP0)) (payload_pt (send_n 32 sP0))
               (shm (send_n 32 sP0)) (log (send_n 32 sP0) ++ evs)) /\
    forallb is_load evs = true.
Proof.
  apply (C5_refused_send_is_noop (send_n 32 sP0) hello 5).
  right. right. right. split.
  - apply mappedb_ok. vm_compute. reflexivity.
  - vm_compute. reflexivity.
Defined.

(** C6 (as the code has it).  The header is two [unsigned int]s and an
    [ssize_t]: 12 bytes where a machine word has 4 bytes, 16 where it
    has 8.  The driver places the queue's buffer at offset 0x18, the
    size of [struct __kfifo] with 8-byte pointers, so its header has 16
    bytes.  With the queue's 512 bytes that is at most 512 / 16 = 32
    headers: every queue reachable from a fresh one by sends and
    receives holds a whole number of headers, between 0 and 32. *)
Theorem C6_header_size_and_bound :
  (forall mdl, sizeof___kfifo mdl = KFIFO_BUF_OFF <-> mdl = LP64) /\
  sizeof_rbmsg_hd ILP32 = 12 /\
  sizeof_rbmsg_hd LP64 = 16 /\
  RINGBUF_MSG_SZ = 16 /\
  RINGBUF_SZ / RINGBUF_MSG_SZ = 32 /\
  forall dP dC m,
    reachable dP dC m ->
    q_len m = RINGBUF_MSG_SZ * headers_outstanding m /\
    0 <= headers_outstanding m <= RINGBUF_SZ / RINGBUF_MSG_SZ.
Proof.
  split.
  { intros [|]; split; intros H; try reflexivity; discriminate. }
  do 4 (split; [reflexivity|]).
  intros dP dC m Hreach.
  apply reachable_inv in Hreach as (_ & _ & _ & k & Hk & Hq).
  rewrite (outstanding_exact m k Hq). auto.
Qed.

Lemma C6_one_send_witness :
  q_len (shm (send_n 1 sP0))
  = RINGBUF_MSG_SZ * headers_outstanding (shm (send_n 1 sP0)) /\
  0 <= headers_outstanding (shm (send_n 1 sP0)) <= RINGBUF_SZ / RINGBUF_MSG_SZ.
Proof.
  destruct C6_header_size_and_bound as (_ & _ & _ & _ & _ & H).
  apply (H devP devC).
  apply (reach_send devP devC region0 0 (log sP0) [x41] 1 0
           (state_after (ringbuf_write [x41] 1) sP0)).
  - apply reach_fresh; apply scenario_fresh.
  - lia.
  - lia.
  - vm_compute. reflexivity.
Defined.

(** C6 fails on the code: the header has 16 bytes, not 12, and 512 / 16
    is 32, not 42.  One send advances the queue by 16 bytes; after 32
    sends the queue is full with 32 headers and the 33rd send is
    refused. *)
Lemma C6_header_is_16_bytes :
  RINGBUF_MSG_SZ <> 12 /\
  RINGBUF_SZ / RINGBUF_MSG_SZ <> 42 /\
  q_len (shm sP0) = 0 /\
  q_len (shm (send_n 1 sP0)) = 16 /\
  q_len (shm (send_n 32 sP0)) = 512 /\
  headers_outstanding (shm (send_n 32 sP0)) = 32 /\
  q_avail (shm (send_n 32 sP0)) = 0 /\
  shm (send_n 33 sP0) = shm (send_n 32 sP0).
Proof.
  split; [discriminate|]. split; [discriminate|].
  do 5 (split; [vm_compute; reflexivity|]).
  vm_compute. reflexivity.
Qed.

(** C7 (as the code has it).  [payload_pt] is set to 0 when the region
    is formatted and again by [ringbuf_release]; between these resets it
    only grows.  A receive never changes it.  A send that returns either
    did nothing, or was given the offset [payload_pt] and moved the
    cursor on by exactly [len]: the header it queued names the range
    [payload_pt, payload_pt + len), the range holds the caller's bytes,
    and every range below it is untouched, so successive sends get
    contiguous ranges that do not overlap. *)
Theorem C7_cursor_between_resets :
  (forall fifo_indevice lock s s',
      ringbuf_fifo_init fifo_indevice lock s = Ok tt s' ->
      payload_pt s' = 0) /\
  (forall d pt m l,
      ringbuf_release (mk d pt m l)
      = Ok 0 (mk d (if fifo_addr d =? 0 then pt else 0) m l)) /\
  (forall hd buffer len s r s',
      ringbuf_read hd buffer len s = Ok r s' ->
      payload_pt s' = payload_pt s) /\
  (forall d pt m l buffer len r s',
      mapped d m -> formatted m -> 0 <= pt < 2 ^ 32 -> 0 <= len ->
      ringbuf_write buffer len (mk d pt m l) = Ok r s' ->
      (payload_pt s' = pt /\ shm s' = m) \/
      (payload_pt s' = pt + len /\
       (len = 0 \/ pt + len <= arena_capacity (zlen m)) /\
       decode_hd (block_at (q_in m) RINGBUF_MSG_SZ (shm s')) = write_hd pt len /\
       (0 < len -> payload_at pt len (shm s') = firstn (Z.to_nat len) buffer) /\
       forall o n, 0 <= o -> 0 <= n -> o + n <= pt ->
                   payload_at o n (shm s') = payload_at o n m)).
Proof.
  split; [exact fifo_init_cursor|].
  split; [exact ringbuf_release_ok|].
  split.
  { intros hd buffer len s r s' H. now apply keeps_ringbuf_read in H. }
  intros d pt m l buffer len r s' Hmap Hfmt Hpt Hlen Hrun.
  assert (Hpt0 : 0 <= pt) by lia.
  assert (H32 : zlen m < 2 ^ 32) by apply Hmap.
  apply ringbuf_write_inv in Hrun
    as [_ [(Hm & Hp & _)|(Hrole & Hav & Hb & Hfit & ->)]]; try assumption.
  { left. auto. }
  right. cbn [payload_pt shm mk].
  assert (Hb' : 0 <= len <= zlen buffer) by lia.
  split; [apply wrap32_small; zsolve|].
  split; [unfold arena_capacity; lia|].
  split.
  { rewrite (written_header d) by assumption.
    apply decode_encode_hd; cbn [write_hd src_qid payload_off payload_len].
    - unfold QEMU_PROCESS_ID. lia.
    - exact Hpt.
    - apply to_ssize_range. }
  split.
  { intros Hpos. apply (written_payload d); try assumption. lia. }
  intros o n Ho Hn Hon. apply (written_payload_other d); auto.
Qed.

Lemma C7_one_send_witness :
  (payload_pt (state_after (ringbuf_write hello 5) sP0) = 0 /\
   shm (state_after (ringbuf_write hello 5) sP0) = region0) \/
  (payload_pt (state_after (ringbuf_write hello 5) sP0) = 0 + 5 /\
   (5 = 0 \/ 0 + 5 <= arena_capacity (zlen region0)) /\
   decode_hd (block_at (q_in region0) RINGBUF_MSG_SZ
                (shm (state_after (ringbuf_write hello 5) sP0)))
   = write_hd 0 5 /\
   (0 < 5 -> payload_at 0 5 (shm (state_after (ringbuf_write hello 5) sP0))
             = firstn (Z.to_nat 5) hello) /\
   forall o n, 0 <= o -> 0 <= n -> o + n <= 0 ->
     payload_at o n (shm (state_after (ringbuf_write hello 5) sP0))
     = payload_at o n region0).
Proof.
  destruct C7_cursor_between_resets as (_ & _ & _ & H).
  apply (H devP 0 region0 (log sP0) hello 5 0).
  - apply mappedb_ok. vm_compute. reflexivity.
  - apply formattedb_ok. vm_compute. reflexivity.
  - lia.
  - lia.
  - vm_compute. reflexivity.
Defined.

(** C7 fails on the code: after a send of 5 bytes the cursor is 5;
    [ringbuf_release] puts it back to 0 while the header just queued is
    still in the queue; the next send is given offset 0 again and
    overwrites the first payload, so the receive of the first header
    delivers the bytes of the second message. *)
Lemma C7_release_resets_cursor :
  let s1 := state_after (ringbuf_write hello 5) sP0 in
  let s2 := state_after ringbuf_release s1 in
  let s3 := state_after (ringbuf_write world 5) s2 in
  payload_pt s1 = 5 /\
  ringbuf_release s1 = Ok 0 s2 /\
  payload_pt s2 = 0 /\
  q_len (shm s2) = 16 /\
  payload_at 0 5 (shm s1) = hello /\
  payload_at 0 5 (shm s3) = world /\
  dequeued_hd devC (shm s3) = write_hd 0 5 /\
  match ringbuf_read stack_hd (dots 16) 16 (sC (shm s3)) with
   | Ok (_, b) _ => b
   | Fault _ => []
   end
  = world ++ dots 11.
Proof.
  cbv zeta.
  split; [vm_compute; reflexivity|].
  split; [vm_compute; reflexivity|].
  split; [vm_compute; reflexivity|].
  split; [vm_compute; reflexivity|].
  split; [vm_compute; reflexivity|].
  split; [vm_compute; reflexivity|].
  split; vm_compute; reflexivity.
Qed.




(** C9.  What [ringbuf_read] returns.  Whatever the state, a receive
    that returns gives 0 or [-EFAULT], and with [-EFAULT] the caller's
    buffer is unchanged.  It is 0 when the role is not Consumer, when
    the region or the queue pointer is unset, and when less than one
    header is queued.  On a formatted queue the value is [-EFAULT]
    exactly when a header was dequeued whose [src_qid] is not the
    expected tag; in every other case, in particular after copying a
    payload of any length, it is 0: the number of bytes copied is not
    reported. *)
Theorem C9_read_return_values :
  (forall hd buffer len s r b s',
      ringbuf_read hd buffer len s = Ok (r, b) s' ->
      r = 0 \/ (r = - EFAULT /\ b = buffer)) /\
  (forall hd buffer len s,
      role (dev s) <> Consumer \/
      base_addr (dev s) = 0 \/ fifo_addr (dev s) = 0 ->
      ringbuf_read hd buffer len s = Ok (0, buffer) s) /\
  (forall d pt m l hd buffer len,
      mapped d m -> role d = Consumer -> q_len m < RINGBUF_MSG_SZ ->
      ringbuf_read hd buffer len (mk d pt m l)
      = Ok (0, buffer) (mk d pt m (l ++ [EvLoad off_in 4; EvLoad off_out 4]))) /\
  (forall d pt m l hd buffer len r b s',
      mapped d m -> formatted m -> zlen hd = RINGBUF_MSG_SZ ->
      ringbuf_read hd buffer len (mk d pt m l) = Ok (r, b) s' ->
      (r = - EFAULT <->
       role d = Consumer /\ RINGBUF_MSG_SZ <= q_len m /\
       src_qid (dequeued_hd d m) <> QEMU_PROCESS_ID) /\
      (r = 0 <->
       ~ (role d = Consumer /\ RINGBUF_MSG_SZ <= q_len m /\
          src_qid (dequeued_hd d m) <> QEMU_PROCESS_ID))).
Proof.
  split.
  { intros hd buffer len s r b s' H.
    apply (ringbuf_read_returns hd buffer len s (r, b) s' H). }
  split.
  { intros hd buffer len s [H|H].
    - now apply read_refused_role.
    - now apply read_refused_null. }
  split.
  { intros. now apply read_refused_empty. }
  intros d pt m l hd buffer len r b s' Hmap Hfmt Hhd Hrun.
  assert (Hno : r = 0 ->
            ~ (role d = Consumer /\ RINGBUF_MSG_SZ <= q_len m /\
               src_qid (dequeued_hd d m) <> QEMU_PROCESS_ID)).
  { intros -> (Hrole & Hq & Hsrc).
    rewrite read_mismatch in Hrun by assumption. discriminate. }
  destruct (ringbuf_read_inv _ _ _ _ _ _ _ _ _ _ Hmap Hfmt Hhd Hrun)
    as [(Hr & _ & _)|(Hrole & Hq & _ & [(Hr & _ & Hsrc)|(Hr & Hsrc)])].
  - subst r. split; split.
    + discriminate.
    + intros H. exfalso. now apply (Hno eq_refl).
    + intros _. now apply Hno.
    + reflexivity.
  - subst r. split; split.
    + auto.
    + reflexivity.
    + discriminate.
    + intros H. exfalso. apply H. auto.
  - subst r. split; split.
    + discriminate.
    + intros (_ & _ & H). contradiction.
    + intros _ (_ & _ & H). contradiction.
    + reflexivity.
Qed.

Lemma C9_mismatch_witness :
  (- EFAULT = - EFAULT <->
   role devC = Consumer /\ RINGBUF_MSG_SZ <= q_len alien_region /\
   src_qid (dequeued_hd devC alien_region) <> QEMU_PROCESS_ID) /\
  (- EFAULT = 0 <->
   ~ (role devC = Consumer /\ RINGBUF_MSG_SZ <= q_len alien_region /\
      src_qid (dequeued_hd devC alien_region) <> QEMU_PROCESS_ID)).
Proof.
  destruct C9_read_return_values as (_ & _ & _ & H).
  apply (H devC 0 alien_region [] stack_hd (dots 16) 16 (- EFAULT) (dots 16)
           (state_after (ringbuf_read stack_hd (dots 16) 16) (sC alien_region))).
  - apply mappedb_ok. vm_compute. reflexivity.
  - apply formattedb_ok. vm_compute. reflexivity.
  - reflexivity.
  - vm_compute. reflexivity.
Defined.

(** C10.  The source tag is the constant [QEMU_PROCESS_ID = 1] on both
    sides.  The header a successful send puts into the queue carries
    [src_qid = QEMU_PROCESS_ID].  A receive reads its header from the
    queue's bytes alone, whatever the device record says, and rejects it
    with [-EFAULT] exactly when its [src_qid] differs from
    [QEMU_PROCESS_ID]; the device's [ivposition] plays no part.  So
    after a send by any producer into an idle queue, the receive by any
    consumer does not reject the header. *)
Theorem C10_constant_source_tag :
  QEMU_PROCESS_ID = 1 /\
  (forall d pt m l buffer len,
      mapped d m -> formatted m -> role d = Producer ->
      RINGBUF_MSG_SZ <= q_avail m ->
      0 <= pt < 2 ^ 32 -> 0 <= len <= zlen buffer ->
      len = 0 \/ pt + len <= arena_capacity (zlen m) ->
      exists s',
        ringbuf_write buffer len (mk d pt m l) = Ok 0 s' /\
        src_qid (decode_hd (block_at (q_in m) RINGBUF_MSG_SZ (shm s')))
        = QEMU_PROCESS_ID) /\
  (forall d pt m l hd buffer len,
      mapped d m -> formatted m -> role d = Consumer ->
      RINGBUF_MSG_SZ <= q_len m -> zlen hd = RINGBUF_MSG_SZ ->
      dequeued_hd d m = decode_hd (block_at (q_out m) RINGBUF_MSG_SZ m) /\
      ((exists b s',
           ringbuf_read hd buffer len (mk d pt m l) = Ok (- EFAULT, b) s') <->
       src_qid (decode_hd (block_at (q_out m) RINGBUF_MSG_SZ m))
       <> QEMU_PROCESS_ID)) /\
  (forall dP dC ptP ptC m lP lC buffer len hd rbuf rlen,
      mapped dP m -> mapped dC m -> formatted m ->
      role dP = Producer -> role dC = Consumer ->
      q_len m = 0 ->
      0 <= ptP < 2 ^ 32 -> 0 <= len <= zlen buffer ->
      len = 0 \/ ptP + len <= arena_capacity (zlen m) ->
      zlen hd = RINGBUF_MSG_SZ ->
      exists sP,
        ringbuf_write buffer len (mk dP ptP m lP) = Ok 0 sP /\
        forall r b s',
          ringbuf_read hd rbuf rlen (mk dC ptC (shm sP) lC) = Ok (r, b) s' ->
          r = 0).
Proof.
  split; [reflexivity|]. split; [|split].
  - intros d pt m l buffer len Hmap Hfmt Hrole Hav Hpt Hlen Hfit0.
    assert (Hfit : len = 0 \/ PAYLOADS_OFF + pt + len <= zlen m)
      by (unfold arena_capacity in Hfit0; lia).
    assert (Hpt0 : 0 <= pt) by lia.
    eexists. split; [now apply ringbuf_write_ok|]. cbn [shm mk].
    rewrite (written_header d) by assumption.
    rewrite decode_encode_hd; cbn [write_hd src_qid payload_off payload_len];
      try reflexivity; try assumption.
    + unfold QEMU_PROCESS_ID. lia.
    + apply to_ssize_range.
  - intros d pt m l hd buffer len Hmap Hfmt Hrole Hq Hhd.
    pose proof (dequeued_hd_bytes d m Hmap) as Hb.
    split; [exact Hb|]. rewrite <- Hb. split.
    + intros (b & s' & Hrun).
      destruct (ringbuf_read_inv _ _ _ _ _ _ _ _ _ _ Hmap Hfmt Hhd Hrun)
        as [(Hr & _)|(_ & _ & _ & [(_ & _ & Hsrc)|(Hr & _)])];
        try assumption; discriminate.
    + intros Hsrc. eexists. eexists. now apply read_mismatch.
  - intros dP dC ptP ptC m lP lC buffer len hd rbuf rlen
           HP HC Hfmt HroleP HroleC Hidle Hpt Hlen Hfit0 Hhd.
    assert (Hfit : len = 0 \/ PAYLOADS_OFF + ptP + len <= zlen m)
      by (unfold arena_capacity in Hfit0; lia).
    assert (Hpt0 : 0 <= ptP) by lia.
    assert (Hav : RINGBUF_MSG_SZ <= q_avail m).
    { rewrite formatted_avail by (try assumption; rewrite Hidle; zsolve).
      rewrite Hidle. zsolve. }
    eexists. split; [now apply ringbuf_write_ok|]. cbn [shm mk].
    intros r b s' Hrun.
    pose proof (written_zlen dP m ptP buffer len HP Hpt0 Hlen Hfit) as Hz.
    assert (HC' : mapped dC (written dP ptP buffer len m))
      by (now apply (mapped_same_size dC m)).
    assert (Hfmt' : formatted (written dP ptP buffer len m))
      by (now apply (written_formatted dP)).
    destruct (ringbuf_read_inv _ _ _ _ _ _ _ _ _ _ HC' Hfmt' Hhd Hrun)
      as [(Hr & _)|(_ & _ & _ & [(_ & _ & Hsrc)|(Hr & _)])];
      try assumption.
    exfalso. apply Hsrc.
    rewrite (roundtrip_header dP dC) by assumption. reflexivity.
Qed.

Lemma C10_hello_witness :
  exists s',
    ringbuf_write hello 5 sP0 = Ok 0 s' /\
    src_qid (decode_hd (block_at (q_in region0) RINGBUF_MSG_SZ (shm s')))
    = QEMU_PROCESS_ID.
Proof.
  destruct C10_constant_source_tag as (_ & H & _).
  apply (H devP 0 region0 (log sP0) hello 5).
  - apply mappedb_ok. vm_compute. reflexivity.
  - apply formattedb_ok. vm_compute. reflexivity.
  - reflexivity.
  - vm_compute. discriminate.
  - lia.
  - vm_compute. split; discriminate.
  - right. vm_compute. discriminate.
Defined.

(* ------------------------------------------------------------------ *)
(** * Messages in order *)
(* ------------------------------------------------------------------ *)

Section Slots.

Lemma q_off_aligned (o : Z) :
  o mod 16 = 0 -> q_off o mod 16 = 0 /\ 0 <= q_off o <= 496.
Proof.
  intros Ho. unfold q_off. change RINGBUF_SZ with 512.
  pose proof (Z.mod_pos_bound o 512 ltac:(lia)).
  pose proof (Z.div_mod o 512 ltac:(lia)).
  pose proof (Z.div_mod o 16 ltac:(lia)).
  assert (Hm : (o mod 512) mod 16 = 0).
  { replace (o mod 512) with (o + (- (32 * (o / 512))) * 16) by lia.
    now rewrite Z.mod_add by lia. }
  split; [assumption|].
  pose proof (Z.div_mod (o mod 512) 16 ltac:(lia)). lia.
Qed.

Lemma q_first_aligned (o : Z) : o mod 16 = 0 -> q_first o 16 = 16.
Proof.
  intros Ho. destruct (q_off_aligned o Ho). unfold q_first.
  change RINGBUF_SZ with 512. lia.
Qed.

Lemma load_bytes_none (o : Z) (m : list byte) : load_bytes o 0 m = [].
Proof. reflexivity. Qed.

Lemma block_at_aligned (o : Z) (m : list byte) :
  o mod 16 = 0 ->
  block_at o 16 m = load_bytes (KFIFO_BUF_OFF + q_off o) 16 m.
Proof.
  intros Ho. unfold block_at. rewrite q_first_aligned by assumption.
  change (16 - 16) with 0. rewrite load_bytes_none. apply app_nil_r.
Qed.

Lemma copied_in_aligned (buf m : list byte) (i : Z) :
  zlen buf = 16 -> i mod 16 = 0 ->
  copied_in buf 16 i m = store_bytes (KFIFO_BUF_OFF + q_off i) buf m.
Proof.
  intros Hbuf Hi. unfold copied_in. rewrite q_first_aligned by assumption.
  change (16 - 16) with 0. cbn [Z.to_nat firstn]. rewrite store_bytes_nil.
  f_equal. apply firstn_all2. unfold zlen in Hbuf. lia.
Qed.

Lemma q_off_wrap (x y : Z) : q_off (wrap32 x + y) = q_off (x + y).
Proof.
  unfold q_off, wrap32. change RINGBUF_SZ with 512.
  pose proof (Z.div_mod x (2 ^ 32) ltac:(lia)).
  replace (x mod 2 ^ 32 + y) with (x + y + (- (8388608 * (x / 2 ^ 32))) * 512) by lia.
  apply Z.mod_add. lia.
Qed.

Lemma wrap32_aligned (x : Z) : x mod 16 = 0 -> wrap32 x mod 16 = 0.
Proof.
  intros Hx. unfold wrap32.
  pose proof (Z.div_mod x (2 ^ 32) ltac:(lia)).
  replace (x mod 2 ^ 32) with (x + (- (268435456 * (x / 2 ^ 32))) * 16) by lia.
  now rewrite Z.mod_add by lia.
Qed.

Lemma add16_aligned (x k : Z) : x mod 16 = 0 -> (x + 16 * k) mod 16 = 0.
Proof.
  intros Hx. replace (x + 16 * k) with (x + k * 16) by lia.
  now rewrite Z.mod_add by lia.
Qed.

(** Slots at different aligned positions do not overlap. *)
Lemma slots_apart (a b : Z) :
  a mod 16 = 0 -> b mod 16 = 0 -> q_off a <> q_off b ->
  q_off a + 16 <= q_off b \/ q_off b + 16 <= q_off a.
Proof.
  intros Ha Hb Hne.
  destruct (q_off_aligned a Ha) as [Ha' _].
  destruct (q_off_aligned b Hb) as [Hb' _].
  pose proof (Z.div_mod (q_off a) 16 ltac:(lia)).
  pose proof (Z.div_mod (q_off b) 16 ltac:(lia)). lia.
Qed.

(** The slots of a queue that is not full differ from the slot the next
    header goes to. *)
Lemma slot_distinct (o j k : Z) :
  0 <= j < k -> k < 32 -> q_off (o + 16 * j) <> q_off (o + 16 * k).
Proof.
  intros Hj Hk. unfold q_off. change RINGBUF_SZ with 512.
  pose proof (Z.div_mod (o + 16 * j) 512 ltac:(lia)).
  pose proof (Z.div_mod (o + 16 * k) 512 ltac:(lia)).
  pose proof (Z.mod_pos_bound (o + 16 * j) 512 ltac:(lia)).
  pose proof (Z.mod_pos_bound (o + 16 * k) 512 ltac:(lia)). lia.
Qed.

Lemma after_in_slot_frame (buf m : list byte) (o : Z) :
  zlen buf = 16 -> 1048 <= zlen m ->
  q_in m mod 16 = 0 -> o mod 16 = 0 -> q_off o <> q_off (q_in m) ->
  block_at o 16 (after_in buf 16 m) = block_at o 16 m.
Proof.
  intros Hbuf Hsz Hi Ho Hne.
  destruct (q_off_aligned o Ho) as [_ Hro].
  destruct (q_off_aligned _ Hi) as [_ Hri].
  pose proof (slots_apart o (q_in m) Ho Hi Hne).
  rewrite !block_at_aligned by assumption.
  unfold after_in. rewrite copied_in_aligned by assumption.
  rewrite load_store_other;
    rewrite ?zlen_le_bytes, ?store_bytes_zlen; try zsolve.
  apply load_store_other; zsolve.
Qed.

End Slots.

Section DeliversFrame.

Lemma next_pos_step (o k : Z) :
  wrap32 (next_pos o + 16 * k) = wrap32 (o + 16 * (k + 1)).
Proof.
  unfold next_pos, wrap32. change RINGBUF_MSG_SZ with 16.
  rewrite Zplus_mod_idemp_l. f_equal. lia.
Qed.

Lemma next_pos_range (o : Z) : 0 <= next_pos o < 2 ^ 32.
Proof. apply wrap32_range. Qed.

Lemma zlen_cons {A} (x : A) (l : list A) : zlen (x :: l) = zlen l + 1.
Proof. unfold zlen. cbn [length]. lia. Qed.

(** A list of queued messages survives a change of the region that
    leaves its slots and the payload bytes below the cursor alone. *)
Lemma delivers_frame (S : Z -> Prop) (m m' : list byte) (pt pt' : Z) :
  (forall off n, 0 <= off -> 0 <= n -> off + n <= pt ->
                 payload_at off n m' = payload_at off n m) ->
  (forall o, S o -> block_at o 16 m' = block_at o 16 m) ->
  pt <= pt' ->
  forall msgs o,
    0 <= o < 2 ^ 32 ->
    (forall j, 0 <= j < zlen msgs -> S (wrap32 (o + 16 * j))) ->
    delivers m pt o msgs -> delivers m' pt' o msgs.
Proof.
  intros Hpay Hslot Hpt. induction msgs as [|P rest IH]; intros o Ho HS Hd.
  - exact I.
  - destruct Hd as [(Hq & Hl & Hoff & Hend & Hbytes) Hrest].
    pose proof (zlen_nonneg rest) as Hr. pose proof (zlen_nonneg P) as HP.
    rewrite zlen_cons in HS.
    assert (Hs : slot_header o m' = slot_header o m).
    { unfold slot_header. change RINGBUF_MSG_SZ with 16. f_equal.
      apply Hslot. specialize (HS 0 ltac:(lia)).
      rewrite Z.add_0_r, wrap32_small in HS by assumption. exact HS. }
    split.
    + unfold holds. rewrite Hs. repeat split; try assumption; try lia.
      rewrite Hpay by lia. assumption.
    + apply IH; [apply next_pos_range| |assumption].
      intros j Hj. rewrite next_pos_step. apply HS. lia.
Qed.

Lemma delivers_app (m : list byte) (pt : Z) (a b : list (list byte)) :
  forall o, 0 <= o < 2 ^ 32 ->
    delivers m pt o a -> delivers m pt (wrap32 (o + 16 * zlen a)) b ->
    delivers m pt o (a ++ b).
Proof.
  induction a as [|P rest IH]; intros o Ho Ha Hb.
  - change (zlen (@nil (list byte))) with 0 in Hb.
    rewrite Z.add_0_r, wrap32_small in Hb by assumption. exact Hb.
  - destruct Ha as [HP Hrest]. split; [assumption|].
    apply IH; [apply next_pos_range|assumption|].
    rewrite next_pos_step. rewrite zlen_cons in Hb. exact Hb.
Qed.

Lemma in_from_len (m : list byte) (k : Z) :
  q_len m = k -> q_in m = wrap32 (q_out m + k).
Proof.
  intros <-. unfold q_len, wrap32. rewrite Zplus_mod_idemp_r.
  replace (q_out m + (q_in m - q_out m)) with (q_in m) by lia.
  symmetry. apply Z.mod_small. apply u32_range.
Qed.

End DeliversFrame.

Section WrittenSlots.

Variables (d : ringbuf_device) (m : list byte).
Variables (pt : Z) (buffer : list byte) (len : Z).
Hypothesis Hmap : mapped d m.
Hypothesis Hpt : 0 <= pt.
Hypothesis Hlen : 0 <= len <= zlen buffer.
Hypothesis Hfit : len = 0 \/ PAYLOADS_OFF + pt + len <= zlen m.

(** A send leaves the other slots of the queue as they were. *)
Lemma written_slot_frame (o : Z) :
  q_in m mod 16 = 0 -> o mod 16 = 0 -> q_off o <> q_off (q_in m) ->
  block_at o 16 (written d pt buffer len m) = block_at o 16 m.
Proof.
  intros Hi Ho Hne.
  pose proof (mapped_size _ _ Hmap) as Hsz.
  pose proof (mapped_payload_written d m pt buffer len Hmap Hpt Hlen Hfit) as HmA.
  pose proof (mapped_size _ _ HmA) as HszA.
  pose proof (mapped_set_data d _ HmA) as HmB.
  pose proof (mapped_size _ _ HmB) as HszB.
  destruct (q_off_aligned o Ho) as [_ Hro].
  unfold written. change RINGBUF_MSG_SZ with 16.
  rewrite after_in_slot_frame; try assumption.
  - rewrite !block_at_aligned by assumption.
    rewrite set_data_frame by zsolve.
    apply payload_written_frame; try assumption; zsolve.
  - apply zlen_encode_hd.
  - rewrite (set_data_in d) by assumption.
    now rewrite (payload_written_in d).
  - rewrite (set_data_in d) by assumption.
    now rewrite (payload_written_in d).
Qed.

End WrittenSlots.

Lemma firstn_zlen {A} (l : list A) : firstn (Z.to_nat (zlen l)) l = l.
Proof. unfold zlen. rewrite Nat2Z.id. apply firstn_all. Qed.

Lemma zlen_app_one {A} (l : list A) (x : A) : zlen (l ++ [x]) = zlen l + 1.
Proof. rewrite zlen_app. reflexivity. Qed.


Section RepresentsSend.

Variables (d : ringbuf_device) (m : list byte) (pt : Z).
Variables (msgs : list (list byte)) (P : list byte).
Hypothesis Hmap : mapped d m.
Hypothesis Hrep : represents m pt msgs.
Hypothesis Hroom : zlen msgs < RINGBUF_SZ / RINGBUF_MSG_SZ.
Hypothesis Hfit : pt + zlen P <= arena_capacity (zlen m).

Lemma represents_avail : RINGBUF_MSG_SZ <= q_avail m.
Proof.
  destruct Hrep as (Hfmt & _ & Hq & _).
  pose proof (zlen_nonneg msgs).
  change (RINGBUF_SZ / RINGBUF_MSG_SZ) with 32 in Hroom.
  rewrite formatted_avail by (try assumption; rewrite Hq; zsolve).
  rewrite Hq. zsolve.
Qed.

Lemma represents_fit :
  0 <= pt /\ 0 <= zlen P <= zlen P /\
  (zlen P = 0 \/ PAYLOADS_OFF + pt + zlen P <= zlen m) /\
  pt + zlen P < 2 ^ 32.
Proof.
  destruct Hrep as (_ & _ & _ & _ & Hptr & _).
  pose proof (zlen_nonneg P).
  assert (zlen m < 2 ^ 32) by apply Hmap.
  unfold arena_capacity in *. zsolve.
Qed.

(** The region after the send holds the old messages and, behind
    them, the new one. *)
Lemma represents_written :
  represents (written d pt P (zlen P) m) (pt + zlen P) (msgs ++ [P]).
Proof.
  destruct represents_fit as (Hpt & HlenP & Hfit' & Hsum).
  destruct Hrep as (Hfmt & [Hai Hao] & Hq & Hcap & Hptr & Hdel).
  change RINGBUF_MSG_SZ with 16 in *. change (RINGBUF_SZ / 16) with 32 in *.
  pose proof (zlen_nonneg P) as HP0. pose proof (zlen_nonneg msgs) as Hn0.
  pose proof (mapped_size _ _ Hmap) as Hsz.
  set (m' := written d pt P (zlen P) m).
  pose proof (in_from_len m _ Hq) as Hin.
  pose proof (u32_range off_out m) as Hor. fold (q_out m) in Hor.
  assert (Hout' : q_out m' = q_out m) by (now apply (written_out d)).
  split; [now apply (written_formatted d)|].
  split.
  { split.
    - unfold m'. rewrite (written_in d) by assumption.
      apply wrap32_aligned. change RINGBUF_MSG_SZ with 16.
      replace (q_in m + 16) with (q_in m + 16 * 1) by lia.
      now apply add16_aligned.
    - now rewrite Hout'. }
  rewrite zlen_app_one.
  split.
  { unfold m'. rewrite (written_len d) by (try assumption; rewrite Hq; zsolve).
    rewrite Hq. zsolve. }
  split; [change (RINGBUF_SZ / RINGBUF_MSG_SZ) with 32; lia|]. split.
  { unfold m'. rewrite (written_zlen d) by assumption.
    unfold arena_capacity in *. zsolve. }
  rewrite Hout'. apply delivers_app; [assumption| |].
  - apply (delivers_frame
             (fun o => o mod 16 = 0 /\ q_off o <> q_off (q_in m)) m m' pt);
      try assumption; try lia.
    + intros off n Hoff Hn Hle. unfold m'.
      apply (written_payload_other d); try assumption. now left.
    + intros o [Ho Hne]. unfold m'. now apply (written_slot_frame d).
    + intros j Hj. split.
      * apply wrap32_aligned. now apply add16_aligned.
      * rewrite Hin. unfold wrap32 at 1 2.
        rewrite <- (Z.add_0_r ((q_out m + 16 * j) mod 2 ^ 32)).
        rewrite <- (Z.add_0_r ((q_out m + 16 * zlen msgs) mod 2 ^ 32)).
        fold (wrap32 (q_out m + 16 * j)).
        fold (wrap32 (q_out m + 16 * zlen msgs)).
        rewrite !q_off_wrap, !Z.add_0_r.
        apply slot_distinct; lia.
  - rewrite <- Hin. cbn [delivers]. split; [|exact I].
    assert (Hh : slot_header (q_in m) m' = write_hd pt (zlen P)).
    { unfold slot_header, m'. rewrite (written_header d) by assumption.
      apply decode_encode_hd; cbn [write_hd src_qid payload_off payload_len];
        rewrite ?to_ssize_small; try zsolve.
      unfold QEMU_PROCESS_ID. lia. }
    unfold holds. rewrite Hh. cbn [write_hd src_qid payload_off payload_len].
    rewrite to_ssize_small by zsolve.
    split; [reflexivity|]. split; [reflexivity|].
    split; [assumption|]. split; [lia|].
    unfold m'. unfold arena_capacity in *.
    rewrite (written_payload d) by (try assumption; zsolve).
    apply firstn_zlen.
Qed.

(** The send itself, on a queue with room. *)
Lemma send_runs (l : list event) :
  role d = Producer ->
  ringbuf_write P (zlen P) (mk d pt m l)
  = Ok 0 (mk d (pt + zlen P) (written d pt P (zlen P) m)
             (l ++ write_events d pt (zlen P) m)).
Proof.
  intros Hrole.
  destruct represents_fit as (Hpt & HlenP & Hfit' & Hsum).
  pose proof (zlen_nonneg P).
  rewrite ringbuf_write_ok;
    try assumption; try apply represents_avail; try apply Hrep.
  now rewrite wrap32_small by lia.
Qed.

End RepresentsSend.

Section DequeuedSlots.

Variables (d : ringbuf_device) (m : list byte).
Hypothesis Hmap : mapped d m.

(** A receive leaves every slot as it was. *)
Lemma dequeued_slot_frame (o : Z) :
  block_at o 16 (dequeued d m) = block_at o 16 m.
Proof.
  pose proof (q_off_range o). pose proof (q_first_fits o 16).
  destruct (Z.le_gt_cases 16 (q_first o 16)) as [Hge|Hlt].
  - pose proof (q_first_range o 16 ltac:(lia)).
    unfold block_at. rewrite !(dequeued_frame d) by (try assumption; zsolve).
    reflexivity.
  - pose proof (q_first_range o 16 ltac:(lia)).
    unfold block_at. rewrite !(dequeued_frame d) by (try assumption; zsolve).
    reflexivity.
Qed.

End DequeuedSlots.


Section RepresentsRecv.

Variables (d : ringbuf_device) (m : list byte) (pt : Z).
Variables (P : list byte) (rest : list (list byte)).
Hypothesis Hmap : mapped d m.
Hypothesis Hrep : represents m pt (P :: rest).

(** The region after the receive holds the messages behind the
    first. *)
Lemma represents_dequeued : represents (dequeued d m) pt rest.
Proof.
  destruct Hrep as (Hfmt & [Hai Hao] & Hq & Hcap & Hptr & Hdel).
  destruct Hdel as [_ Hrest].
  rewrite zlen_cons in Hq, Hcap.
  change RINGBUF_MSG_SZ with 16 in *. change (RINGBUF_SZ / 16) with 32 in *.
  pose proof (zlen_nonneg rest) as Hn0.
  assert (Hlenq : RINGBUF_MSG_SZ <= q_len m) by zsolve.
  split; [now apply dequeued_formatted|].
  split.
  { split.
    - now rewrite dequeued_in.
    - rewrite dequeued_out by assumption. apply wrap32_aligned.
      change RINGBUF_MSG_SZ with 16.
      replace (q_out m + 16) with (q_out m + 16 * 1) by lia.
      now apply add16_aligned. }
  split.
  { rewrite dequeued_len by assumption. zsolve. }
  split; [change (RINGBUF_SZ / RINGBUF_MSG_SZ) with 32; lia|].
  split.
  { now rewrite dequeued_zlen by assumption. }
  rewrite dequeued_out by assumption. fold (next_pos (q_out m)).
  apply (delivers_frame (fun _ => True) m (dequeued d m) pt);
    try assumption; try lia.
  - intros off n Ho Hn'. intros _. now apply dequeued_payload.
  - intros o _. now apply dequeued_slot_frame.
  - apply next_pos_range.
Qed.

(** The receive itself: it hands out the payload of the first
    message. *)
Lemma recv_runs (ptC : Z) (l : list event) (hd buffer : list byte) (len : Z) :
  role d = Consumer -> zlen hd = RINGBUF_MSG_SZ ->
  0 <= len -> Z.min len (zlen P) <= zlen buffer ->
  exists evs,
    ringbuf_read hd buffer len (mk d ptC m l)
    = Ok (0, received P buffer len) (mk d ptC (dequeued d m) (l ++ evs)).
Proof.
  intros Hrole Hhd Hlen Hbuf.
  destruct Hrep as (Hfmt & [Hai Hao] & Hq & Hcap & Hptr & Hdel).
  destruct Hdel as [(Hsrc & Hpl & Hoff & Hend & Hbytes) _].
  rewrite zlen_cons in Hq, Hcap.
  change RINGBUF_MSG_SZ with 16 in *. change (RINGBUF_SZ / 16) with 32 in *.
  pose proof (zlen_nonneg P) as HP0. pose proof (zlen_nonneg rest) as Hn0.
  pose proof (mapped_size _ _ Hmap) as Hsz.
  assert (H32 : zlen m < 2 ^ 32) by apply Hmap.
  unfold arena_capacity in Hptr. change PAYLOADS_OFF with 1048 in Hptr.
  assert (Hlenq : RINGBUF_MSG_SZ <= q_len m) by zsolve.
  assert (Hh : dequeued_hd d m = slot_header (q_out m) m)
    by (now apply dequeued_hd_bytes).
  set (h := slot_header (q_out m) m) in *.
  assert (Hn : MIN len (payload_len (dequeued_hd d m)) = Z.min len (zlen P)).
  { rewrite Hh, Hpl. apply MIN_small. lia. }
  eexists.
  rewrite read_copy_ok; try assumption; rewrite ?Hn, ?Hh; try zsolve.
  f_equal. f_equal. unfold received.
  assert (Hpay : payload_at (payload_off h) (Z.min len (zlen P)) m
                 = firstn (Z.to_nat (Z.min len (zlen P))) P).
  { unfold payload_at. rewrite (load_prefix _ _ (zlen P)) by lia.
    fold (payload_at (payload_off h) (zlen P) m). now rewrite Hbytes. }
  rewrite Hpay, store_at_start. f_equal. f_equal.
  rewrite length_firstn. unfold zlen in *. lia.
Qed.

End RepresentsRecv.

Lemma send_all_runs (d : ringbuf_device) (msgs : list (list byte)) :
  role d = Producer ->
  forall m pt q l,
    mapped d m -> represents m pt q ->
    zlen q + zlen msgs <= RINGBUF_SZ / RINGBUF_MSG_SZ ->
    pt + total_len msgs <= arena_capacity (zlen m) ->
    exists s',
      send_all msgs (mk d pt m l) = Ok (map (fun _ => 0) msgs) s' /\
      dev s' = d /\ payload_pt s' = pt + total_len msgs /\
      zlen (shm s') = zlen m /\
      represents (shm s') (pt + total_len msgs) (q ++ msgs).
Proof.
  intros Hrole. induction msgs as [|P rest IH]; intros m pt q l Hmap Hrep Hroom Hfit.
  - eexists. split; [reflexivity|]. cbn [total_len fold_right map mk dev payload_pt shm].
    rewrite Z.add_0_r, app_nil_r. auto.
  - rewrite zlen_cons in Hroom.
    change (total_len (P :: rest)) with (zlen P + total_len rest) in *.
    pose proof (zlen_nonneg rest) as Hr. pose proof (zlen_nonneg P) as HP.
    assert (Ht : 0 <= total_len rest).
    { clear. induction rest as [|x r IHr]; [cbn; lia|].
      change (total_len (x :: r)) with (zlen x + total_len r).
      pose proof (zlen_nonneg x). lia. }
    assert (Hroom1 : zlen q < RINGBUF_SZ / RINGBUF_MSG_SZ) by lia.
    assert (Hfit1 : pt + zlen P <= arena_capacity (zlen m)) by lia.
    destruct (represents_fit d m pt q P Hmap Hrep Hfit1) as (Hpt & HlenP & Hfit' & _).
    pose proof (represents_written d m pt q P Hmap Hrep Hroom1 Hfit1) as Hrep'.
    pose proof (written_zlen d m pt P (zlen P) Hmap Hpt HlenP Hfit') as Hz.
    pose proof (mapped_written d m pt P (zlen P) Hmap Hpt HlenP Hfit') as Hmap'.
    destruct (IH (written d pt P (zlen P) m) (pt + zlen P) (q ++ [P])
                (l ++ write_events d pt (zlen P) m) Hmap' Hrep')
      as (s' & Hrun & Hd & Hp & Hz' & Hrep'').
    { rewrite zlen_app_one. lia. }
    { rewrite Hz. lia. }
    exists s'. split.
    { cbn [send_all].
      erewrite bind_Ok by (now apply (send_runs d m pt q P)).
      erewrite bind_Ok by exact Hrun. reflexivity. }
    rewrite <- app_assoc in Hrep''. cbn [app] in Hrep''.
    rewrite <- Z.add_assoc in Hp, Hrep''.
    repeat (split; [first [assumption|congruence]|]). assumption.
Qed.

Lemma receive_n_runs (d : ringbuf_device) (hd buffer : list byte) (len : Z)
  (pt ptC : Z) (msgs : list (list byte)) :
  role d = Consumer -> zlen hd = RINGBUF_MSG_SZ -> 0 <= len <= zlen buffer ->
  forall m l,
    mapped d m -> represents m pt msgs ->
    exists s',
      receive_n (length msgs) hd buffer len (mk d ptC m l)
      = Ok (map (fun P => (0, received P buffer len)) msgs) s' /\
      dev s' = d /\ payload_pt s' = ptC /\ zlen (shm s') = zlen m /\
      represents (shm s') pt [].
Proof.
  intros Hrole Hhd Hlen. induction msgs as [|P rest IH]; intros m l Hmap Hrep.
  - eexists. split; [reflexivity|]. auto.
  - destruct (recv_runs d m pt P rest Hmap Hrep ptC l hd buffer len)
      as (evs & Hrun); try assumption; try lia.
    pose proof (represents_dequeued d m pt P rest Hmap Hrep) as Hrep'.
    pose proof (mapped_dequeued d m Hmap) as Hmap'.
    destruct (IH (dequeued d m) (l ++ evs) Hmap' Hrep')
      as (s' & Hrun' & Hd & Hp & Hz & Hrep'').
    rewrite dequeued_zlen in Hz by assumption.
    exists s'. split; [|auto].
    cbn [length receive_n].
    erewrite bind_Ok by exact Hrun.
    erewrite bind_Ok by exact Hrun'. reflexivity.
Qed.

(** Every region producer and consumer can bring about keeps both
    indices on multiples of the header size. *)
Lemma reachable_aligned dP dC m : reachable dP dC m -> aligned m.
Proof.
  induction 1 as [m [Hfmt [Hi Ho]] HP HC
                 |m pt l buffer len r s' Hr IH Hpt Hlen Hrun
                 |m pt l hd buffer len r s' Hr IH Hhd Hrun].
  - unfold aligned. now rewrite Hi, Ho.
  - destruct (reachable_inv _ _ _ Hr) as (HP & HC & Hfmt & _).
    destruct (ringbuf_write_inv _ _ _ _ _ _ _ _ HP Hfmt Hpt Hlen Hrun)
      as [_ [(-> & _)|(_ & _ & Hle & Hfit & ->)]]; [assumption|].
    cbn [shm mk]. destruct IH as [Hi Ho]. split.
    + rewrite (written_in dP) by (try assumption; lia).
      apply wrap32_aligned. change RINGBUF_MSG_SZ with 16.
      replace (q_in m + 16) with (q_in m + 16 * 1) by lia.
      now apply add16_aligned.
    + now rewrite (written_out dP) by (try assumption; lia).
  - destruct (reachable_inv _ _ _ Hr) as (HP & HC & Hfmt & _).
    destruct r as [r b].
    destruct (ringbuf_read_inv _ _ _ _ _ _ _ _ _ _ HC Hfmt Hhd Hrun)
      as [(_ & _ & ->)|(_ & _ & -> & _)]; [assumption|].
    destruct IH as [Hi Ho]. split.
    + now rewrite dequeued_in.
    + rewrite dequeued_out by assumption. apply wrap32_aligned.
      change RINGBUF_MSG_SZ with 16.
      replace (q_out m + 16) with (q_out m + 16 * 1) by lia.
      now apply add16_aligned.
Qed.

(** A fresh queue holds no message. *)
Lemma fresh_represents (m : list byte) (pt : Z) :
  fresh m -> 0 <= pt <= arena_capacity (zlen m) -> represents m pt [].
Proof.
  intros (Hfmt & Hi & Ho) Hpt.
  split; [assumption|]. split; [unfold aligned; now rewrite Hi, Ho|].
  split; [unfold q_len; now rewrite Hi, Ho|].
  split; [vm_compute; discriminate|]. split; [assumption|exact I].
Qed.

Lemma region0_empty : represents region0 0 [].
Proof.
  apply fresh_represents; [apply scenario_fresh|].
  vm_compute. split; discriminate.
Qed.

(** X1.  A send on a queue that holds the messages [msgs], fewer than
    the 32 that fit, with room for the payload [P] in the payload area,
    returns 0, moves the producer's cursor on by the length of [P], and
    leaves a queue that holds [msgs] followed by [P]: the headers and
    payloads queued before are intact and the new message is last. *)
Theorem send_queues_behind
  (d : ringbuf_device) (pt : Z) (m : list byte) (l : list event)
  (msgs : list (list byte)) (P : list byte) :
  mapped d m -> role d = Producer ->
  represents m pt msgs ->
  zlen msgs < RINGBUF_SZ / RINGBUF_MSG_SZ ->
  pt + zlen P <= arena_capacity (zlen m) ->
  exists s',
    ringbuf_write P (zlen P) (mk d pt m l) = Ok 0 s' /\
    dev s' = d /\ payload_pt s' = pt + zlen P /\
    represents (shm s') (pt + zlen P) (msgs ++ [P]).
Proof.
  intros Hmap Hrole Hrep Hroom Hfit.
  eexists. split; [now apply (send_runs d m pt msgs P)|].
  cbn [dev payload_pt shm mk].
  split; [reflexivity|]. split; [reflexivity|].
  now apply represents_written.
Qed.

Lemma send_queues_behind_witness :
  exists s',
    ringbuf_write hello (zlen hello) (mk devP 0 region0 []) = Ok 0 s' /\
    dev s' = devP /\ payload_pt s' = 0 + zlen hello /\
    represents (shm s') (0 + zlen hello) ([] ++ [hello]).
Proof.
  apply (send_queues_behind devP 0 region0 [] [] hello).
  - apply scenario_fresh.
  - reflexivity.
  - apply region0_empty.
  - vm_compute. reflexivity.
  - vm_compute. discriminate.
Defined.

(** X2.  A receive on a queue that holds [P] followed by [rest]
    returns 0 with the first [min len (length P)] bytes of [P], the
    oldest message, at the start of the caller's buffer and the rest of
    the buffer untouched; the queue then holds exactly [rest], and the
    consumer's own cursor is unchanged. *)
Theorem receive_takes_oldest
  (d : ringbuf_device) (ptC pt : Z) (m : list byte) (l : list event)
  (P : list byte) (rest : list (list byte))
  (hd buffer : list byte) (len : Z) :
  mapped d m -> role d = Consumer ->
  represents m pt (P :: rest) ->
  zlen hd = RINGBUF_MSG_SZ ->
  0 <= len -> Z.min len (zlen P) <= zlen buffer ->
  exists s',
    ringbuf_read hd buffer len (mk d ptC m l)
    = Ok (0, received P buffer len) s' /\
    dev s' = d /\ payload_pt s' = ptC /\
    represents (shm s') pt rest.
Proof.
  intros Hmap Hrole Hrep Hhd Hlen Hbuf.
  destruct (recv_runs d m pt P rest Hmap Hrep ptC l hd buffer len)
    as (evs & Hrun); try assumption.
  eexists. split; [exact Hrun|]. cbn [dev payload_pt shm mk].
  split; [reflexivity|]. split; [reflexivity|].
  now apply (represents_dequeued d m pt P rest).
Qed.

Lemma two_queued_mapped : mapped devC two_queued.
Proof. apply mappedb_ok. vm_compute. reflexivity. Qed.

Lemma two_queued_represents : represents two_queued 10 [hello; world].
Proof.
  change 10 with (5 + zlen world). change [hello; world] with ([hello] ++ [world]).
  assert (HP : mapped devP region0) by apply scenario_fresh.
  assert (H1 : represents (written devP 0 hello 5 region0) 5 [hello]).
  { apply (represents_written devP region0 0 [] hello); try assumption.
    - apply region0_empty.
    - vm_compute. reflexivity.
    - vm_compute. discriminate. }
  apply (represents_written devP _ 5 [hello] world).
  - apply mappedb_ok. vm_compute. reflexivity.
  - exact H1.
  - vm_compute. reflexivity.
  - vm_compute. discriminate.
Qed.

Lemma receive_takes_oldest_witness :
  exists s',
    ringbuf_read stack_hd (dots 16) 3 (mk devC 0 two_queued [])
    = Ok (0, received hello (dots 16) 3) s' /\
    dev s' = devC /\ payload_pt s' = 0 /\
    represents (shm s') 10 [world].
Proof.
  apply (receive_takes_oldest devC 0 10 two_queued [] hello [world]
           stack_hd (dots 16) 3).
  - apply two_queued_mapped.
  - reflexivity.
  - apply two_queued_represents.
  - reflexivity.
  - lia.
  - vm_compute. discriminate.
Defined.

(** X3.  Messages arrive in the order they were sent.  On a queue
    that holds [q], sending the messages [msgs] one after the other
    (as many as still fit, with room for all payloads) returns 0 each
    time; receiving as many times as there are messages then hands out
    the payloads of [q] and then of [msgs], each in its turn, and leaves
    the queue empty. *)
Theorem messages_arrive_in_order
  (dP dC : ringbuf_device) (ptP ptC : Z) (m : list byte)
  (lP lC : list event) (q msgs : list (list byte))
  (hd buffer : list byte) (len : Z) :
  mapped dP m -> mapped dC m ->
  role dP = Producer -> role dC = Consumer ->
  represents m ptP q ->
  zlen q + zlen msgs <= RINGBUF_SZ / RINGBUF_MSG_SZ ->
  ptP + total_len msgs <= arena_capacity (zlen m) ->
  zlen hd = RINGBUF_MSG_SZ -> 0 <= len <= zlen buffer ->
  exists sP,
    send_all msgs (mk dP ptP m lP) = Ok (map (fun _ => 0) msgs) sP /\
    exists sC,
      receive_n (length (q ++ msgs)) hd buffer len (mk dC ptC (shm sP) lC)
      = Ok (map (fun P => (0, received P buffer len)) (q ++ msgs)) sC /\
      q_len (shm sC) = 0.
Proof.
  intros HP HC HroleP HroleC Hrep Hroom Hfit Hhd Hlen.
  destruct (send_all_runs dP msgs HroleP m ptP q lP HP Hrep Hroom Hfit)
    as (sP & Hsend & _ & _ & Hz & Hrep').
  exists sP. split; [exact Hsend|].
  assert (HC' : mapped dC (shm sP)) by (now apply (mapped_same_size dC m)).
  destruct (receive_n_runs dC hd buffer len (ptP + total_len msgs) ptC
              (q ++ msgs) HroleC Hhd Hlen (shm sP) lC HC' Hrep')
    as (sC & Hrecv & _ & _ & _ & Hrep'').
  exists sC. split; [exact Hrecv|].
  destruct Hrep'' as (_ & _ & Hq & _). rewrite Hq. reflexivity.
Qed.

Lemma messages_arrive_in_order_witness :
  exists sP,
    send_all [hello; world] (mk devP 0 region0 [])
    = Ok (map (fun _ => 0) [hello; world]) sP /\
    exists sC,
      receive_n (length ([] ++ [hello; world])) stack_hd (dots 8) 8
        (mk devC 0 (shm sP) [])
      = Ok (map (fun P => (0, received P (dots 8) 8)) ([] ++ [hello; world])) sC /\
      q_len (shm sC) = 0.
Proof.
  apply (messages_arrive_in_order devP devC 0 0 region0 [] [] [] [hello; world]
           stack_hd (dots 8) 8).
  - apply scenario_fresh.
  - apply scenario_fresh.
  - reflexivity.
  - reflexivity.
  - apply region0_empty.
  - vm_compute. discriminate.
  - vm_compute. discriminate.
  - reflexivity.
  - vm_compute. split; discriminate.
Defined.

(** X4.  In every region that sends and receives can bring about from
    a fresh queue both indices are multiples of the header size, so a
    header always lies in one piece of the queue's buffer: the second
    copy of [kfifo_copy_in] and [kfifo_copy_out], the one for a block
    that wraps around the end of the buffer, moves no bytes. *)
Theorem header_never_split (dP dC : ringbuf_device) (m : list byte) :
  reachable dP dC m ->
  q_in m mod RINGBUF_MSG_SZ = 0 /\ q_out m mod RINGBUF_MSG_SZ = 0 /\
  q_first (q_in m) RINGBUF_MSG_SZ = RINGBUF_MSG_SZ /\
  q_first (q_out m) RINGBUF_MSG_SZ = RINGBUF_MSG_SZ /\
  tail_store (RINGBUF_MSG_SZ - q_first (q_in m) RINGBUF_MSG_SZ) = [] /\
  tail_load (RINGBUF_MSG_SZ - q_first (q_out m) RINGBUF_MSG_SZ) = [].
Proof.
  intros Hr. destruct (reachable_aligned _ _ _ Hr) as [Hi Ho].
  change RINGBUF_MSG_SZ with 16 in *.
  rewrite !q_first_aligned by assumption.
  repeat split; assumption.
Qed.

Lemma header_never_split_witness :
  q_in (shm (send_n 1 sP0)) mod RINGBUF_MSG_SZ = 0 /\
  q_out (shm (send_n 1 sP0)) mod RINGBUF_MSG_SZ = 0 /\
  q_first (q_in (shm (send_n 1 sP0))) RINGBUF_MSG_SZ = RINGBUF_MSG_SZ /\
  q_first (q_out (shm (send_n 1 sP0))) RINGBUF_MSG_SZ = RINGBUF_MSG_SZ /\
  tail_store (RINGBUF_MSG_SZ - q_first (q_in (shm (send_n 1 sP0))) RINGBUF_MSG_SZ) = [] /\
  tail_load (RINGBUF_MSG_SZ - q_first (q_out (shm (send_n 1 sP0))) RINGBUF_MSG_SZ) = [].
Proof.
  apply (header_never_split devP devC).
  apply (reach_send devP devC region0 0 (log sP0) [x41] 1 0
           (state_after (ringbuf_write [x41] 1) sP0)).
  - apply reach_fresh; apply scenario_fresh.
  - lia.
  - lia.
  - vm_compute. reflexivity.
Defined.

(* ------------------------------------------------------------------ *)
(** * Sends and receives in any order *)
(* ------------------------------------------------------------------ *)

Lemma represents_full_avail m pt q :
  represents m pt q -> QUEUE_MAX <= zlen q -> q_avail m < RINGBUF_MSG_SZ.
Proof.
  intros (Hfmt & _ & Hq & Hcap & _) Hfull.
  unfold QUEUE_MAX in Hfull. change (RINGBUF_SZ / RINGBUF_MSG_SZ) with 32 in *.
  rewrite formatted_avail by (try assumption; rewrite Hq; zsolve).
  rewrite Hq. zsolve.
Qed.

Lemma represents_empty_len m pt : represents m pt [] -> q_len m < RINGBUF_MSG_SZ.
Proof.
  intros (_ & _ & Hq & _). rewrite Hq. vm_compute. reflexivity.
Qed.

Section Refinement.

Variables (dP dC : ringbuf_device) (hd buffer : list byte) (len : Z).
Hypothesis HroleP : role dP = Producer.
Hypothesis HroleC : role dC = Consumer.
Hypothesis Hhd : zlen hd = RINGBUF_MSG_SZ.
Hypothesis Hlen : 0 <= len <= zlen buffer.

Lemma run_ops_refines (ops : list op) :
  forall pt m q,
    mapped dP m -> mapped dC m -> represents m pt q ->
    arena_fits (arena_capacity (zlen m)) ops (zlen q) pt ->
    exists pt' m',
      run_ops dP dC hd buffer len ops pt m
      = Some (fst (queue_ops buffer len ops q), pt', m') /\
      zlen m' = zlen m /\
      represents m' pt' (snd (queue_ops buffer len ops q)).
Proof.
  induction ops as [|o rest IH]; intros pt m q HP HC Hrep Hfits.
  - do 2 eexists. split; [reflexivity|]. split; [reflexivity|exact Hrep].
  - destruct o as [P|].
    + cbn [run_ops queue_ops arena_fits] in *.
      destruct (Z.leb_spec QUEUE_MAX (zlen q)) as [Hfull|Hroom].
      * rewrite (write_refused_full P (zlen P) dP pt m [] HP HroleP
                   (represents_full_avail m pt q Hrep Hfull)).
        cbn [payload_pt shm mk].
        destruct (IH pt m q HP HC Hrep Hfits) as (pt' & m' & Hrun & Hz & Hrep').
        rewrite Hrun. destruct (queue_ops buffer len rest q) as [outs qf].
        cbn [fst snd] in *. do 2 eexists. split; [reflexivity|]. auto.
      * destruct Hfits as [Hfit Hfits]. unfold QUEUE_MAX in Hroom.
        rewrite (send_runs dP m pt q P HP Hrep Hroom Hfit [] HroleP).
        cbn [payload_pt shm mk].
        destruct (represents_fit dP m pt q P HP Hrep Hfit)
          as (Hpt & HlenP & Hfit' & _).
        pose proof (represents_written dP m pt q P HP Hrep Hroom Hfit) as Hrep1.
        pose proof (written_zlen dP m pt P (zlen P) HP Hpt HlenP Hfit') as Hz1.
        assert (HP1 : mapped dP (written dP pt P (zlen P) m))
          by (now apply (mapped_same_size dP m)).
        assert (HC1 : mapped dC (written dP pt P (zlen P) m))
          by (now apply (mapped_same_size dC m)).
        destruct (IH (pt + zlen P) _ (q ++ [P]) HP1 HC1 Hrep1)
          as (pt' & m' & Hrun & Hz & Hrep').
        { rewrite Hz1, zlen_app_one. exact Hfits. }
        rewrite Hrun. destruct (queue_ops buffer len rest (q ++ [P])) as [outs qf].
        cbn [fst snd] in *. do 2 eexists. split; [reflexivity|].
        split; [congruence|assumption].
    + cbn [run_ops queue_ops arena_fits] in *.
      destruct q as [|P q'].
      * rewrite (read_refused_empty hd buffer len dC 0 m [] HC HroleC
                   (represents_empty_len m pt Hrep)).
        cbn [shm mk].
        destruct (IH pt m [] HP HC Hrep Hfits) as (pt' & m' & Hrun & Hz & Hrep').
        rewrite Hrun. destruct (queue_ops buffer len rest []) as [outs qf].
        cbn [fst snd] in *. do 2 eexists. split; [reflexivity|]. auto.
      * pose proof (zlen_nonneg P) as HP0.
        destruct (recv_runs dC m pt P q' HC Hrep 0 [] hd buffer len
                    HroleC Hhd ltac:(lia) ltac:(lia)) as (evs & Hrun1).
        rewrite Hrun1. cbn [shm mk].
        pose proof (represents_dequeued dC m pt P q' HC Hrep) as Hrep1.
        pose proof (dequeued_zlen dC m HC) as Hz1.
        assert (HP1 : mapped dP (dequeued dC m))
          by (now apply (mapped_same_size dP m)).
        assert (HC1 : mapped dC (dequeued dC m))
          by (now apply (mapped_same_size dC m)).
        destruct (IH pt _ q' HP1 HC1 Hrep1) as (pt' & m' & Hrun & Hz & Hrep').
        { rewrite Hz1. rewrite zlen_cons in Hfits.
          pose proof (zlen_nonneg q').
          now replace (Z.max 0 (zlen q' + 1 - 1)) with (zlen q') in Hfits by lia. }
        rewrite Hrun. destruct (queue_ops buffer len rest q') as [outs qf].
        cbn [fst snd] in *. do 2 eexists. split; [reflexivity|].
        split; [congruence|assumption].
Qed.

End Refinement.

(** X5.  Under any interleaving of sends and receives the driver
    behaves as a queue of at most 32 messages.  Started on a region that
    holds the messages [q], with room in the payload area for the
    payloads that are taken, every call returns, a send returns 0 and
    appends its message unless 32 are queued, in which case the message
    is dropped, and a receive returns 0 with the oldest message copied
    to the caller's buffer, or with the buffer untouched when nothing is
    queued.  The region at the end holds exactly the messages the
    queue holds. *)
Theorem driver_refines_bounded_queue
  (dP dC : ringbuf_device) (hd buffer : list byte) (len : Z)
  (ops : list op) (pt : Z) (m : list byte) (q : list (list byte)) :
  role dP = Producer -> role dC = Consumer ->
  zlen hd = RINGBUF_MSG_SZ -> 0 <= len <= zlen buffer ->
  mapped dP m -> mapped dC m -> represents m pt q ->
  arena_fits (arena_capacity (zlen m)) ops (zlen q) pt ->
  exists pt' m',
    run_ops dP dC hd buffer len ops pt m
    = Some (fst (queue_ops buffer len ops q), pt', m') /\
    represents m' pt' (snd (queue_ops buffer len ops q)).
Proof.
  intros HroleP HroleC Hhd Hlen HP HC Hrep Hfits.
  destruct (run_ops_refines dP dC hd buffer len HroleP HroleC Hhd Hlen ops
              pt m q HP HC Hrep Hfits) as (pt' & m' & Hrun & _ & Hrep').
  eauto.
Qed.

Lemma driver_refines_bounded_queue_witness :
  exists pt' m',
    run_ops devP devC stack_hd (dots 8) 8
      [Receive; Send hello; Send world; Receive; Send hi_msg; Receive; Receive;
       Receive] 0 region0
    = Some (fst (queue_ops (dots 8) 8
                   [Receive; Send hello; Send world; Receive; Send hi_msg;
                    Receive; Receive; Receive] []), pt', m') /\
    represents m' pt'
      (snd (queue_ops (dots 8) 8
              [Receive; Send hello; Send world; Receive; Send hi_msg;
               Receive; Receive; Receive] [])).
Proof.
  apply (driver_refines_bounded_queue devP devC stack_hd (dots 8) 8
           [Receive; Send hello; Send world; Receive; Send hi_msg; Receive;
            Receive; Receive] 0 region0 []).
  - reflexivity.
  - reflexivity.
  - reflexivity.
  - vm_compute. split; discriminate.
  - apply scenario_fresh.
  - apply scenario_fresh.
  - apply region0_empty.
  - vm_compute. repeat split; discriminate.
Defined.

(* ------------------------------------------------------------------ *)
(** * The payload area over time *)
(* ------------------------------------------------------------------ *)

Lemma total_len_nonneg (msgs : list (list byte)) : 0 <= total_len msgs.
Proof.
  induction msgs as [|x r IH]; [cbn; lia|].
  change (total_len (x :: r)) with (zlen x + total_len r).
  pose proof (zlen_nonneg x). lia.
Qed.

(** X6.  The payload area is never reclaimed.  After the producer
    has sent messages and the consumer has received them all, the queue
    is empty but the producer's cursor still stands behind the last
    payload: a further send whose payload does not fit behind the
    cursor leaves the region, even though no message is outstanding. *)
Theorem payload_area_is_never_reclaimed
  (dP dC : ringbuf_device) (ptP ptC : Z) (m : list byte)
  (lP lC l' : list event) (msgs : list (list byte))
  (hd buffer : list byte) (len : Z) (P : list byte) :
  mapped dP m -> mapped dC m ->
  role dP = Producer -> role dC = Consumer ->
  represents m ptP [] ->
  zlen msgs <= RINGBUF_SZ / RINGBUF_MSG_SZ ->
  ptP + total_len msgs <= arena_capacity (zlen m) ->
  zlen hd = RINGBUF_MSG_SZ -> 0 <= len <= zlen buffer ->
  0 < zlen P ->
  arena_capacity (zlen m) < ptP + total_len msgs + zlen P ->
  exists sP sC rs,
    send_all msgs (mk dP ptP m lP) = Ok (map (fun _ => 0) msgs) sP /\
    receive_n (length msgs) hd buffer len (mk dC ptC (shm sP) lC) = Ok rs sC /\
    q_len (shm sC) = 0 /\
    payload_pt sP = ptP + total_len msgs /\
    ringbuf_write P (zlen P) (mk dP (payload_pt sP) (shm sC) l')
    = Fault (OutOfRegion (payloads_st dP + payload_pt sP) (zlen P)).
Proof.
  intros HP HC HroleP HroleC Hrep Hroom Hfit Hhd Hlen HPpos Hover.
  assert (Hroom' : zlen (@nil (list byte)) + zlen msgs
                   <= RINGBUF_SZ / RINGBUF_MSG_SZ).
  { change (zlen (@nil (list byte))) with 0. lia. }
  destruct (send_all_runs dP msgs HroleP m ptP [] lP HP Hrep Hroom' Hfit)
    as (sP & Hsend & _ & Hpt & Hz & Hrep').
  cbn [app] in Hrep'.
  assert (HC' : mapped dC (shm sP)) by (now apply (mapped_same_size dC m)).
  destruct (receive_n_runs dC hd buffer len (ptP + total_len msgs) ptC
              msgs HroleC Hhd Hlen (shm sP) lC HC' Hrep')
    as (sC & Hrecv & _ & _ & Hz' & Hrep'').
  exists sP, sC. eexists. split; [exact Hsend|]. split; [exact Hrecv|].
  assert (HPm : mapped dP (shm sC)).
  { apply (mapped_same_size dP m); [assumption|congruence]. }
  split; [destruct Hrep'' as (_ & _ & Hq & _); rewrite Hq; reflexivity|].
  split; [exact Hpt|].
  rewrite Hpt.
  pose proof (total_len_nonneg msgs).
  apply ringbuf_write_overrun; try assumption.
  - apply (represents_avail (shm sC) (ptP + total_len msgs) []); [assumption|].
    vm_compute. reflexivity.
  - destruct Hrep as (_ & _ & _ & _ & Hb & _). lia.
  - lia.
  - unfold arena_capacity in Hover. rewrite Hz', Hz. lia.
Qed.

Lemma payload_area_is_never_reclaimed_witness :
  exists sP sC rs,
    send_all [dots 60] (mk devP 0 region0 [])
    = Ok (map (fun _ => 0) [dots 60]) sP /\
    receive_n (length [dots 60]) stack_hd (dots 64) 64
      (mk devC 0 (shm sP) []) = Ok rs sC /\
    q_len (shm sC) = 0 /\
    payload_pt sP = 0 + total_len [dots 60] /\
    ringbuf_write hello (zlen hello) (mk devP (payload_pt sP) (shm sC) [])
    = Fault (OutOfRegion (payloads_st devP + payload_pt sP) (zlen hello)).
Proof.
  apply (payload_area_is_never_reclaimed devP devC 0 0 region0 [] [] []
           [dots 60] stack_hd (dots 64) 64 hello).
  - apply scenario_fresh.
  - apply scenario_fresh.
  - reflexivity.
  - reflexivity.
  - apply region0_empty.
  - vm_compute. discriminate.
  - vm_compute. discriminate.
  - reflexivity.
  - vm_compute. split; discriminate.
  - vm_compute. reflexivity.
  - vm_compute. reflexivity.
Defined.

(* ------------------------------------------------------------------ *)
(** * Closing and sending again *)
(* ------------------------------------------------------------------ *)

(** X7.  Closing the device and sending again overwrites a message
    that is still queued.  [ringbuf_release] sets the cursor to 0 and
    leaves the queue as it is; when the oldest queued message [P] has
    its payload at offset 0, the next send of a payload [P'] that is at
    least as long is taken and stored over it, and the receive that
    follows hands out the first bytes of [P'] as the message [P]. *)
Theorem reopen_overwrites_queued_message
  (dP dC : ringbuf_device) (pt ptC : Z) (m : list byte)
  (lP lC : list event) (P P' : list byte) (rest : list (list byte))
  (hd buffer : list byte) (len : Z) :
  mapped dP m -> mapped dC m ->
  role dP = Producer -> role dC = Consumer ->
  represents m pt (P :: rest) ->
  payload_off (slot_header (q_out m) m) = 0 ->
  zlen (P :: rest) < RINGBUF_SZ / RINGBUF_MSG_SZ ->
  zlen P <= zlen P' -> zlen P' <= arena_capacity (zlen m) ->
  zlen hd = RINGBUF_MSG_SZ ->
  0 <= len -> Z.min len (zlen P) <= zlen buffer ->
  exists sR sP sC,
    ringbuf_release (mk dP pt m lP) = Ok 0 sR /\
    payload_pt sR = 0 /\
    ringbuf_write P' (zlen P') sR = Ok 0 sP /\
    ringbuf_read hd buffer len (mk dC ptC (shm sP) lC)
    = Ok (0, received (firstn (Z.to_nat (zlen P)) P') buffer len) sC.
Proof.
  intros HP HC HroleP HroleC Hrep Hoff Hroom Hle Hcap Hhd Hlen Hbuf.
  pose proof (zlen_nonneg P) as HP0. pose proof (zlen_nonneg P') as HP'0.
  pose proof (zlen_nonneg rest) as Hr0.
  pose proof (mapped_size _ _ HP) as Hsz.
  assert (H32 : zlen m < 2 ^ 32) by apply HP.
  assert (Hf : (fifo_addr dP =? 0) = false).
  { destruct HP as (Hb & Hf & _). lia. }
  destruct Hrep as (Hfmt & [Hai Hao] & Hq & Hn & Hptr & Hdel).
  destruct Hdel as [(Hsrc & Hpl & _ & Hend & Hbytes) _].
  rewrite Hoff in *.
  rewrite zlen_cons in *.
  change RINGBUF_MSG_SZ with 16 in *. change (RINGBUF_SZ / 16) with 32 in *.
  unfold arena_capacity in *. change PAYLOADS_OFF with 1048 in *.
  assert (Hav : RINGBUF_MSG_SZ <= q_avail m).
  { rewrite formatted_avail by (try assumption; rewrite Hq; zsolve).
    rewrite Hq. zsolve. }
  assert (HlenP' : 0 <= zlen P' <= zlen P') by lia.
  assert (Hfit' : zlen P' = 0 \/ PAYLOADS_OFF + 0 + zlen P' <= zlen m)
    by zsolve.
  set (m' := written dP 0 P' (zlen P') m).
  assert (Hz' : zlen m' = zlen m) by (now apply (written_zlen dP)).
  assert (HC' : mapped dC m') by (now apply (mapped_same_size dC m)).
  assert (Hfmt' : formatted m') by (now apply (written_formatted dP)).
  assert (Hout' : q_out m' = q_out m) by (now apply (written_out dP)).
  assert (Hq' : RINGBUF_MSG_SZ <= q_len m').
  { unfold m'. rewrite (written_len dP) by (try assumption; rewrite ?Hq; zsolve).
    rewrite Hq. zsolve. }
  pose proof (in_from_len m _ Hq) as Hin.
  assert (Hslot : slot_header (q_out m') m' = slot_header (q_out m) m).
  { rewrite Hout'. unfold slot_header. f_equal. change RINGBUF_MSG_SZ with 16.
    unfold m'. apply (written_slot_frame dP); try assumption; try lia.
    rewrite Hin. unfold wrap32.
    rewrite <- (Z.add_0_r ((q_out m + 16 * (zlen rest + 1)) mod 2 ^ 32)).
    fold (wrap32 (q_out m + 16 * (zlen rest + 1))).
    rewrite q_off_wrap, Z.add_0_r.
    replace (q_out m) with (q_out m + 16 * 0) at 1 by lia.
    apply slot_distinct; lia. }
  assert (Hh : dequeued_hd dC m' = slot_header (q_out m) m).
  { rewrite dequeued_hd_bytes by assumption. exact Hslot. }
  assert (Hmin : MIN len (payload_len (dequeued_hd dC m')) = Z.min len (zlen P)).
  { rewrite Hh, Hpl. apply MIN_small. lia. }
  do 3 eexists. split; [apply ringbuf_release_ok|].
  rewrite Hf. cbn [payload_pt mk].
  split; [reflexivity|]. split.
  { rewrite ringbuf_write_ok by (try assumption; lia). reflexivity. }
  cbn [shm mk]. fold m'.
  rewrite read_copy_ok; try assumption;
    rewrite ?Hmin, ?Hh, ?Hoff; try assumption; try zsolve.
  f_equal. f_equal. unfold received.
  assert (HlP : zlen (firstn (Z.to_nat (zlen P)) P') = zlen P)
    by (apply zlen_firstn; lia).
  rewrite HlP.
  assert (Hpay : payload_at 0 (Z.min len (zlen P)) m'
                 = firstn (Z.to_nat (Z.min len (zlen P)))
                     (firstn (Z.to_nat (zlen P)) P')).
  { unfold payload_at. rewrite (load_prefix _ _ (zlen P')) by lia.
    fold (payload_at 0 (zlen P') m'). unfold m'.
    rewrite (written_payload dP) by (try assumption; zsolve).
    rewrite firstn_zlen, firstn_firstn. f_equal. lia. }
  rewrite Hpay, store_at_start. f_equal. f_equal.
  rewrite !length_firstn. unfold zlen in *. lia.
Qed.

Lemma reopen_overwrites_queued_message_witness :
  exists sR sP sC,
    ringbuf_release (mk devP 5 (written devP 0 hello 5 region0) []) = Ok 0 sR /\
    payload_pt sR = 0 /\
    ringbuf_write world (zlen world) sR = Ok 0 sP /\
    ringbuf_read stack_hd (dots 8) 8 (mk devC 0 (shm sP) [])
    = Ok (0, received (firstn (Z.to_nat (zlen hello)) world) (dots 8) 8) sC.
Proof.
  apply (reopen_overwrites_queued_message devP devC 5 0
           (written devP 0 hello 5 region0) [] [] hello world []
           stack_hd (dots 8) 8).
  - apply mappedb_ok. vm_compute. reflexivity.
  - apply mappedb_ok. vm_compute. reflexivity.
  - reflexivity.
  - reflexivity.
  - change 5 with (0 + zlen hello). change [hello] with ([] ++ [hello]).
    apply (represents_written devP region0 0 [] hello).
    + apply scenario_fresh.
    + apply region0_empty.
    + vm_compute. reflexivity.
    + vm_compute. discriminate.
  - vm_compute. reflexivity.
  - vm_compute. reflexivity.
  - vm_compute. discriminate.
  - vm_compute. discriminate.
  - reflexivity.
  - lia.
  - vm_compute. discriminate.
Defined.

(* ------------------------------------------------------------------ *)
(** * Outcomes and footprints of a call *)
(* ------------------------------------------------------------------ *)

(** A send that is taken and returns has run to its end. *)
Lemma write_accepted_inv d pt m l buffer len r s' :
  mapped d m -> formatted m -> 0 <= pt -> 0 <= len ->
  role d = Producer -> RINGBUF_MSG_SZ <= q_avail m ->
  ringbuf_write buffer len (mk d pt m l) = Ok r s' ->
  len <= zlen buffer /\
  (len = 0 \/ PAYLOADS_OFF + pt + len <= zlen m) /\
  r = 0 /\
  s' = mk d (wrap32 (pt + len)) (written d pt buffer len m)
          (l ++ write_events d pt len m).
Proof.
  intros Hmap Hfmt Hpt Hlen Hrole Hav Hrun.
  destruct (Z.lt_ge_cases (zlen buffer) len) as [Hshort|Hfits].
  { rewrite write_short_buffer in Hrun by assumption. discriminate. }
  destruct (Z.eq_dec len 0) as [Hz|Hnz].
  - rewrite ringbuf_write_ok in Hrun by (try assumption; lia).
    inversion Hrun. auto.
  - destruct (Z.lt_ge_cases (zlen m) (PAYLOADS_OFF + pt + len)) as [Hover|Hin].
    { rewrite ringbuf_write_overrun in Hrun by (try assumption; lia).
      discriminate. }
    rewrite ringbuf_write_ok in Hrun by (try assumption; lia).
    inversion Hrun. auto.
Qed.

Lemma accepted_spec d m :
  accepted d m = true <-> role d = Producer /\ RINGBUF_MSG_SZ <= q_avail m.
Proof. unfold accepted. rewrite andb_true_iff. lia. Qed.

(** A refused send leaves everything but the log as it was. *)
Lemma write_refused_inv d pt m l buffer len r s' :
  mapped d m -> accepted d m = false ->
  ringbuf_write buffer len (mk d pt m l) = Ok r s' ->
  r = 0 /\ dev s' = d /\ shm s' = m /\ payload_pt s' = pt /\
  (log s' = l \/ log s' = l ++ guard_events).
Proof.
  intros Hmap Hacc Hrun.
  destruct (Z.eq_dec (role d) Producer) as [Hrole|Hrole].
  - assert (Hav : q_avail m < RINGBUF_MSG_SZ).
    { unfold accepted in Hacc. rewrite andb_false_iff in Hacc. lia. }
    rewrite write_refused_full in Hrun by assumption.
    inversion Hrun; subst. cbn. auto 10.
  - rewrite write_refused_role in Hrun by exact Hrole.
    inversion Hrun; subst. cbn. auto 10.
Qed.

Lemma written_differs d m pt buffer len :
  mapped d m -> 0 <= pt -> 0 <= len <= zlen buffer ->
  len = 0 \/ PAYLOADS_OFF + pt + len <= zlen m ->
  written d pt buffer len m <> m.
Proof.
  intros Hmap Hpt Hlen Hfit Heq.
  pose proof (written_in d m pt buffer len Hmap Hpt Hlen Hfit) as Hin.
  rewrite Heq in Hin.
  pose proof (u32_range off_in m) as Hr. fold (q_in m) in Hr.
  unfold wrap32 in Hin. change RINGBUF_MSG_SZ with 16 in Hin.
  pose proof (Z.div_mod (q_in m + 16) (2 ^ 32) ltac:(lia)).
  pose proof (Z.mod_pos_bound (q_in m + 16) (2 ^ 32) ltac:(lia)).
  lia.
Qed.

(** X8.  The return value of a send tells nothing.  On a formatted
    queue every send that returns returns 0, never [-EFAULT]: when the
    caller is the producer and 16 bytes are free the message is queued
    and the cursor moves on, otherwise region and cursor stay as they
    were, and the caller gets the same 0 in both cases. *)
Theorem send_returns_zero
  (d : ringbuf_device) (pt : Z) (m : list byte) (l : list event)
  (buffer : list byte) (len r : Z) (s' : kstate) :
  mapped d m -> formatted m -> 0 <= pt -> 0 <= len ->
  ringbuf_write buffer len (mk d pt m l) = Ok r s' ->
  r = 0 /\
  (accepted d m = true ->
     shm s' = written d pt buffer len m /\ shm s' <> m /\
     payload_pt s' = wrap32 (pt + len)) /\
  (accepted d m = false -> shm s' = m /\ payload_pt s' = pt).
Proof.
  intros Hmap Hfmt Hpt Hlen Hrun.
  destruct (accepted d m) eqn:Hacc.
  - apply accepted_spec in Hacc as [Hrole Hav].
    destruct (write_accepted_inv _ _ _ _ _ _ _ _ Hmap Hfmt Hpt Hlen Hrole Hav Hrun)
      as (Hle & Hfit & -> & ->).
    cbn [shm payload_pt mk].
    split; [reflexivity|]. split; [|discriminate].
    intros _. split; [reflexivity|]. split; [|reflexivity].
    apply written_differs; try assumption. lia.
  - destruct (write_refused_inv _ _ _ _ _ _ _ _ Hmap Hacc Hrun)
      as (-> & _ & Hs & Hp & _).
    split; [reflexivity|]. split; [discriminate|]. auto.
Qed.

Lemma send_returns_zero_witness :
  0 = 0 /\
  (accepted devP (shm (send_n 32 sP0)) = true ->
     shm (send_n 33 sP0)
     = written devP (payload_pt (send_n 32 sP0)) [x41] 1 (shm (send_n 32 sP0)) /\
     shm (send_n 33 sP0) <> shm (send_n 32 sP0) /\
     payload_pt (send_n 33 sP0) = wrap32 (payload_pt (send_n 32 sP0) + 1)) /\
  (accepted devP (shm (send_n 32 sP0)) = false ->
     shm (send_n 33 sP0) = shm (send_n 32 sP0) /\
     payload_pt (send_n 33 sP0) = payload_pt (send_n 32 sP0)).
Proof.
  apply (send_returns_zero devP (payload_pt (send_n 32 sP0))
           (shm (send_n 32 sP0)) (log (send_n 32 sP0)) [x41] 1 0
           (send_n 33 sP0)).
  - apply mappedb_ok. vm_compute. reflexivity.
  - apply formattedb_ok. vm_compute. reflexivity.
  - vm_compute. discriminate.
  - lia.
  - vm_compute. reflexivity.
Defined.

Section EmitsOnly.

Variable P : event -> bool.

Lemma emits_ret {A} (a : A) : emits_only P (ret a).
Proof.
  intros s x s' H. inversion H; subst. exists []. now rewrite app_nil_r.
Qed.

Lemma emits_raise {A} (e : fault) : emits_only P (@raise A e).
Proof. intros s x s' H. discriminate. Qed.

Lemma emits_bind {A B} (c : M A) (k : A -> M B) :
  emits_only P c -> (forall a, emits_only P (k a)) -> emits_only P (bind c k).
Proof.
  intros Hc Hk s b s' H. unfold bind in H.
  destruct (c s) as [a s1|] eqn:E; [|discriminate].
  destruct (Hc _ _ _ E) as (e1 & L1 & F1).
  destruct (Hk a _ _ _ H) as (e2 & L2 & F2).
  exists (e1 ++ e2). rewrite L2, L1, app_assoc. split; [reflexivity|].
  rewrite forallb_app, F1, F2. reflexivity.
Qed.

Lemma emits_get_dev : emits_only P get_dev.
Proof.
  intros s x s' H. inversion H; subst. exists []. now rewrite app_nil_r.
Qed.

Lemma emits_get_payload_pt : emits_only P get_payload_pt.
Proof.
  intros s x s' H. inversion H; subst. exists []. now rewrite app_nil_r.
Qed.

Lemma emits_set_payload_pt v : emits_only P (set_payload_pt v).
Proof.
  intros s x s' H. inversion H; subst. exists []. cbn. now rewrite app_nil_r.
Qed.

Lemma emits_emit (e : event) : P e = true -> emits_only P (emit e).
Proof.
  intros He s x s' H. inversion H; subst. exists [e]. cbn.
  now rewrite He.
Qed.

Lemma emits_shm_load (a n : Z) :
  (forall o k, P (EvLoad o k) = true) -> emits_only P (shm_load a n).
Proof.
  intros HP s x s' H. unfold shm_load in H.
  destruct (n <=? 0).
  - inversion H; subst. exists []. now rewrite app_nil_r.
  - destruct (in_region s a n); [|discriminate].
    inversion H; subst. eexists. split; [reflexivity|]. cbn. now rewrite HP.
Qed.

Lemma emits_shm_store (a : Z) (bs : list byte) :
  (forall o k, P (EvStore o k) = true) -> emits_only P (shm_store a bs).
Proof.
  intros HP s x s' H. unfold shm_store in H.
  destruct (zlen bs <=? 0).
  - inversion H; subst. exists []. now rewrite app_nil_r.
  - destruct (in_region s a (zlen bs)); [|discriminate].
    inversion H; subst. eexists. split; [reflexivity|]. cbn. now rewrite HP.
Qed.

End EmitsOnly.

Ltac emits_step :=
  first
    [ apply emits_ret | apply emits_raise | apply emits_get_dev
    | apply emits_get_payload_pt | apply emits_set_payload_pt
    | apply emits_emit; reflexivity
    | apply emits_shm_load; reflexivity
    | apply emits_shm_store; reflexivity
    | apply emits_bind; [|intros ?]
    | match goal with
      | |- emits_only _ (if ?b then _ else _) => destruct b
      | |- emits_only _ (match ?x with (_, _) => _ end) => destruct x
      end ].

(** A receive touches no register: whatever the state of the device
    and of the region, none of its events is a doorbell write. *)
Lemma ringbuf_read_quiet hd buffer len :
  emits_only (fun e => negb (is_doorbell e)) (ringbuf_read hd buffer len).
Proof.
  unfold ringbuf_read, kfifo_len, kfifo_out, kfifo_copy_out, store_ptr,
    load_u32, load_ptr, memcpy_from_shm, mb, rmb, smp_wmb.
  repeat emits_step.
Qed.

Lemma filter_doorbell_write_events d pt len m :
  filter is_doorbell (write_events d pt len m)
  = [EvWritel 1 (regs_addr d + DOORBELL_REG_OFF)].
Proof.
  unfold write_events, publish_events, in_events, copy_in_events,
    payload_store_events, tail_store, guard_events.
  rewrite !filter_app.
  destruct (len <=? 0); destruct (_ - _ <=? 0); reflexivity.
Qed.

(** X9.  The doorbell.  A send that is taken writes the doorbell
    register exactly once, and the value is the constant 1 whatever the
    IVPosition of either side; a send that is refused does not write
    it.  A receive never writes it, whatever the state of the device
    and of the region. *)
Theorem doorbell_once_per_accepted_send :
  (forall d pt m l buffer len r s',
      mapped d m -> formatted m -> 0 <= pt -> 0 <= len ->
      ringbuf_write buffer len (mk d pt m l) = Ok r s' ->
      exists evs,
        log s' = l ++ evs /\
        filter is_doorbell evs
        = if accepted d m
          then [EvWritel 1 (regs_addr d + DOORBELL_REG_OFF)] else []) /\
  (forall hd buffer len s r s',
      ringbuf_read hd buffer len s = Ok r s' ->
      exists evs,
        log s' = log s ++ evs /\ filter is_doorbell evs = []).
Proof.
  split.
  - intros d pt m l buffer len r s' Hmap Hfmt Hpt Hlen Hrun.
    destruct (accepted d m) eqn:Hacc.
    + apply accepted_spec in Hacc as [Hrole Hav].
      destruct (write_accepted_inv _ _ _ _ _ _ _ _ Hmap Hfmt Hpt Hlen Hrole Hav Hrun)
        as (_ & _ & _ & ->).
      eexists. split; [reflexivity|]. apply filter_doorbell_write_events.
    + destruct (write_refused_inv _ _ _ _ _ _ _ _ Hmap Hacc Hrun)
        as (_ & _ & _ & _ & [Hl|Hl]).
      * exists []. now rewrite app_nil_r.
      * exists guard_events. split; [assumption|reflexivity].
  - intros hd buffer len s r s' Hrun.
    destruct (ringbuf_read_quiet hd buffer len _ _ _ Hrun) as (evs & Hl & Hq).
    exists evs. split; [assumption|].
    clear Hl. induction evs as [|e evs IH]; [reflexivity|].
    cbn in Hq. apply andb_true_iff in Hq as [He Hq].
    cbn. destruct (is_doorbell e); [discriminate|]. now apply IH.
Qed.

Lemma doorbell_once_per_accepted_send_witness :
  exists evs,
    log (state_after (ringbuf_write hello 5) sP0) = log sP0 ++ evs /\
    filter is_doorbell evs
    = if accepted devP region0
      then [EvWritel 1 (regs_addr devP + DOORBELL_REG_OFF)] else [].
Proof.
  destruct doorbell_once_per_accepted_send as [H _].
  apply (H devP 0 region0 (log sP0) hello 5 0
           (state_after (ringbuf_write hello 5) sP0)).
  - apply scenario_fresh.
  - apply scenario_fresh.
  - lia.
  - lia.
  - vm_compute. reflexivity.
Defined.

(** X10.  A receive writes nothing but the [out] index and the [data]
    pointer of the queue: after any receive that returns, the region
    has its length and every byte outside [out] (bytes 4 to 7) and
    [data] (bytes 16 to 23) is as before.  In particular the [in]
    index, the headers in the queue's buffer and the payload bytes are
    left in place, also those of the message just received. *)
Theorem receive_writes_out_and_data_only
  (d : ringbuf_device) (pt : Z) (m : list byte) (l : list event)
  (hd buffer : list byte) (len : Z) (r : Z * list byte) (s' : kstate) :
  mapped d m -> formatted m -> zlen hd = RINGBUF_MSG_SZ ->
  ringbuf_read hd buffer len (mk d pt m l) = Ok r s' ->
  zlen (shm s') = zlen m /\
  forall o n,
    0 <= o -> 0 <= n ->
    o + n <= off_out \/ (off_mask <= o /\ o + n <= off_data) \/
    KFIFO_BUF_OFF <= o ->
    load_bytes o n (shm s') = load_bytes o n m.
Proof.
  intros Hmap Hfmt Hhd Hrun. destruct r as [r b].
  destruct (ringbuf_read_inv _ _ _ _ _ _ _ _ _ _ Hmap Hfmt Hhd Hrun)
    as [(_ & _ & ->)|(_ & _ & -> & _)].
  - split; [reflexivity|]. reflexivity.
  - split; [now apply dequeued_zlen|].
    intros o n Ho Hn Hdis. apply dequeued_frame; try assumption. tauto.
Qed.

Lemma receive_writes_out_and_data_only_witness :
  zlen (shm (state_after (ringbuf_read stack_hd (dots 16) 16)
               (mk devC 0 two_queued [])))
  = zlen two_queued /\
  forall o n,
    0 <= o -> 0 <= n ->
    o + n <= off_out \/ (off_mask <= o /\ o + n <= off_data) \/
    KFIFO_BUF_OFF <= o ->
    load_bytes o n (shm (state_after (ringbuf_read stack_hd (dots 16) 16)
                           (mk devC 0 two_queued [])))
    = load_bytes o n two_queued.
Proof.
  apply (receive_writes_out_and_data_only devC 0 two_queued [] stack_hd
           (dots 16) 16 (0, hello ++ dots 11)).
  - apply two_queued_mapped.
  - apply formattedb_ok. vm_compute. reflexivity.
  - reflexivity.
  - vm_compute. reflexivity.
Defined.

(** X11.  A send leaves alone what belongs to others: after any send
    that returns, on a queue with aligned indices, the [out] index and
    the geometry ([mask], [esize]) are unchanged, every header slot but
    the one at [in] holds what it held, and every payload byte outside
    the range [payload_pt, payload_pt + len) is unchanged. *)
Theorem send_leaves_other_messages_alone
  (d : ringbuf_device) (pt : Z) (m : list byte) (l : list event)
  (buffer : list byte) (len r : Z) (s' : kstate) :
  mapped d m -> formatted m -> aligned m -> 0 <= pt -> 0 <= len ->
  ringbuf_write buffer len (mk d pt m l) = Ok r s' ->
  q_out (shm s') = q_out m /\
  q_mask (shm s') = q_mask m /\ q_esize (shm s') = q_esize m /\
  (forall o, o mod RINGBUF_MSG_SZ = 0 -> q_off o <> q_off (q_in m) ->
     block_at o RINGBUF_MSG_SZ (shm s') = block_at o RINGBUF_MSG_SZ m) /\
  (forall o n, 0 <= o -> 0 <= n -> o + n <= pt \/ pt + len <= o ->
     payload_at o n (shm s') = payload_at o n m).
Proof.
  intros Hmap Hfmt [Hai Hao] Hpt Hlen Hrun.
  destruct (accepted d m) eqn:Hacc.
  - apply accepted_spec in Hacc as [Hrole Hav].
    destruct (write_accepted_inv _ _ _ _ _ _ _ _ Hmap Hfmt Hpt Hlen Hrole Hav Hrun)
      as (Hle & Hfit & _ & ->).
    cbn [shm mk]. assert (Hl : 0 <= len <= zlen buffer) by lia.
    split; [now apply written_out|].
    split; [now apply written_mask|].
    split; [now apply written_esize|].
    split.
    + intros o Ho Hne. now apply written_slot_frame.
    + intros o n Ho Hn Hdis. now apply written_payload_other.
  - destruct (write_refused_inv _ _ _ _ _ _ _ _ Hmap Hacc Hrun)
      as (_ & _ & -> & _). auto.
Qed.

Lemma send_leaves_other_messages_alone_witness :
  let s' := state_after (ringbuf_write world 5)
              (mk devP 5 (written devP 0 hello 5 region0) []) in
  q_out (shm s') = q_out (written devP 0 hello 5 region0) /\
  q_mask (shm s') = q_mask (written devP 0 hello 5 region0) /\
  q_esize (shm s') = q_esize (written devP 0 hello 5 region0) /\
  (forall o, o mod RINGBUF_MSG_SZ = 0 ->
     q_off o <> q_off (q_in (written devP 0 hello 5 region0)) ->
     block_at o RINGBUF_MSG_SZ (shm s')
     = block_at o RINGBUF_MSG_SZ (written devP 0 hello 5 region0)) /\
  (forall o n, 0 <= o -> 0 <= n -> o + n <= 5 \/ 5 + 5 <= o ->
     payload_at o n (shm s')
     = payload_at o n (written devP 0 hello 5 region0)).
Proof.
  apply (send_leaves_other_messages_alone devP 5
           (written devP 0 hello 5 region0) [] world 5 0).
  - apply mappedb_ok. vm_compute. reflexivity.
  - apply formattedb_ok. vm_compute. reflexivity.
  - vm_compute. split; reflexivity.
  - lia.
  - lia.
  - vm_compute. reflexivity.
Defined.

Lemma of_ssize_negative (v : Z) : - 2 ^ 63 <= v < 0 -> of_ssize v = v + 2 ^ 64.
Proof.
  intros Hv. unfold of_ssize, wrap64.
  replace v with (v + 2 ^ 64 + (-1) * 2 ^ 64) at 1 by lia.
  rewrite Z.mod_add by lia. apply Z.mod_small. lia.
Qed.

(** X12.  A header with a negative [payload_len] does not make the
    receive copy less.  [MIN(len, hd.payload_len)] compares a [size_t]
    with an [ssize_t], so the negative length counts as a huge unsigned
    one and the receive copies the full [len] bytes the caller asked
    for from the header's offset; if they do not all lie in the region
    the copy leaves it. *)
Theorem negative_length_copies_len
  (d : ringbuf_device) (pt : Z) (m : list byte) (l : list event)
  (hd buffer : list byte) (len : Z) :
  mapped d m -> formatted m -> role d = Consumer ->
  RINGBUF_MSG_SZ <= q_len m -> zlen hd = RINGBUF_MSG_SZ ->
  src_qid (dequeued_hd d m) = QEMU_PROCESS_ID ->
  payload_len (dequeued_hd d m) < 0 ->
  0 <= len <= zlen buffer -> len < 2 ^ 63 ->
  MIN len (payload_len (dequeued_hd d m)) = len /\
  (payload_off (dequeued_hd d m) + len <= arena_capacity (zlen m) ->
   ringbuf_read hd buffer len (mk d pt m l)
   = Ok (0, store_bytes 0 (payload_at (payload_off (dequeued_hd d m)) len m)
              buffer)
        (mk d pt (dequeued d m)
            (l ++ read_events m (payload_off (dequeued_hd d m)) len))) /\
  (0 < len ->
   arena_capacity (zlen m) < payload_off (dequeued_hd d m) + len ->
   ringbuf_read hd buffer len (mk d pt m l)
   = Fault (OutOfRegion (payloads_st d + payload_off (dequeued_hd d m)) len)).
Proof.
  intros Hmap Hfmt Hrole Hq Hhd Hsrc Hneg Hlen H63.
  assert (Hn : MIN len (payload_len (dequeued_hd d m)) = len).
  { unfold MIN. unfold dequeued_hd in *. cbn [decode_hd payload_len] in *.
    pose proof (to_ssize_range
                  (le_Z (load_bytes 8 8 (out_bytes RINGBUF_MSG_SZ (set_data d m))))).
    rewrite of_ssize_negative by lia.
    destruct (Z.ltb_spec len
      (to_ssize (le_Z (load_bytes 8 8 (out_bytes RINGBUF_MSG_SZ (set_data d m))))
       + 2 ^ 64)); [reflexivity|lia]. }
  split; [exact Hn|]. unfold arena_capacity. split.
  - intros Hfit.
    rewrite read_copy_ok; rewrite ?Hn; try assumption; try lia.
    reflexivity.
  - intros Hpos Hover.
    rewrite read_overrun; rewrite ?Hn; try assumption; try lia.
    reflexivity.
Qed.

Lemma negative_length_copies_len_witness :
  MIN 8 (payload_len (dequeued_hd devC negative_region)) = 8 /\
  (payload_off (dequeued_hd devC negative_region) + 8
   <= arena_capacity (zlen negative_region) ->
   ringbuf_read stack_hd (dots 8) 8 (mk devC 0 negative_region [])
   = Ok (0, store_bytes 0
              (payload_at (payload_off (dequeued_hd devC negative_region)) 8
                 negative_region) (dots 8))
        (mk devC 0 (dequeued devC negative_region)
            ([] ++ read_events negative_region
                     (payload_off (dequeued_hd devC negative_region)) 8))) /\
  (0 < 8 ->
   arena_capacity (zlen negative_region)
   < payload_off (dequeued_hd devC negative_region) + 8 ->
   ringbuf_read stack_hd (dots 8) 8 (mk devC 0 negative_region [])
   = Fault (OutOfRegion
              (payloads_st devC + payload_off (dequeued_hd devC negative_region)) 8)).
Proof.
  apply (negative_length_copies_len devC 0 negative_region [] stack_hd (dots 8) 8).
  - apply mappedb_ok. vm_compute. reflexivity.
  - apply formattedb_ok. vm_compute. reflexivity.
  - reflexivity.
  - vm_compute. discriminate.
  - reflexivity.
  - vm_compute. reflexivity.
  - vm_compute. reflexivity.
  - vm_compute. split; discriminate.
  - vm_compute. reflexivity.
Defined.

(* ------------------------------------------------------------------ *)
(** * The format *)
(* ------------------------------------------------------------------ *)

Section Format.

Variables (d : ringbuf_device) (pt : Z) (m : list byte) (l : list event).
Variables (fifo_indevice lock : list byte).
Hypothesis Hmap : mapped d m.
Hypothesis Hlock : write_lock d = base_addr d + PAYLOADS_OFF - 16.
Hypothesis Hfi : zlen fifo_indevice = sizeof_fifo.
Hypothesis Hl : zlen lock <= 16.

(** The format in closed form. *)
Lemma fifo_init_ok :
  wrap32 (q_mask m + 1) <> RINGBUF_SZ ->
  ringbuf_fifo_init fifo_indevice lock (mk d pt m l)
  = Ok tt (mk d 0 (format_region d fifo_indevice lock m)
              (l ++ format_events d lock)).
Proof.
  intros Hsz.
  pose proof (mapped_base _ _ Hmap) as Hb.
  pose proof (mapped_size _ _ Hmap) as Hm.
  assert (Hf : fifo_addr d = base_addr d) by apply Hmap.
  pose proof (zlen_nonneg lock) as Hl0.
  change sizeof_fifo with 536 in Hfi.
  unfold ringbuf_fifo_init.
  erewrite bind_Ok by reflexivity. cbn [dev mk].
  rewrite Hf, Hlock.
  erewrite bind_Ok by (now apply kfifo_size_ok).
  replace (wrap32 (q_mask m + 1) =? RINGBUF_SZ) with false by lia.
  cbn [negb]. rewrite !bind_assoc.
  replace (memcpy_to_shm (base_addr d) fifo_indevice sizeof_fifo)
    with (memcpy_to_shm (base_addr d + 0) fifo_indevice sizeof_fifo)
    by (now rewrite Z.add_0_r).
  erewrite bind_Ok by (apply memcpy_to_shm_ok; zsolve).
  replace (firstn (Z.to_nat sizeof_fifo) fifo_indevice) with fifo_indevice.
  2:{ symmetry. apply firstn_all2. unfold zlen in Hfi. zsolve. }
  unfold format_region.
  set (m1 := store_bytes 0 fifo_indevice m).
  assert (H1 : zlen m1 = zlen m) by (apply store_bytes_zlen; lia).
  unfold INIT_KFIFO. rewrite !bind_assoc.
  rewrite ?bind_assoc; erewrite bind_Ok by (apply store_u32_ok; zsolve).
  set (m2 := store_bytes off_in _ m1).
  assert (H2 : zlen m2 = zlen m)
    by (unfold m2; rewrite store_bytes_zlen; rewrite ?zlen_le_bytes; zsolve).
  rewrite ?bind_assoc; erewrite bind_Ok by (apply store_u32_ok; zsolve).
  set (m3 := store_bytes off_out _ m2).
  assert (H3 : zlen m3 = zlen m)
    by (unfold m3; rewrite store_bytes_zlen; rewrite ?zlen_le_bytes; zsolve).
  rewrite ?bind_assoc; erewrite bind_Ok by (apply store_u32_ok; zsolve).
  set (m4 := store_bytes off_mask _ m3).
  assert (H4 : zlen m4 = zlen m)
    by (unfold m4; rewrite store_bytes_zlen; rewrite ?zlen_le_bytes; zsolve).
  rewrite ?bind_assoc; erewrite bind_Ok by (apply store_u32_ok; zsolve).
  set (m5 := store_bytes off_esize _ m4).
  assert (H5 : zlen m5 = zlen m)
    by (unfold m5; rewrite store_bytes_zlen; rewrite ?zlen_le_bytes; zsolve).
  rewrite ?bind_assoc; erewrite bind_Ok by (apply store_ptr_ok; zsolve).
  set (m6 := store_bytes off_data _ m5).
  assert (H6 : zlen m6 = zlen m)
    by (unfold m6; rewrite store_bytes_zlen; rewrite ?zlen_le_bytes; zsolve).
  replace (base_addr d + PAYLOADS_OFF - 16) with (base_addr d + LOCK_OFF)
    by (unfold LOCK_OFF; lia).
  rewrite ?bind_assoc;
    erewrite bind_Ok by (apply memcpy_to_shm_ok; unfold LOCK_OFF; zsolve).
  replace (firstn (Z.to_nat (zlen lock)) lock) with lock
    by (unfold zlen; now rewrite Nat2Z.id, firstn_all).
  rewrite ?bind_assoc;
    erewrite bind_Ok
      by (apply spin_lock_init_ok; rewrite ?store_bytes_zlen;
          unfold LOCK_OFF; zsolve).
  unfold set_payload_pt. cbn [dev payload_pt shm log mk].
  unfold format_events, lock_store, mk. rewrite <- !app_assoc. cbn [app].
  replace (base_addr d + LOCK_OFF) with (write_lock d)
    by (unfold LOCK_OFF; lia).
  reflexivity.
Qed.

(** The lock word of a formatted region holds the unlocked lock, not
    the bytes of the stack. *)
Lemma format_region_lock :
  load_bytes LOCK_OFF (zlen lock) (format_region d fifo_indevice lock m)
  = SPIN_LOCK_UNLOCKED (zlen lock).
Proof.
  pose proof (mapped_size _ _ Hmap) as Hm.
  pose proof (zlen_nonneg lock) as Hl0.
  pose proof (zlen_unlocked (zlen lock) Hl0) as Hu.
  change sizeof_fifo with 536 in Hfi.
  unfold format_region.
  rewrite <- Hu at 1.
  assert (Z : forall off bs mm, zlen mm = zlen m -> 0 <= off ->
            off + zlen bs <= zlen m -> zlen (store_bytes off bs mm) = zlen m).
  { intros off bs mm E Ho Hfit. rewrite store_bytes_zlen; lia. }
  apply load_store_same; rewrite ?Hu; unfold LOCK_OFF; [zsolve|].
  rewrite Z; [zsolve| |zsolve|zsolve].
  repeat (apply Z; rewrite ?zlen_le_bytes; [|zsolve|zsolve]).
  reflexivity.
Qed.

(** The format is skipped when the size field already reads 512. *)
Lemma fifo_init_skip :
  wrap32 (q_mask m + 1) = RINGBUF_SZ ->
  ringbuf_fifo_init fifo_indevice lock (mk d pt m l)
  = Ok tt (mk d 0 m (l ++ [EvLoad off_mask 4])).
Proof.
  intros Hsz.
  assert (Hf : fifo_addr d = base_addr d) by apply Hmap.
  unfold ringbuf_fifo_init.
  erewrite bind_Ok by reflexivity. cbn [dev mk].
  rewrite Hf.
  erewrite bind_Ok by (now apply kfifo_size_ok).
  rewrite Hsz, Z.eqb_refl. cbn [negb].
  erewrite bind_Ok by reflexivity. reflexivity.
Qed.

End Format.

(** X13.  [ringbuf_fifo_init] formats only when the size field does
    not read 512.  When [mask + 1] is 512, whatever the other fields
    of the queue hold, it reads that one field, leaves every byte of
    the region as it is, and sets the cursor to 0.  So a region that
    one guest has formatted is not formatted again by the probe of
    another guest, which maps it at another address. *)
Theorem format_skipped_when_sized :
  (forall d pt m l fifo_indevice lock,
      mapped d m ->
      wrap32 (q_mask m + 1) = RINGBUF_SZ ->
      ringbuf_fifo_init fifo_indevice lock (mk d pt m l)
      = Ok tt (mk d 0 m (l ++ [EvLoad off_mask 4]))) /\
  (forall d d' pt pt' m l l' fifo_indevice lock fifo_indevice' lock',
      mapped d m -> mapped d' m ->
      write_lock d = base_addr d + PAYLOADS_OFF - 16 ->
      zlen fifo_indevice = sizeof_fifo -> zlen lock <= 16 ->
      wrap32 (q_mask m + 1) <> RINGBUF_SZ ->
      exists s1,
        ringbuf_fifo_init fifo_indevice lock (mk d pt m l) = Ok tt s1 /\
        ringbuf_fifo_init fifo_indevice' lock' (mk d' pt' (shm s1) l')
        = Ok tt (mk d' 0 (shm s1) (l' ++ [EvLoad off_mask 4]))).
Proof.
  split.
  - intros d pt m l fifo_indevice lock Hmap Hsz. now apply fifo_init_skip.
  - intros d d' pt pt' m l l' fifo_indevice lock fifo_indevice' lock'
      Hmap Hmap' Hlock Hfi Hl Hsz.
    destruct (fifo_init_formats d pt m l fifo_indevice lock Hmap Hlock Hfi Hl Hsz)
      as (s1 & Hrun & ((Hmask & _) & _) & Hz & _).
    exists s1. split; [exact Hrun|].
    apply fifo_init_skip.
    + now apply (mapped_same_size d' m).
    + rewrite Hmask. reflexivity.
Qed.

Lemma format_skipped_when_sized_witness :
  ringbuf_fifo_init stack_fifo stack_lock (mk devC 7 two_queued [])
  = Ok tt (mk devC 0 two_queued ([] ++ [EvLoad off_mask 4])).
Proof.
  destruct format_skipped_when_sized as [H _].
  apply (H devC 7 two_queued [] stack_fifo stack_lock).
  - apply two_queued_mapped.
  - vm_compute. reflexivity.
Defined.

(** X14.  When [ringbuf_fifo_init] does format, the queue is fresh
    (both indices 0, mask 511, element size 1) and its [data] pointer is
    the formatting guest's address of the buffer, but the 512 bytes of
    the queue's buffer are the bytes of the uninitialised local
    [fifo_indevice], copied from the kernel stack into the shared
    region; the payload area and the bytes between the queue and the
    lock are not cleared. *)
Theorem format_leaves_stack_bytes
  (d : ringbuf_device) (pt : Z) (m : list byte) (l : list event)
  (fifo_indevice lock : list byte) :
  mapped d m ->
  write_lock d = base_addr d + PAYLOADS_OFF - 16 ->
  zlen fifo_indevice = sizeof_fifo -> zlen lock <= 16 ->
  wrap32 (q_mask m + 1) <> RINGBUF_SZ ->
  exists s',
    ringbuf_fifo_init fifo_indevice lock (mk d pt m l) = Ok tt s' /\
    fresh (shm s') /\
    load_bytes KFIFO_BUF_OFF RINGBUF_SZ (shm s')
    = load_bytes KFIFO_BUF_OFF RINGBUF_SZ fifo_indevice /\
    q_data (shm s') = base_addr d + KFIFO_BUF_OFF /\
    forall o n, 0 <= o -> 0 <= n ->
      PAYLOADS_OFF <= o \/ (sizeof_fifo <= o /\ o + n <= LOCK_OFF) ->
      load_bytes o n (shm s') = load_bytes o n m.
Proof.
  intros Hmap Hlock Hfi Hl Hsz.
  destruct (fifo_init_formats d pt m l fifo_indevice lock Hmap Hlock Hfi Hl Hsz)
    as (s0 & Hrun0 & Hfresh & _).
  rewrite (fifo_init_ok d pt m l fifo_indevice lock Hmap Hlock Hfi Hl Hsz) in Hrun0.
  eexists. split; [now apply fifo_init_ok|].
  inversion Hrun0 as [E]. rewrite <- E in Hfresh. cbn [shm mk] in *.
  clear Hrun0 E s0.
  split; [exact Hfresh|].
  pose proof (mapped_base _ _ Hmap) as Hb.
  pose proof (mapped_size _ _ Hmap) as Hm.
  pose proof (zlen_nonneg lock) as Hl0.
  destruct Hmap as (_ & _ & _ & _ & H32 & H64).
  change sizeof_fifo with 536 in *.
  unfold format_region.
  set (m1 := store_bytes 0 fifo_indevice m).
  assert (H1 : zlen m1 = zlen m) by (apply store_bytes_zlen; lia).
  set (m2 := store_bytes off_in _ m1).
  assert (H2 : zlen m2 = zlen m)
    by (unfold m2; rewrite store_bytes_zlen; rewrite ?zlen_le_bytes; zsolve).
  set (m3 := store_bytes off_out _ m2).
  assert (H3 : zlen m3 = zlen m)
    by (unfold m3; rewrite store_bytes_zlen; rewrite ?zlen_le_bytes; zsolve).
  set (m4 := store_bytes off_mask _ m3).
  assert (H4 : zlen m4 = zlen m)
    by (unfold m4; rewrite store_bytes_zlen; rewrite ?zlen_le_bytes; zsolve).
  set (m5 := store_bytes off_esize _ m4).
  assert (H5 : zlen m5 = zlen m)
    by (unfold m5; rewrite store_bytes_zlen; rewrite ?zlen_le_bytes; zsolve).
  set (m6 := store_bytes off_data _ m5).
  assert (H6 : zlen m6 = zlen m)
    by (unfold m6; rewrite store_bytes_zlen; rewrite ?zlen_le_bytes; zsolve).
  assert (F : forall o n off bs mm, 0 <= o -> 0 <= n -> zlen mm = zlen m ->
            0 <= off -> off + zlen bs <= zlen m ->
            o + n <= off \/ off + zlen bs <= o ->
            load_bytes o n (store_bytes off bs mm) = load_bytes o n mm).
  { intros. apply load_store_other; lia. }
  pose proof (zlen_unlocked (zlen lock) Hl0) as Hu.
  set (m7 := store_bytes LOCK_OFF lock m6).
  assert (H7 : zlen m7 = zlen m)
    by (unfold m7; rewrite store_bytes_zlen; unfold LOCK_OFF; zsolve).
  assert (G : forall o n, 24 <= o -> 0 <= n -> o + n <= 1032 \/ 1048 <= o ->
            load_bytes o n (store_bytes LOCK_OFF (SPIN_LOCK_UNLOCKED (zlen lock)) m7)
            = load_bytes o n m1).
  { intros o n Ho Hn Hdis.
    rewrite F by (rewrite ?Hu; unfold LOCK_OFF; zsolve).
    unfold m7. rewrite F by (unfold LOCK_OFF; zsolve).
    unfold m6. rewrite F by (rewrite ?zlen_le_bytes; zsolve).
    unfold m5. rewrite F by (rewrite ?zlen_le_bytes; zsolve).
    unfold m4. rewrite F by (rewrite ?zlen_le_bytes; zsolve).
    unfold m3. rewrite F by (rewrite ?zlen_le_bytes; zsolve).
    unfold m2. rewrite F by (rewrite ?zlen_le_bytes; zsolve).
    reflexivity. }
  split.
  { change KFIFO_BUF_OFF with 24. change RINGBUF_SZ with 512.
    rewrite G by lia. unfold m1.
    unfold load_bytes, store_bytes. cbn [Z.to_nat firstn app].
    rewrite block_app_l; [reflexivity|].
    unfold zlen in Hfi. lia. }
  split.
  { unfold q_data. rewrite F by (rewrite ?Hu; unfold LOCK_OFF; zsolve).
    unfold m7. rewrite F by (unfold LOCK_OFF; zsolve).
    unfold m6.
    change 8 with (zlen (le_bytes 8 (base_addr d + sizeof___kfifo target))) at 1.
    rewrite load_store_same by (rewrite ?zlen_le_bytes; zsolve).
    rewrite le_Z_bytes. apply Z.mod_small.
    change (sizeof___kfifo target) with 24. zsolve. }
  intros o n Ho Hn Hdis. unfold LOCK_OFF in Hdis.
  rewrite G by zsolve.
  unfold m1. apply load_store_other; zsolve.
Qed.

Lemma format_leaves_stack_bytes_witness :
  exists s',
    ringbuf_fifo_init stack_fifo stack_lock (mk devP 9 raw_region []) = Ok tt s' /\
    fresh (shm s') /\
    load_bytes KFIFO_BUF_OFF RINGBUF_SZ (shm s')
    = load_bytes KFIFO_BUF_OFF RINGBUF_SZ stack_fifo /\
    q_data (shm s') = base_addr devP + KFIFO_BUF_OFF /\
    forall o n, 0 <= o -> 0 <= n ->
      PAYLOADS_OFF <= o \/ (sizeof_fifo <= o /\ o + n <= LOCK_OFF) ->
      load_bytes o n (shm s') = load_bytes o n raw_region.
Proof.
  apply (format_leaves_stack_bytes devP 9 raw_region [] stack_fifo stack_lock).
  - apply mappedb_ok. vm_compute. reflexivity.
  - reflexivity.
  - reflexivity.
  - vm_compute. discriminate.
  - vm_compute. discriminate.
Defined.

(* ------------------------------------------------------------------ *)
(** * The receive tasklet *)
(* ------------------------------------------------------------------ *)

Lemma c_string_app (a r t : list byte) :
  c_string a = Some t -> c_string (a ++ r) = Some t.
Proof.
  revert t. induction a as [|b a IH]; intros t H; [discriminate|].
  cbn [c_string app] in *. destruct (Byte.eqb b x00); [assumption|].
  destruct (c_string a) as [t'|]; [|discriminate].
  now rewrite (IH t' eq_refl).
Qed.

Lemma c_string_zlen (a t : list byte) : c_string a = Some t -> zlen t < zlen a.
Proof.
  revert t. induction a as [|b a IH]; intros t H; [discriminate|].
  cbn [c_string] in H. rewrite zlen_cons.
  destruct (Byte.eqb b x00).
  - inversion H. pose proof (zlen_nonneg a). cbn. lia.
  - destruct (c_string a) as [t'|]; [|discriminate].
    inversion H. rewrite zlen_cons. specialize (IH t' eq_refl). lia.
Qed.

(** X15.  The tasklet prints the oldest message.  When the queue
    holds [P] first, [P] has at most 512 bytes and contains a NUL, the
    tasklet's receive succeeds and its [%s] prints the bytes of [P] up
    to the first NUL; the message is removed from the queue. *)
Theorem tasklet_prints_oldest_message
  (d : ringbuf_device) (ptC pt : Z) (m : list byte) (l : list event)
  (P text : list byte) (rest : list (list byte)) (hd recv : list byte) :
  mapped d m -> role d = Consumer ->
  represents m pt (P :: rest) ->
  zlen hd = RINGBUF_MSG_SZ -> zlen recv = RECV_SZ ->
  zlen P <= RECV_SZ -> c_string P = Some text ->
  exists s',
    ringbuf_readmsg hd recv (mk d ptC m l) = Ok (Some text) s' /\
    represents (shm s') pt rest.
Proof.
  intros Hmap Hrole Hrep Hhd Hrecv HP Htext.
  pose proof (zlen_nonneg P) as HP0. unfold RECV_SZ in *.
  destruct (recv_runs d m pt P rest Hmap Hrep ptC l hd recv 512)
    as (evs & Hrun); try assumption; try lia.
  eexists. split.
  - unfold ringbuf_readmsg. change RECV_SZ with 512.
    erewrite bind_Ok by exact Hrun. cbn [snd]. unfold ret. f_equal.
    unfold received. rewrite Z.min_r by lia. rewrite firstn_zlen.
    now apply c_string_app.
  - cbn [shm mk]. now apply (represents_dequeued d m pt P rest).
Qed.

Lemma tasklet_prints_oldest_message_witness :
  exists s',
    ringbuf_readmsg stack_hd stack_recv (mk devC 0 hi_queued [])
    = Ok (Some hi_text) s' /\
    represents (shm s') 3 [].
Proof.
  apply (tasklet_prints_oldest_message devC 0 3 hi_queued [] hi_msg hi_text []
           stack_hd stack_recv).
  - apply mappedb_ok. vm_compute. reflexivity.
  - reflexivity.
  - change 3 with (0 + zlen hi_msg). change [hi_msg] with ([] ++ [hi_msg]).
    apply (represents_written devP region0 0 [] hi_msg).
    + apply scenario_fresh.
    + apply region0_empty.
    + vm_compute. reflexivity.
    + vm_compute. discriminate.
  - reflexivity.
  - reflexivity.
  - vm_compute. discriminate.
  - reflexivity.
Defined.

(** X16.  The tasklet prints whatever its array held when there is
    nothing to receive.  [recv] is not initialised and the result of
    the receive is not looked at, so on an empty queue, for a device
    that is not the consumer, and for a header with a foreign tag, the
    text printed is the C string found in the uninitialised bytes. *)
Theorem tasklet_without_message_prints_stack
  (d : ringbuf_device) (pt : Z) (m : list byte) (l : list event)
  (hd recv : list byte) :
  mapped d m -> formatted m -> zlen hd = RINGBUF_MSG_SZ ->
  role d <> Consumer \/ q_len m < RINGBUF_MSG_SZ \/
  src_qid (dequeued_hd d m) <> QEMU_PROCESS_ID ->
  exists s',
    ringbuf_readmsg hd recv (mk d pt m l) = Ok (c_string recv) s'.
Proof.
  intros Hmap Hfmt Hhd Hno. unfold ringbuf_readmsg.
  destruct (Z.eq_dec (role d) Consumer) as [Hrole|Hrole].
  - destruct (Z.lt_ge_cases (q_len m) RINGBUF_MSG_SZ) as [Hq|Hq].
    + eexists. erewrite bind_Ok by (now apply read_refused_empty).
      reflexivity.
    + assert (Hsrc : src_qid (dequeued_hd d m) <> QEMU_PROCESS_ID).
      { destruct Hno as [Hno|[Hno|Hno]]; [congruence|lia|assumption]. }
      eexists. erewrite bind_Ok by (now apply read_mismatch).
      reflexivity.
  - eexists. erewrite bind_Ok by (now apply read_refused_role).
    reflexivity.
Qed.

Lemma tasklet_without_message_prints_stack_witness :
  exists s',
    ringbuf_readmsg stack_hd stack_recv (mk devC 0 region0 [])
    = Ok (c_string stack_recv) s'.
Proof.
  apply (tasklet_without_message_prints_stack devC 0 region0 []
           stack_hd stack_recv).
  - apply scenario_fresh.
  - apply scenario_fresh.
  - reflexivity.
  - right. left. vm_compute. reflexivity.
Defined.

(* ------------------------------------------------------------------ *)
(** * Interrupt vectors and the probe *)
(* ------------------------------------------------------------------ *)

Lemma request_irqs_spec (e : pci_env) (count : nat) :
  forall i,
    let r := fst (request_irqs e count i) in
    let cs := snd (request_irqs e count i) in
    (r = 0 <->
     forall j, 0 <= j < Z.of_nat count ->
       request_irq e (pci_irq_vector e (i + j)) = 0) /\
    (r <> 0 ->
     exists k, 0 <= k < Z.of_nat count /\
       r = request_irq e (pci_irq_vector e (i + k)) /\
       forall j, 0 <= j < k ->
         request_irq e (pci_irq_vector e (i + j)) = 0) /\
    forallb (fun c => negb (is_release c)) cs = true.
Proof.
  induction count as [|k IH]; intros i.
  - cbn. split; [split; [intros; lia|reflexivity]|]. split; [congruence|reflexivity].
  - cbn [request_irqs].
    destruct (Z.eqb_spec (request_irq e (pci_irq_vector e i)) 0) as [Hz|Hnz].
    + specialize (IH (i + 1)).
      destruct (request_irqs e k (i + 1)) as [r cs]. cbn [fst snd] in *.
      destruct IH as (Hiff & Hfail & Hrel).
      split; [|split].
      * rewrite Hiff. split.
        -- intros H j Hj. destruct (Z.eq_dec j 0) as [->|Hj0].
           ++ now rewrite Z.add_0_r.
           ++ replace (i + j) with (i + 1 + (j - 1)) by lia. apply H. lia.
        -- intros H j Hj. replace (i + 1 + j) with (i + (j + 1)) by lia.
           apply H. lia.
      * intros Hr. destruct (Hfail Hr) as (k0 & Hk0 & Hrk & Hbefore).
        exists (k0 + 1). split; [lia|]. split.
        -- now replace (i + (k0 + 1)) with (i + 1 + k0) by lia.
        -- intros j Hj. destruct (Z.eq_dec j 0) as [->|Hj0].
           ++ now rewrite Z.add_0_r.
           ++ replace (i + j) with (i + 1 + (j - 1)) by lia. apply Hbefore. lia.
      * cbn. exact Hrel.
    + cbn [fst snd]. split; [|split].
      * split; [congruence|]. intros H. exfalso. apply Hnz.
        specialize (H 0 ltac:(lia)). now rewrite Z.add_0_r in H.
      * intros _. exists 0. split; [lia|]. split; [now rewrite Z.add_0_r|].
        intros; lia.
      * reflexivity.
Qed.

(** A request that succeeds has released nothing. *)
Lemma request_msix_keeps (e : pci_env) (n : Z) :
  fst (request_msix_vectors e n) = 0 ->
  forallb (fun c => negb (is_release c)) (snd (request_msix_vectors e n)) = true.
Proof.
  unfold request_msix_vectors.
  destruct (Z.eqb_spec (kmalloc_names e) 0) as [Hn|Hn];
    [cbn [fst]; discriminate|].
  destruct (Z.ltb_spec (pci_alloc_irq_vectors e) 0) as [Ha|Ha];
    [cbn [fst]; discriminate|].
  pose proof (request_irqs_spec e (Z.to_nat (pci_alloc_irq_vectors e)) 0)
    as Hloop.
  destruct (request_irqs e (Z.to_nat (pci_alloc_irq_vectors e)) 0) as [r rs].
  cbv zeta in Hloop. cbn [fst snd] in Hloop.
  destruct Hloop as (_ & _ & Hrel).
  destruct (Z.eqb_spec r 0) as [Hr|Hr]; cbn [fst snd]; [|congruence].
  intros _. rewrite forallb_app. cbn. exact Hrel.
Qed.


(** X17.  The result of [request_msix_vectors]: [-ENOMEM] when the
    names cannot be allocated; [-EINVAL], not the error of
    [pci_alloc_irq_vectors], when the vectors cannot be allocated;
    otherwise 0 exactly when every [request_irq] returns 0, and else the
    result of the first [request_irq] that fails, all earlier ones having
    succeeded.  A successful call releases nothing; a failing one that
    had allocated the names ends by freeing them. *)
Theorem msix_request_result (e : pci_env) (n : Z) :
  let r := fst (request_msix_vectors e n) in
  let cs := snd (request_msix_vectors e n) in
  let got i := request_irq e (pci_irq_vector e i) in
  (kmalloc_names e = 0 -> r = - ENOMEM) /\
  (kmalloc_names e <> 0 -> pci_alloc_irq_vectors e < 0 -> r = - EINVAL) /\
  (kmalloc_names e <> 0 -> 0 <= pci_alloc_irq_vectors e ->
   (r = 0 <-> forall i, 0 <= i < pci_alloc_irq_vectors e -> got i = 0) /\
   (r <> 0 ->
    exists k, 0 <= k < pci_alloc_irq_vectors e /\ r = got k /\
              forall i, 0 <= i < k -> got i = 0)) /\
  (r = 0 -> forallb (fun c => negb (is_release c)) cs = true) /\
  (kmalloc_names e <> 0 -> r <> 0 ->
   exists pre, cs = pre ++ [Kfree (kmalloc_names e)]).
Proof.
  cbv zeta. unfold request_msix_vectors.
  destruct (Z.eqb_spec (kmalloc_names e) 0) as [Hn|Hn].
  { cbn [fst snd]. split; [reflexivity|]. split; [congruence|].
    split; [congruence|]. split; [discriminate|congruence]. }
  destruct (Z.ltb_spec (pci_alloc_irq_vectors e) 0) as [Ha|Ha].
  { cbn [fst snd]. split; [congruence|]. split; [reflexivity|].
    split; [lia|]. split; [discriminate|].
    intros _ _.
    now exists [Kmalloc (wrap64 (n * 256)); PciAllocIrqVectors 1 n]. }
  pose proof (request_irqs_spec e (Z.to_nat (pci_alloc_irq_vectors e)) 0)
    as Hloop.
  destruct (request_irqs e (Z.to_nat (pci_alloc_irq_vectors e)) 0) as [r rs].
  cbv zeta in Hloop. cbn [fst snd] in Hloop.
  rewrite Z2Nat.id in Hloop by assumption.
  destruct Hloop as (Hiff & Hfail & Hrel).
  split; [congruence|]. split; [lia|].
  destruct (Z.eqb_spec r 0) as [Hr|Hr]; cbn [fst snd].
  - split.
    + intros _ _. split; [|congruence].
      split; [|reflexivity]. intros _. now apply Hiff.
    + split; [|congruence]. intros _.
      rewrite forallb_app. cbn. exact Hrel.
  - split.
    + intros _ _. split.
      * split; [congruence|]. intros H. apply Hiff in H. congruence.
      * intros _. exact (Hfail Hr).
    + split; [congruence|]. intros _ _.
      exists ([Kmalloc (wrap64 (n * 256)); PciAllocIrqVectors 1 n] ++ rs
              ++ [PciFreeIrqVectors]).
      rewrite <- !app_assoc. reflexivity.
Qed.

Lemma set_dev_ok d0 pt m l d :
  set_dev d (mk d0 pt m l) = Ok tt (mk d pt m l).
Proof. reflexivity. Qed.

Lemma get_dev_ok d pt m l : get_dev (mk d pt m l) = Ok d (mk d pt m l).
Proof. reflexivity. Qed.

Section ProbeRuns.

Variables (e : pci_env) (ROLE : Z) (fifo_indevice lock : list byte).
Variables (pt : Z) (m : list byte) (l : list event).

Let regs := ioremap e (wrap32 (pci_resource_start e 0))
              (wrap32 (pci_resource_len e 0)).
Let vec_tb := ioremap e (wrap32 (pci_resource_start e 1))
                (wrap32 (pci_resource_len e 1)).
Let base := ioremap e (wrap32 (pci_resource_start e 2))
              (wrap32 (pci_resource_len e 2)).
Let d := probed (revision_id e mod 256) regs base (pci_resource_len e 2)
           (wrap32 (ioread32_ivposition e)) ROLE.

Hypothesis Hen : 0 <= pci_enable_device e.
Hypothesis Hreq : 0 <= pci_request_regions e.

(** The probe up to the three mappings, when they succeed. *)
Lemma probe_ioremap_fails :
  regs = 0 \/ vec_tb = 0 \/ base = 0 ->
  exists cs s',
    ringbuf_probe_device e ROLE fifo_indevice lock (mk static_dev pt m l)
    = Ok (pci_request_regions e, cs) s' /\
    shm s' = m /\ payload_pt s' = pt /\ log s' = l /\
    base_addr (dev s') = 0 /\
    (regs <> 0 -> vec_tb = 0 -> forallb (fun c => negb
        match c with Iounmap _ => true | _ => false end) cs = true) /\
    In PciReleaseRegions cs /\ In PciDisableDevice cs.
Proof.
  intros Hfail. unfold ringbuf_probe_device.
  replace (pci_enable_device e <? 0) with false by lia.
  replace (pci_request_regions e <? 0) with false by lia.
  erewrite bind_Ok by apply get_dev_ok.
  erewrite bind_Ok by apply set_dev_ok.
  fold regs vec_tb base.
  destruct (Z.eqb_spec regs 0) as [Hr|Hr].
  { do 2 eexists. split; [reflexivity|]. cbn [shm payload_pt log dev mk base_addr static_dev].
    do 4 (split; [reflexivity|]). split; [congruence|].
    split; rewrite !in_app_iff; cbn [In]; auto 10. }
  destruct (Z.eqb_spec vec_tb 0) as [Hv|Hv].
  { do 2 eexists. split; [reflexivity|]. cbn [shm payload_pt log dev mk base_addr static_dev].
    do 4 (split; [reflexivity|]). split; [reflexivity|].
    split; rewrite !in_app_iff; cbn [In]; auto 10. }
  destruct (Z.eqb_spec base 0) as [Hb|Hb].
  { erewrite bind_Ok by apply set_dev_ok.
    do 2 eexists. split; [reflexivity|]. cbn [shm payload_pt log dev mk base_addr static_dev].
    do 3 (split; [reflexivity|]). split; [assumption|]. split; [congruence|].
    split; rewrite !in_app_iff; cbn [In]; auto 10. }
  exfalso. tauto.
Qed.

Hypothesis Hregs : regs <> 0.
Hypothesis Hvec : vec_tb <> 0.
Hypothesis Hbase : base <> 0.

Let cs3 : list pci_call :=
  (((([PciEnableDevice] ++ [PciRequestRegions])
      ++ [Ioremap (wrap32 (pci_resource_start e 0))
            (wrap32 (pci_resource_len e 0))])
     ++ [Ioremap (wrap32 (pci_resource_start e 1))
           (wrap32 (pci_resource_len e 1))])
    ++ [Ioremap (wrap32 (pci_resource_start e 2))
          (wrap32 (pci_resource_len e 2))]).

(** The request for interrupt vectors fails: the probe gives up, and
    the record keeps the addresses of the mappings it has undone. *)
Lemma probe_msix_fails :
  revision_id e mod 256 = 1 -> wrap32 (ioread32_ivposition e) <> 0 ->
  fst (request_msix_vectors e 4) <> 0 ->
  ringbuf_probe_device e ROLE fifo_indevice lock (mk static_dev pt m l)
  = Ok (fst (request_msix_vectors e 4),
        (cs3 ++ snd (request_msix_vectors e 4))
          ++ [Iounmap base; Iounmap regs; PciReleaseRegions; PciDisableDevice])
       (mk d pt m l).
Proof.
  intros Hrev Hiv Hms. unfold ringbuf_probe_device.
  replace (pci_enable_device e <? 0) with false by lia.
  replace (pci_request_regions e <? 0) with false by lia.
  erewrite bind_Ok by apply get_dev_ok.
  erewrite bind_Ok by apply set_dev_ok.
  fold regs vec_tb base.
  replace (regs =? 0) with false by lia.
  replace (vec_tb =? 0) with false by lia.
  replace (base =? 0) with false by lia.
  erewrite bind_Ok by apply set_dev_ok.
  cbn [revision]. rewrite Hrev. cbn [Z.eqb Pos.eqb].
  erewrite bind_Ok by apply set_dev_ok.
  replace (wrap32 (ioread32_ivposition e) =? 0) with false by lia.
  cbn [negb].
  destruct (request_msix_vectors e 4) as [r ms]. cbn [fst snd] in *.
  replace (r =? 0) with false by lia. cbn [negb].
  unfold ret. f_equal. unfold d, probed, mk. rewrite Hrev. reflexivity.
Qed.

Hypothesis Hms :
  revision_id e mod 256 <> 1 \/ wrap32 (ioread32_ivposition e) = 0 \/
  fst (request_msix_vectors e 4) = 0.

Lemma probe_reaches_format :
  ringbuf_probe_device e ROLE fifo_indevice lock (mk static_dev pt m l)
  = (ringbuf_fifo_init fifo_indevice lock ;; ret (0, probe_calls e))
      (mk d pt m l).
Proof.
  unfold ringbuf_probe_device, probe_calls.
  replace (pci_enable_device e <? 0) with false by lia.
  replace (pci_request_regions e <? 0) with false by lia.
  erewrite bind_Ok by apply get_dev_ok.
  erewrite bind_Ok by apply set_dev_ok.
  fold regs vec_tb base.
  replace (regs =? 0) with false by lia.
  replace (vec_tb =? 0) with false by lia.
  replace (base =? 0) with false by lia.
  erewrite bind_Ok by apply set_dev_ok.
  cbn [revision].
  destruct (Z.eqb_spec (revision_id e mod 256) 1) as [Hrev|Hrev].
  - erewrite bind_Ok by apply set_dev_ok.
    cbn [andb].
    destruct (Z.eqb_spec (wrap32 (ioread32_ivposition e)) 0) as [Hiv|Hiv];
      cbn [negb].
    + unfold d, probed, mk. rewrite Hrev, Hiv. reflexivity.
    + assert (H0 : fst (request_msix_vectors e 4) = 0) by tauto.
      destruct (request_msix_vectors e 4) as [r ms]. cbn [fst snd] in *.
      subst r. cbn [Z.eqb negb].
      unfold d, probed, mk. rewrite Hrev. reflexivity.
  - cbn [andb].
    unfold d, probed, mk.
    replace (revision_id e mod 256 =? 1) with false by lia. reflexivity.
Qed.

Lemma probe_calls_keep :
  forallb (fun c => negb (is_release c)) (probe_calls e) = true.
Proof.
  unfold probe_calls.
  destruct ((revision_id e mod 256 =? 1)
            && negb (wrap32 (ioread32_ivposition e) =? 0)) eqn:E;
    [|reflexivity].
  apply andb_true_iff in E as [Hrev Hiv].
  assert (H0 : fst (request_msix_vectors e 4) = 0).
  { destruct Hms as [H|[H|H]]; [| |assumption].
    - lia.
    - rewrite H in Hiv. discriminate. }
  rewrite forallb_app. cbn [forallb is_release negb andb].
  now apply request_msix_keeps.
Qed.

End ProbeRuns.

Lemma msix_request_result_witness :
  exists k,
    0 <= k < pci_alloc_irq_vectors env_busy /\
    fst (request_msix_vectors env_busy 4)
    = request_irq env_busy (pci_irq_vector env_busy k) /\
    forall i, 0 <= i < k ->
      request_irq env_busy (pci_irq_vector env_busy i) = 0.
Proof.
  destruct (msix_request_result env_busy 4) as (_ & _ & H & _).
  destruct H as [_ H].
  - vm_compute. discriminate.
  - vm_compute. discriminate.
  - apply H. vm_compute. discriminate.
Defined.

(** X18.  A probe whose PCI calls succeed returns 0 and releases
    nothing.  It leaves in [ringbuf_dev] exactly the record [probed]:
    the queue at the start of BAR2, the payload area at offset
    [sizeof(fifo) + 512] and the lock 16 bytes below it, the length of
    BAR2 cut to 32 bits, the role from the module parameter, and the
    IVPosition register for a revision 1 device.  The cursor is 0, and
    the region is formatted unless its size field already read 512, in
    which case it is left as it was; in a region that is formatted the
    lock word holds the unlocked lock that [spin_lock_init] stores over
    the bytes copied from the stack. *)
Theorem probe_builds_record
  (e : pci_env) (ROLE : Z) (fifo_indevice lock : list byte)
  (pt : Z) (m : list byte) (l : list event) :
  let regs := ioremap e (wrap32 (pci_resource_start e 0))
                (wrap32 (pci_resource_len e 0)) in
  let vec_tb := ioremap e (wrap32 (pci_resource_start e 1))
                  (wrap32 (pci_resource_len e 1)) in
  let base := ioremap e (wrap32 (pci_resource_start e 2))
                (wrap32 (pci_resource_len e 2)) in
  let d := probed (revision_id e mod 256) regs base (pci_resource_len e 2)
             (wrap32 (ioread32_ivposition e)) ROLE in
  0 <= pci_enable_device e -> 0 <= pci_request_regions e ->
  regs <> 0 -> vec_tb <> 0 -> base <> 0 ->
  revision_id e mod 256 <> 1 \/ wrap32 (ioread32_ivposition e) = 0 \/
  fst (request_msix_vectors e 4) = 0 ->
  mapped d m ->
  zlen fifo_indevice = sizeof_fifo -> zlen lock <= 16 ->
  exists s',
    ringbuf_probe_device e ROLE fifo_indevice lock (mk static_dev pt m l)
    = Ok (0, probe_calls e) s' /\
    dev s' = d /\ payload_pt s' = 0 /\
    forallb (fun c => negb (is_release c)) (probe_calls e) = true /\
    (wrap32 (q_mask m + 1) = RINGBUF_SZ -> shm s' = m) /\
    (wrap32 (q_mask m + 1) <> RINGBUF_SZ ->
     shm s' = format_region d fifo_indevice lock m /\ fresh (shm s') /\
     load_bytes LOCK_OFF (zlen lock) (shm s')
     = SPIN_LOCK_UNLOCKED (zlen lock)).
Proof.
  intros regs vec_tb base d Hen Hreq Hregs Hvec Hbase Hms Hmap Hfi Hl.
  assert (Hlock : write_lock d = base_addr d + PAYLOADS_OFF - 16).
  { unfold d, probed. cbn [write_lock base_addr]. zsolve. }
  rewrite (probe_reaches_format e ROLE fifo_indevice lock pt m l
             Hen Hreq Hregs Hvec Hbase Hms).
  fold regs base d.
  destruct (Z.eq_dec (wrap32 (q_mask m + 1)) RINGBUF_SZ) as [Hsz|Hsz].
  - eexists. erewrite bind_Ok by (now apply fifo_init_skip).
    split; [reflexivity|]. cbn [dev payload_pt shm mk].
    do 2 (split; [reflexivity|]).
    split; [now apply probe_calls_keep|].
    split; [reflexivity|congruence].
  - eexists. erewrite bind_Ok by (now apply fifo_init_ok).
    split; [reflexivity|]. cbn [dev payload_pt shm mk].
    do 2 (split; [reflexivity|]).
    split; [now apply probe_calls_keep|].
    split; [congruence|]. intros _. split; [reflexivity|].
    destruct (fifo_init_formats d pt m l fifo_indevice lock Hmap Hlock Hfi Hl Hsz)
      as (s0 & Hrun0 & Hfresh & _).
    rewrite (fifo_init_ok d pt m l fifo_indevice lock Hmap Hlock Hfi Hl Hsz)
      in Hrun0.
    inversion Hrun0 as [E]. rewrite <- E in Hfresh.
    split; [exact Hfresh|].
    now apply format_region_lock.
Qed.

Lemma probe_builds_record_witness :
  exists s',
    ringbuf_probe_device env_ok Producer stack_fifo stack_lock
      (mk static_dev 0 raw_region [])
    = Ok (0, probe_calls env_ok) s' /\
    dev s' = devP /\ payload_pt s' = 0 /\
    forallb (fun c => negb (is_release c)) (probe_calls env_ok) = true /\
    (wrap32 (q_mask raw_region + 1) = RINGBUF_SZ -> shm s' = raw_region) /\
    (wrap32 (q_mask raw_region + 1) <> RINGBUF_SZ ->
     shm s' = format_region devP stack_fifo stack_lock raw_region /\
     fresh (shm s') /\
     load_bytes LOCK_OFF (zlen stack_lock) (shm s')
     = SPIN_LOCK_UNLOCKED (zlen stack_lock)).
Proof.
  apply (probe_builds_record env_ok Producer stack_fifo stack_lock 0
           raw_region []).
  - vm_compute. discriminate.
  - vm_compute. discriminate.
  - vm_compute. discriminate.
  - vm_compute. discriminate.
  - vm_compute. discriminate.
  - right. right. vm_compute. reflexivity.
  - apply mappedb_ok. vm_compute. reflexivity.
  - reflexivity.
  - vm_compute. discriminate.
Defined.

(** X19.  When one of the three [ioremap] calls fails, the probe
    returns the result of [pci_request_regions], which is not negative,
    instead of an error.  It has released the regions and disabled the
    device, left [base_addr] NULL and the region unformatted; when it
    is the mapping of BAR1 that fails, the mapping of BAR0 is not
    undone. *)
Theorem probe_ioremap_failure_returns_request_result
  (e : pci_env) (ROLE : Z) (fifo_indevice lock : list byte)
  (pt : Z) (m : list byte) (l : list event) :
  let regs := ioremap e (wrap32 (pci_resource_start e 0))
                (wrap32 (pci_resource_len e 0)) in
  let vec_tb := ioremap e (wrap32 (pci_resource_start e 1))
                  (wrap32 (pci_resource_len e 1)) in
  let base := ioremap e (wrap32 (pci_resource_start e 2))
                (wrap32 (pci_resource_len e 2)) in
  0 <= pci_enable_device e -> 0 <= pci_request_regions e ->
  regs = 0 \/ vec_tb = 0 \/ base = 0 ->
  exists cs s',
    ringbuf_probe_device e ROLE fifo_indevice lock (mk static_dev pt m l)
    = Ok (pci_request_regions e, cs) s' /\
    shm s' = m /\ payload_pt s' = pt /\ log s' = l /\
    base_addr (dev s') = 0 /\
    (regs <> 0 -> vec_tb = 0 -> forallb (fun c => negb
        match c with Iounmap _ => true | _ => false end) cs = true) /\
    In PciReleaseRegions cs /\ In PciDisableDevice cs.
Proof.
  intros regs vec_tb base Hen Hreq Hfail.
  now apply probe_ioremap_fails.
Qed.

Lemma probe_ioremap_failure_returns_request_result_witness :
  exists cs s',
    ringbuf_probe_device env_no_bar1 Producer stack_fifo stack_lock
      (mk static_dev 0 raw_region [])
    = Ok (pci_request_regions env_no_bar1, cs) s' /\
    shm s' = raw_region /\ payload_pt s' = 0 /\ log s' = [] /\
    base_addr (dev s') = 0 /\
    (ioremap env_no_bar1 (wrap32 (pci_resource_start env_no_bar1 0))
       (wrap32 (pci_resource_len env_no_bar1 0)) <> 0 ->
     ioremap env_no_bar1 (wrap32 (pci_resource_start env_no_bar1 1))
       (wrap32 (pci_resource_len env_no_bar1 1)) = 0 ->
     forallb (fun c => negb
        match c with Iounmap _ => true | _ => false end) cs = true) /\
    In PciReleaseRegions cs /\ In PciDisableDevice cs.
Proof.
  apply (probe_ioremap_failure_returns_request_result env_no_bar1 Producer
           stack_fifo stack_lock 0 raw_region []).
  - vm_compute. discriminate.
  - vm_compute. discriminate.
  - right. left. vm_compute. reflexivity.
Defined.

(** X20.  When the request for the interrupt vectors fails, the probe
    returns its error after undoing the mappings of BAR2 and BAR0,
    releasing the regions and disabling the device, without having
    formatted the region; but [ringbuf_dev] keeps [base_addr],
    [fifo_addr] and [regs_addr] pointing at the mappings that are
    gone. *)
Theorem probe_msix_failure_keeps_pointers
  (e : pci_env) (ROLE : Z) (fifo_indevice lock : list byte)
  (pt : Z) (m : list byte) (l : list event) :
  let regs := ioremap e (wrap32 (pci_resource_start e 0))
                (wrap32 (pci_resource_len e 0)) in
  let vec_tb := ioremap e (wrap32 (pci_resource_start e 1))
                  (wrap32 (pci_resource_len e 1)) in
  let base := ioremap e (wrap32 (pci_resource_start e 2))
                (wrap32 (pci_resource_len e 2)) in
  0 <= pci_enable_device e -> 0 <= pci_request_regions e ->
  regs <> 0 -> vec_tb <> 0 -> base <> 0 ->
  revision_id e mod 256 = 1 -> wrap32 (ioread32_ivposition e) <> 0 ->
  fst (request_msix_vectors e 4) <> 0 ->
  exists cs s',
    ringbuf_probe_device e ROLE fifo_indevice lock (mk static_dev pt m l)
    = Ok (fst (request_msix_vectors e 4),
          cs ++ [Iounmap base; Iounmap regs; PciReleaseRegions;
                 PciDisableDevice]) s' /\
    shm s' = m /\ payload_pt s' = pt /\ log s' = l /\
    base_addr (dev s') = base /\ fifo_addr (dev s') = base /\
    regs_addr (dev s') = regs.
Proof.
  intros regs vec_tb base Hen Hreq Hregs Hvec Hbase Hrev Hiv Hms.
  do 2 eexists. split.
  - now apply probe_msix_fails.
  - cbn [shm payload_pt log dev mk probed base_addr fifo_addr regs_addr].
    auto 10.
Qed.

Lemma probe_msix_failure_keeps_pointers_witness :
  exists cs s',
    ringbuf_probe_device env_busy Producer stack_fifo stack_lock
      (mk static_dev 0 raw_region [])
    = Ok (fst (request_msix_vectors env_busy 4),
          cs ++ [Iounmap 0x10000; Iounmap 0x500; PciReleaseRegions;
                 PciDisableDevice]) s' /\
    shm s' = raw_region /\ payload_pt s' = 0 /\ log s' = [] /\
    base_addr (dev s') = 0x10000 /\ fifo_addr (dev s') = 0x10000 /\
    regs_addr (dev s') = 0x500.
Proof.
  apply (probe_msix_failure_keeps_pointers env_busy Producer stack_fifo
           stack_lock 0 raw_region []).
  - vm_compute. discriminate.
  - vm_compute. discriminate.
  - vm_compute. discriminate.
  - vm_compute. discriminate.
  - vm_compute. discriminate.
  - vm_compute. reflexivity.
  - vm_compute. discriminate.
  - vm_compute. discriminate.
Defined.

(** X21.  [ringbuf_ioctl] and the probe.  Before any probe, and after
    a probe in which an [ioremap] failed (which returns a value that is
    not negative), every ioctl command runs into [BUG_ON].  After a
    probe that went through, [IOCTL_IVPOSITION] returns the IVPosition
    register read at probe time for a revision 1 device, and 0 for any
    other revision. *)
Theorem ioctl_after_probe
  (e : pci_env) (ROLE : Z) (fifo_indevice lock : list byte)
  (pt : Z) (m : list byte) (l : list event) :
  let regs := ioremap e (wrap32 (pci_resource_start e 0))
                (wrap32 (pci_resource_len e 0)) in
  let vec_tb := ioremap e (wrap32 (pci_resource_start e 1))
                  (wrap32 (pci_resource_len e 1)) in
  let base := ioremap e (wrap32 (pci_resource_start e 2))
                (wrap32 (pci_resource_len e 2)) in
  let d := probed (revision_id e mod 256) regs base (pci_resource_len e 2)
             (wrap32 (ioread32_ivposition e)) ROLE in
  0 <= pci_enable_device e -> 0 <= pci_request_regions e ->
  (forall cmd value, ringbuf_ioctl cmd value (mk static_dev pt m l) = Fault BugOn) /\
  (regs = 0 \/ vec_tb = 0 \/ base = 0 ->
   exists r s',
     ringbuf_probe_device e ROLE fifo_indevice lock (mk static_dev pt m l)
     = Ok r s' /\ 0 <= fst r /\
     forall cmd value, ringbuf_ioctl cmd value s' = Fault BugOn) /\
  (regs <> 0 -> vec_tb <> 0 -> base <> 0 ->
   revision_id e mod 256 <> 1 \/ wrap32 (ioread32_ivposition e) = 0 \/
   fst (request_msix_vectors e 4) = 0 ->
   mapped d m -> zlen fifo_indevice = sizeof_fifo -> zlen lock <= 16 ->
   exists cs s',
     ringbuf_probe_device e ROLE fifo_indevice lock (mk static_dev pt m l)
     = Ok (0, cs) s' /\
     forall value,
       ringbuf_ioctl IOCTL_IVPOSITION value s'
       = Ok (if revision_id e mod 256 =? 1
             then wrap32 (ioread32_ivposition e) else 0) s').
Proof.
  intros regs vec_tb base d Hen Hreq. split; [|split].
  - intros cmd value. reflexivity.
  - intros Hfail.
    destruct (probe_ioremap_fails e ROLE fifo_indevice lock pt m l Hen Hreq Hfail)
      as (cs & s' & Hrun & _ & _ & _ & Hb & _).
    exists (pci_request_regions e, cs), s'. split; [exact Hrun|].
    split; [exact Hreq|].
    intros cmd value. unfold ringbuf_ioctl.
    erewrite bind_Ok by reflexivity. now rewrite Hb.
  - intros Hregs Hvec Hbase Hms Hmap Hfi Hl.
    assert (Hlock : write_lock d = base_addr d + PAYLOADS_OFF - 16).
    { unfold d, probed. cbn [write_lock base_addr]. zsolve. }
    rewrite (probe_reaches_format e ROLE fifo_indevice lock pt m l
               Hen Hreq Hregs Hvec Hbase Hms).
    fold regs base d.
    assert (Hrun : exists m' l',
               ringbuf_fifo_init fifo_indevice lock (mk d pt m l)
               = Ok tt (mk d 0 m' l')).
    { destruct (Z.eq_dec (wrap32 (q_mask m + 1)) RINGBUF_SZ) as [Hsz|Hsz].
      - do 2 eexists. now apply fifo_init_skip.
      - do 2 eexists. now apply fifo_init_ok. }
    destruct Hrun as (m' & l' & Hrun).
    do 2 eexists. erewrite bind_Ok by exact Hrun.
    split; [reflexivity|].
    intros value. unfold ringbuf_ioctl.
    erewrite bind_Ok by reflexivity. cbn [dev mk].
    assert (Hb : (base_addr d =? 0) = false).
    { destruct Hmap as (Hb & _). lia. }
    rewrite Hb. reflexivity.
Qed.

Lemma ioctl_after_probe_witness :
  exists cs s',
    ringbuf_probe_device env_ok Producer stack_fifo stack_lock
      (mk static_dev 0 raw_region [])
    = Ok (0, cs) s' /\
    forall value,
      ringbuf_ioctl IOCTL_IVPOSITION value s'
      = Ok (if revision_id env_ok mod 256 =? 1
            then wrap32 (ioread32_ivposition env_ok) else 0) s'.
Proof.
  destruct (ioctl_after_probe env_ok Producer stack_fifo stack_lock 0
              raw_region []) as (_ & _ & H).
  - vm_compute. discriminate.
  - vm_compute. discriminate.
  - apply H.
    + vm_compute. discriminate.
    + vm_compute. discriminate.
    + vm_compute. discriminate.
    + right. right. vm_compute. reflexivity.
    + apply mappedb_ok. vm_compute. reflexivity.
    + reflexivity.
    + vm_compute. discriminate.
Defined.


(* ------------------------------------------------------------------ *)
(** * The sender and the tasklet together *)
(* ------------------------------------------------------------------ *)

Lemma digit_not_nul (v : Z) : Byte.eqb (digit (v mod 10)) x00 = false.
Proof.
  pose proof (Z.mod_pos_bound v 10 ltac:(lia)) as Hr.
  destruct (Byte.eqb (digit (v mod 10)) x00) eqn:E; [|reflexivity].
  apply Byte.byte_dec_bl in E.
  apply (f_equal byte_to_Z) in E. unfold digit in E.
  rewrite byte_to_of_Z in E. rewrite Z.mod_small in E by lia.
  change (byte_to_Z x00) with 0 in E. lia.
Qed.

Lemma decimal_from_spec (fuel : nat) :
  forall v acc,
    forallb (fun b => negb (Byte.eqb b x00)) acc = true ->
    forallb (fun b => negb (Byte.eqb b x00)) (decimal_from fuel v acc) = true /\
    zlen (decimal_from fuel v acc) <= Z.of_nat fuel + zlen acc.
Proof.
  induction fuel as [|k IH]; intros v acc Hacc.
  - cbn [decimal_from]. split; [assumption|lia].
  - cbn [decimal_from].
    assert (Hacc' : forallb (fun b => negb (Byte.eqb b x00))
                      (digit (v mod 10) :: acc) = true).
    { cbn [forallb]. now rewrite digit_not_nul, Hacc. }
    destruct (v / 10 =? 0).
    + split; [assumption|]. rewrite zlen_cons. lia.
    + destruct (IH (v / 10) _ Hacc') as [H1 H2].
      split; [assumption|]. rewrite zlen_cons in H2. lia.
Qed.

Lemma decimal_spec (v : Z) :
  forallb (fun b => negb (Byte.eqb b x00)) (decimal v) = true /\
  zlen (decimal v) <= 20.
Proof.
  destruct (decimal_from_spec 20 v [] eq_refl) as [H1 H2].
  split; [assumption|]. unfold decimal.
  change (Z.of_nat 20 + zlen (@nil byte)) with 20 in H2. exact H2.
Qed.

(** The text of a message has no NUL and fits the array with room to
    spare. *)
Lemma sprintf_msg_spec (i ivposition jiffies : Z) :
  forallb (fun b => negb (Byte.eqb b x00)) (sprintf_msg i ivposition jiffies)
  = true /\
  zlen (sprintf_msg i ivposition jiffies) <= 91.
Proof.
  destruct (decimal_spec i) as [A1 A2].
  destruct (decimal_spec ivposition) as [B1 B2].
  destruct (decimal_spec jiffies) as [C1 C2].
  unfold sprintf_msg. split.
  - rewrite !forallb_app, A1, B1, C1. reflexivity.
  - rewrite !zlen_app.
    change (zlen [x4d; x53; x47; x20; x23]) with 5.
    change (zlen [x20; x20; x20; x66; x72; x6f; x6d; x20; x70; x65; x65; x72])
      with 12.
    change (zlen [x20; x20; x20; x28; x6a; x69; x66; x66; x69; x65; x73;
                  x3a; x20]) with 13.
    change (zlen [x29]) with 1. lia.
Qed.

Lemma c_string_nul (t r : list byte) :
  forallb (fun b => negb (Byte.eqb b x00)) t = true ->
  c_string (t ++ x00 :: r) = Some t.
Proof.
  induction t as [|b t IH]; intros H.
  - reflexivity.
  - cbn [forallb] in H. apply andb_true_iff in H as [Hb Ht].
    cbn [app c_string]. destruct (Byte.eqb b x00); [discriminate|].
    now rewrite IH.
Qed.

Lemma c_string_with_nul (t : list byte) :
  forallb (fun b => negb (Byte.eqb b x00)) t = true ->
  c_string (with_nul t) = Some t.
Proof. intros H. unfold with_nul. now apply c_string_nul. Qed.

Lemma zlen_with_nul (t : list byte) : zlen (with_nul t) = zlen t + 1.
Proof. unfold with_nul. apply zlen_app_one. Qed.

(** [sprintf] into the array, as the loop passes it to the send. *)
Lemma msg_after_sprintf (t msg : list byte) :
  forallb (fun b => negb (Byte.eqb b x00)) t = true ->
  zlen t + 1 <= zlen msg ->
  let msg' := store_bytes 0 (t ++ [x00]) msg in
  strlen msg' + 1 = zlen (with_nul t) /\
  zlen msg' = zlen msg /\
  firstn (Z.to_nat (zlen (with_nul t))) msg' = with_nul t.
Proof.
  intros Ht Hfit. cbv zeta.
  pose proof (zlen_nonneg t) as Ht0.
  rewrite store_at_start.
  split; [|split].
  - unfold strlen. rewrite <- app_assoc. cbn [app].
    rewrite c_string_nul by assumption. now rewrite zlen_with_nul.
  - rewrite zlen_app, zlen_app_one.
    unfold zlen in *. rewrite length_skipn, length_app. cbn [length]. lia.
  - fold (with_nul t). unfold zlen. rewrite Nat2Z.id.
    rewrite firstn_app, firstn_all, Nat.sub_diag. cbn [firstn].
    apply app_nil_r.
Qed.

(** A send of the first bytes of a longer buffer. *)
Lemma send_runs_prefix d m pt msgs P buffer l :
  mapped d m -> represents m pt msgs ->
  zlen msgs < RINGBUF_SZ / RINGBUF_MSG_SZ ->
  pt + zlen P <= arena_capacity (zlen m) ->
  role d = Producer ->
  zlen P <= zlen buffer -> firstn (Z.to_nat (zlen P)) buffer = P ->
  ringbuf_write buffer (zlen P) (mk d pt m l)
  = Ok 0 (mk d (pt + zlen P) (written d pt P (zlen P) m)
             (l ++ write_events d pt (zlen P) m)).
Proof.
  intros Hmap Hrep Hroom Hfit Hrole Hle Hpre.
  destruct (represents_fit d m pt msgs P Hmap Hrep Hfit)
    as (Hpt & HlenP & Hfit' & Hsum).
  pose proof (zlen_nonneg P).
  rewrite ringbuf_write_ok; try assumption; try lia.
  - rewrite wrap32_small by lia.
    unfold written, payload_written. rewrite Hpre, firstn_zlen. reflexivity.
  - apply Hrep.
  - now apply (represents_avail m pt msgs).
Qed.

Lemma harness_texts_length count i ivp jiffies :
  zlen (harness_texts count i ivp jiffies) = Z.of_nat count.
Proof.
  revert i. induction count as [|k IH]; intros i; [reflexivity|].
  cbn [harness_texts]. rewrite zlen_cons, IH. lia.
Qed.

Lemma send_loop_runs (d : ringbuf_device) (ivp : Z) (jiffies : Z -> Z) :
  role d = Producer ->
  forall count i msg m pt q l,
    mapped d m -> represents m pt q -> zlen msg = 256 ->
    zlen q + Z.of_nat count <= RINGBUF_SZ / RINGBUF_MSG_SZ ->
    pt + total_len (map with_nul (harness_texts count i ivp jiffies))
    <= arena_capacity (zlen m) ->
    exists msg' s',
      send_loop count i ivp jiffies msg (mk d pt m l) = Ok msg' s' /\
      dev s' = d /\
      payload_pt s'
      = pt + total_len (map with_nul (harness_texts count i ivp jiffies)) /\
      zlen (shm s') = zlen m /\
      represents (shm s')
        (pt + total_len (map with_nul (harness_texts count i ivp jiffies)))
        (q ++ map with_nul (harness_texts count i ivp jiffies)).
Proof.
  intros Hrole. induction count as [|k IH];
    intros i msg m pt q l Hmap Hrep Hmsg Hroom Hfit.
  - do 2 eexists. split; [reflexivity|].
    cbn [harness_texts map total_len fold_right dev payload_pt shm mk].
    rewrite Z.add_0_r, app_nil_r. auto.
  - cbn [harness_texts map] in *.
    set (t := sprintf_msg i ivp (jiffies i)) in *.
    set (rest := map with_nul (harness_texts k (i + 1) ivp jiffies)) in *.
    change (total_len (with_nul t :: rest))
      with (zlen (with_nul t) + total_len rest) in *.
    destruct (sprintf_msg_spec i ivp (jiffies i)) as [Hnul Hlen]. fold t in Hnul, Hlen.
    pose proof (zlen_nonneg t) as Ht0.
    pose proof (total_len_nonneg rest) as Hr0.
    destruct (msg_after_sprintf t msg Hnul ltac:(lia)) as (Hstr & Hz & Hpre).
    set (msg1 := store_bytes 0 (t ++ [x00]) msg) in *.
    assert (Hroom1 : zlen q < RINGBUF_SZ / RINGBUF_MSG_SZ) by lia.
    assert (Hfit1 : pt + zlen (with_nul t) <= arena_capacity (zlen m)) by lia.
    destruct (represents_fit d m pt q (with_nul t) Hmap Hrep Hfit1)
      as (Hpt & HlenP & Hfit' & _).
    pose proof (represents_written d m pt q (with_nul t) Hmap Hrep Hroom1 Hfit1)
      as Hrep'.
    pose proof (written_zlen d m pt (with_nul t) (zlen (with_nul t))
                  Hmap Hpt HlenP Hfit') as Hzw.
    pose proof (mapped_written d m pt (with_nul t) (zlen (with_nul t))
                  Hmap Hpt HlenP Hfit') as Hmap'.
    destruct (IH (i + 1) msg1 (written d pt (with_nul t) (zlen (with_nul t)) m)
                (pt + zlen (with_nul t)) (q ++ [with_nul t])
                (l ++ write_events d pt (zlen (with_nul t)) m)
                Hmap' Hrep')
      as (msg' & s' & Hrun & Hd & Hp & Hz' & Hrep'').
    { congruence. }
    { rewrite zlen_app_one. lia. }
    { fold rest. rewrite Hzw. lia. }
    fold rest in Hp, Hrep''.
    exists msg', s'. split.
    { cbn [send_loop]. fold t. fold msg1. rewrite Hstr.
      erewrite bind_Ok.
      2:{ apply (send_runs_prefix d m pt q (with_nul t) msg1); try assumption.
          rewrite zlen_with_nul. lia. }
      exact Hrun. }
    rewrite <- app_assoc in Hrep''. cbn [app] in Hrep''.
    rewrite <- Z.add_assoc in Hp, Hrep''.
    repeat (split; [first [assumption|congruence]|]). assumption.
Qed.

Lemma harness_texts_spec count i ivp jiffies :
  Forall (fun t => forallb (fun b => negb (Byte.eqb b x00)) t = true /\
                   zlen t <= 91)
    (harness_texts count i ivp jiffies).
Proof.
  revert i. induction count as [|k IH]; intros i; [constructor|].
  cbn [harness_texts]. constructor; [apply sprintf_msg_spec|apply IH].
Qed.

(** The tasklet, once for each queued string. *)
Lemma readmsg_n_runs (d : ringbuf_device) (hd recv : list byte)
  (pt ptC : Z) (texts : list (list byte)) :
  role d = Consumer -> zlen hd = RINGBUF_MSG_SZ -> zlen recv = RECV_SZ ->
  Forall (fun t => forallb (fun b => negb (Byte.eqb b x00)) t = true /\
                   zlen t < RECV_SZ) texts ->
  forall m l,
    mapped d m -> represents m pt (map with_nul texts) ->
    exists s',
      readmsg_n (length texts) hd recv (mk d ptC m l)
      = Ok (map Some texts) s' /\
      dev s' = d /\ payload_pt s' = ptC /\ represents (shm s') pt [].
Proof.
  intros Hrole Hhd Hrecv Hall. unfold RECV_SZ in *.
  induction Hall as [|t texts [Hnul Hlen] Hall IH]; intros m l Hmap Hrep.
  - eexists. split; [reflexivity|]. auto.
  - cbn [map] in Hrep.
    pose proof (zlen_nonneg t) as Ht0.
    assert (Hmin : Z.min 512 (zlen (with_nul t)) <= zlen recv)
      by (rewrite zlen_with_nul; lia).
    destruct (recv_runs d m pt (with_nul t) (map with_nul texts) Hmap Hrep
                ptC l hd recv 512 Hrole Hhd ltac:(lia) Hmin) as (evs & Hrun).
    pose proof (represents_dequeued d m pt _ _ Hmap Hrep) as Hrep'.
    pose proof (mapped_dequeued d m Hmap) as Hmap'.
    destruct (IH (dequeued d m) (l ++ evs) Hmap' Hrep')
      as (s' & Hrun' & Hd & Hp & Hrep'').
    exists s'. split; [|auto].
    cbn [length readmsg_n]. unfold ringbuf_readmsg at 1.
    change RECV_SZ with 512. rewrite !bind_assoc.
    erewrite bind_Ok by exact Hrun. cbn [snd].
    erewrite bind_Ok by reflexivity.
    erewrite bind_Ok by exact Hrun'.
    unfold ret. f_equal. cbn [map]. f_equal.
    unfold received. rewrite Z.min_r by (rewrite zlen_with_nul; lia).
    rewrite firstn_zlen. apply c_string_app. now apply c_string_with_nul.
Qed.

Section Sender.

Variables (d : ringbuf_device) (pt : Z) (m : list byte) (l : list event).
Variables (q : list (list byte)) (jiffies : Z -> Z) (msg : list byte).

Let msgs := map with_nul (harness_texts 20 0 (ivposition d) jiffies).

Hypothesis Hmap : mapped d m.
Hypothesis Hrole : role d = Producer.
Hypothesis Hrep : represents m pt q.
Hypothesis Hroom : zlen q + 20 <= RINGBUF_SZ / RINGBUF_MSG_SZ.
Hypothesis Hmsg : zlen msg = 256.
Hypothesis Hfit : pt + total_len msgs <= arena_capacity (zlen m).

Lemma sendmsg_init_runs :
  exists s',
    sendmsg_init jiffies msg (mk d pt m l) = Ok 0 s' /\
    dev s' = d /\ payload_pt s' = 0 /\ zlen (shm s') = zlen m /\
    represents (shm s') (pt + total_len msgs) (q ++ msgs).
Proof.
  destruct (send_loop_runs d (ivposition d) jiffies Hrole 20 0 msg m pt q l
              Hmap Hrep Hmsg Hroom Hfit)
    as (msg' & s1 & Hrun & Hd & Hp & Hz & Hrep').
  fold msgs in Hp, Hrep'.
  assert (Hb : (base_addr d =? 0) = false).
  { destruct Hmap as (Hb & _). lia. }
  assert (Hf : (fifo_addr d =? 0) = false).
  { destruct Hmap as (Hb' & Hf & _). lia. }
  rewrite (state_eta s1) in Hrun. rewrite Hd in Hrun.
  eexists. split.
  - unfold sendmsg_init, ringbuf_open.
    rewrite Z.eqb_refl. cbn [negb].
    erewrite bind_Ok by reflexivity.
    unfold ringbuf_ioctl at 1. rewrite !bind_assoc.
    erewrite bind_Ok by reflexivity. cbn [dev mk]. rewrite Hb.
    erewrite bind_Ok by reflexivity.
    erewrite bind_Ok by exact Hrun.
    erewrite bind_Ok by apply ringbuf_release_ok.
    rewrite Hf. reflexivity.
  - cbn [dev payload_pt shm mk]. auto.
Qed.

End Sender.

(** X22.  The sender of test/send_msg.c.  Run by a producer whose
    queue has room for 20 more headers and whose payload area has room
    for the texts, it returns 0 and has queued, behind what was queued
    before and in the order of its loop, the 20 texts, each with its
    terminating NUL ([strlen + 1] bytes, at most 92).  The close at its
    end has set the producer's cursor back to 0 while the 20 messages
    are still in the queue.  The IVPosition is a value of 32 bits and
    [jiffies] one of 64 bits, as their C types have it. *)
Theorem sender_queues_twenty_strings
  (d : ringbuf_device) (pt : Z) (m : list byte) (l : list event)
  (q : list (list byte)) (jiffies : Z -> Z) (msg : list byte) :
  let texts := harness_texts 20 0 (ivposition d) jiffies in
  mapped d m -> role d = Producer ->
  0 <= ivposition d < 2 ^ 32 ->
  (forall i, 0 <= i < 20 -> 0 <= jiffies i < 2 ^ 64) ->
  represents m pt q ->
  zlen q + 20 <= RINGBUF_SZ / RINGBUF_MSG_SZ ->
  zlen msg = 256 ->
  pt + total_len (map with_nul texts) <= arena_capacity (zlen m) ->
  exists s',
    sendmsg_init jiffies msg (mk d pt m l) = Ok 0 s' /\
    payload_pt s' = 0 /\
    represents (shm s') (pt + total_len (map with_nul texts))
      (q ++ map with_nul texts) /\
    Forall (fun t => c_string (with_nul t) = Some t /\ zlen (with_nul t) <= 92)
      texts.
Proof.
  intros texts Hmap Hrole _ _ Hrep Hroom Hmsg Hfit.
  destruct (sendmsg_init_runs d pt m l q jiffies msg Hmap Hrole Hrep Hroom Hmsg Hfit)
    as (s' & Hrun & _ & Hp & _ & Hrep').
  exists s'. split; [exact Hrun|]. split; [exact Hp|]. split; [exact Hrep'|].
  pose proof (harness_texts_spec 20 0 (ivposition d) jiffies) as Hall.
  fold texts in Hall. clear -Hall.
  induction Hall as [|t ts [Hnul Hlen] _ IH]; constructor; [|assumption].
  split; [now apply c_string_with_nul|]. rewrite zlen_with_nul. lia.
Qed.

(** X23.  What the sender writes, the tasklet prints.  After the
    sender of test/send_msg.c has run on an empty queue, 20 runs of the
    consumer's tasklet print its 20 texts, one per run and in the order
    they were written, and leave the queue empty. *)
Theorem sender_texts_are_printed_in_order
  (dP dC : ringbuf_device) (ptP ptC : Z) (m : list byte)
  (lP lC : list event) (jiffies : Z -> Z) (msg hd recv : list byte) :
  let texts := harness_texts 20 0 (ivposition dP) jiffies in
  mapped dP m -> mapped dC m ->
  role dP = Producer -> role dC = Consumer ->
  0 <= ivposition dP < 2 ^ 32 ->
  (forall i, 0 <= i < 20 -> 0 <= jiffies i < 2 ^ 64) ->
  represents m ptP [] ->
  zlen msg = 256 ->
  ptP + total_len (map with_nul texts) <= arena_capacity (zlen m) ->
  zlen hd = RINGBUF_MSG_SZ -> zlen recv = RECV_SZ ->
  exists sP,
    sendmsg_init jiffies msg (mk dP ptP m lP) = Ok 0 sP /\
    exists sC,
      readmsg_n 20 hd recv (mk dC ptC (shm sP) lC)
      = Ok (map Some texts) sC /\
      q_len (shm sC) = 0.
Proof.
  intros texts HP HC HroleP HroleC _ _ Hrep Hmsg Hfit Hhd Hrecv.
  assert (Hroom : zlen (@nil (list byte)) + 20 <= RINGBUF_SZ / RINGBUF_MSG_SZ).
  { vm_compute. discriminate. }
  destruct (sendmsg_init_runs dP ptP m lP [] jiffies msg HP HroleP Hrep Hroom Hmsg Hfit)
    as (sP & Hrun & _ & _ & Hz & Hrep').
  cbn [app] in Hrep'. fold texts in Hrep'.
  exists sP. split; [exact Hrun|].
  assert (HC' : mapped dC (shm sP)) by (now apply (mapped_same_size dC m)).
  assert (Hall : Forall (fun t =>
                   forallb (fun b => negb (Byte.eqb b x00)) t = true /\
                   zlen t < RECV_SZ) texts).
  { pose proof (harness_texts_spec 20 0 (ivposition dP) jiffies) as Hall.
    fold texts in Hall. clear -Hall.
    induction Hall as [|t ts [Hnul Hlen] _ IH]; constructor; [|assumption].
    split; [assumption|]. unfold RECV_SZ. lia. }
  destruct (readmsg_n_runs dC hd recv _ ptC texts HroleC Hhd Hrecv Hall
              (shm sP) lC HC' Hrep')
    as (sC & Hrecvs & _ & _ & Hrep'').
  exists sC. split.
  - replace 20%nat with (length texts); [exact Hrecvs|].
    pose proof (harness_texts_length 20 0 (ivposition dP) jiffies) as Hl.
    fold texts in Hl. unfold zlen in Hl. lia.
  - destruct Hrep'' as (_ & _ & Hq & _). rewrite Hq. reflexivity.
Qed.

Lemma big_region_empty :
  mapped big_devP big_region /\ mapped big_devC big_region /\
  represents big_region 0 [].
Proof.
  split; [apply mappedb_ok; vm_compute; reflexivity|].
  split; [apply mappedb_ok; vm_compute; reflexivity|].
  apply fresh_represents.
  - split; [apply formattedb_ok; vm_compute; reflexivity|].
    split; vm_compute; reflexivity.
  - vm_compute. split; discriminate.
Qed.

Lemma sender_queues_twenty_strings_witness :
  exists s',
    sendmsg_init jiffies_at stack_msg (mk big_devP 0 big_region []) = Ok 0 s' /\
    payload_pt s' = 0 /\
    represents (shm s')
      (0 + total_len (map with_nul
                        (harness_texts 20 0 (ivposition big_devP) jiffies_at)))
      ([] ++ map with_nul
               (harness_texts 20 0 (ivposition big_devP) jiffies_at)) /\
    Forall (fun t => c_string (with_nul t) = Some t /\ zlen (with_nul t) <= 92)
      (harness_texts 20 0 (ivposition big_devP) jiffies_at).
Proof.
  apply (sender_queues_twenty_strings big_devP 0 big_region [] []
           jiffies_at stack_msg).
  - apply big_region_empty.
  - reflexivity.
  - vm_compute. split; [discriminate|reflexivity].
  - intros i Hi. unfold jiffies_at. lia.
  - apply big_region_empty.
  - vm_compute. discriminate.
  - reflexivity.
  - vm_compute. discriminate.
Defined.

Lemma sender_texts_are_printed_in_order_witness :
  exists sP,
    sendmsg_init jiffies_at stack_msg (mk big_devP 0 big_region []) = Ok 0 sP /\
    exists sC,
      readmsg_n 20 stack_hd stack_recv (mk big_devC 0 (shm sP) [])
      = Ok (map Some (harness_texts 20 0 (ivposition big_devP) jiffies_at)) sC /\
      q_len (shm sC) = 0.
Proof.
  apply (sender_texts_are_printed_in_order big_devP big_devC 0 0 big_region
           [] [] jiffies_at stack_msg stack_hd stack_recv).
  - apply big_region_empty.
  - apply big_region_empty.
  - reflexivity.
  - reflexivity.
  - vm_compute. split; [discriminate|reflexivity].
  - intros i Hi. unfold jiffies_at. lia.
  - apply big_region_empty.
  - reflexivity.
  - vm_compute. discriminate.
  - reflexivity.
  - reflexivity.
Defined.

(* ------------------------------------------------------------------ *)
(** * From the probes to the messages *)
(* ------------------------------------------------------------------ *)

(** A probe that goes through, on a region that is not formatted and
    on one that is. *)
Lemma probe_formats e ROLE fifo_indevice lock pt m l :
  probe_ok e -> mapped (probed_by e ROLE) m ->
  zlen fifo_indevice = sizeof_fifo -> zlen lock <= 16 ->
  wrap32 (q_mask m + 1) <> RINGBUF_SZ ->
  exists s',
    ringbuf_probe_device e ROLE fifo_indevice lock (mk static_dev pt m l)
    = Ok (0, probe_calls e) s' /\
    dev s' = probed_by e ROLE /\ payload_pt s' = 0 /\
    zlen (shm s') = zlen m /\ fresh (shm s').
Proof.
  intros (Hen & Hreq & Hregs & Hvec & Hbase & Hms) Hmap Hfi Hl Hsz.
  assert (Hlock : write_lock (probed_by e ROLE)
                  = base_addr (probed_by e ROLE) + PAYLOADS_OFF - 16).
  { unfold probed_by, probed. cbn [write_lock base_addr]. zsolve. }
  rewrite (probe_reaches_format e ROLE fifo_indevice lock pt m l
             Hen Hreq Hregs Hvec Hbase Hms).
  fold (probed_by e ROLE).
  destruct (fifo_init_formats _ pt m l fifo_indevice lock Hmap Hlock Hfi Hl Hsz)
    as (s0 & Hrun0 & Hfresh & Hz & Hp & Hd).
  exists s0. erewrite bind_Ok by exact Hrun0.
  split; [reflexivity|]. auto.
Qed.

Lemma probe_keeps e ROLE fifo_indevice lock pt m l :
  probe_ok e -> mapped (probed_by e ROLE) m ->
  wrap32 (q_mask m + 1) = RINGBUF_SZ ->
  ringbuf_probe_device e ROLE fifo_indevice lock (mk static_dev pt m l)
  = Ok (0, probe_calls e) (mk (probed_by e ROLE) 0 m (l ++ [EvLoad off_mask 4])).
Proof.
  intros (Hen & Hreq & Hregs & Hvec & Hbase & Hms) Hmap Hsz.
  rewrite (probe_reaches_format e ROLE fifo_indevice lock pt m l
             Hen Hreq Hregs Hvec Hbase Hms).
  fold (probed_by e ROLE).
  erewrite bind_Ok by (now apply fifo_init_skip). reflexivity.
Qed.

(** X24.  From the probes to the messages.  When the producer's guest
    probes a region that is not formatted and the consumer's guest then
    probes the same region, mapped at its own address, both probes
    return 0, the second leaves the region as the first formatted it,
    and from then on any interleaving of sends and receives whose
    payloads fit the payload area behaves as the queue of at most 32
    messages, starting empty. *)
Theorem two_guests_probe_and_talk
  (eP eC : pci_env) (m : list byte) (ptP ptC : Z) (lP lC : list event)
  (fifoP lockP fifoC lockC hd buffer : list byte) (len : Z)
  (ops : list op) :
  let dP := probed_by eP Producer in
  let dC := probed_by eC Consumer in
  probe_ok eP -> probe_ok eC ->
  mapped dP m -> mapped dC m ->
  wrap32 (q_mask m + 1) <> RINGBUF_SZ ->
  zlen fifoP = sizeof_fifo -> zlen lockP <= 16 ->
  zlen hd = RINGBUF_MSG_SZ -> 0 <= len <= zlen buffer ->
  arena_fits (arena_capacity (zlen m)) ops 0 0 ->
  exists sP sC,
    ringbuf_probe_device eP Producer fifoP lockP (mk static_dev ptP m lP)
    = Ok (0, probe_calls eP) sP /\
    ringbuf_probe_device eC Consumer fifoC lockC
      (mk static_dev ptC (shm sP) lC)
    = Ok (0, probe_calls eC) sC /\
    shm sC = shm sP /\
    exists pt' m',
      run_ops (dev sP) (dev sC) hd buffer len ops (payload_pt sP) (shm sC)
      = Some (fst (queue_ops buffer len ops []), pt', m') /\
      represents m' pt' (snd (queue_ops buffer len ops [])).
Proof.
  intros dP dC HokP HokC HP HC Hsz HfiP HlP Hhd Hlen Hfits.
  destruct (probe_formats eP Producer fifoP lockP ptP m lP HokP HP HfiP HlP Hsz)
    as (sP & HrunP & HdP & HpP & Hz & Hfresh).
  exists sP.
  assert (HC' : mapped dC (shm sP)) by (now apply (mapped_same_size dC m)).
  assert (HP' : mapped dP (shm sP)) by (now apply (mapped_same_size dP m)).
  assert (Hsized : wrap32 (q_mask (shm sP) + 1) = RINGBUF_SZ).
  { destruct Hfresh as ((Hmask & _) & _). rewrite Hmask. reflexivity. }
  eexists. split; [exact HrunP|].
  split; [now apply probe_keeps|].
  cbn [shm dev mk]. split; [reflexivity|].
  rewrite HdP, HpP. fold dP dC.
  destruct (run_ops_refines dP dC hd buffer len eq_refl eq_refl Hhd Hlen ops
              0 (shm sP) [] HP' HC') as (pt' & m' & Hrun & _ & Hrep).
  - apply fresh_represents; [assumption|].
    destruct HP' as (_ & _ & _ & Hsize & _). unfold arena_capacity. lia.
  - rewrite Hz. exact Hfits.
  - eauto.
Qed.

Lemma two_guests_probe_and_talk_witness :
  exists sP sC,
    ringbuf_probe_device env_ok Producer stack_fifo stack_lock
      (mk static_dev 0 raw_region [])
    = Ok (0, probe_calls env_ok) sP /\
    ringbuf_probe_device env_consumer Consumer stack_fifo stack_lock
      (mk static_dev 0 (shm sP) [])
    = Ok (0, probe_calls env_consumer) sC /\
    shm sC = shm sP /\
    exists pt' m',
      run_ops (dev sP) (dev sC) stack_hd (dots 8) 8
        [Send hello; Send world; Receive; Receive] (payload_pt sP) (shm sC)
      = Some (fst (queue_ops (dots 8) 8
                     [Send hello; Send world; Receive; Receive] []), pt', m') /\
      represents m' pt'
        (snd (queue_ops (dots 8) 8
                [Send hello; Send world; Receive; Receive] [])).
Proof.
  apply (two_guests_probe_and_talk env_ok env_consumer raw_region 0 0 [] []
           stack_fifo stack_lock stack_fifo stack_lock stack_hd (dots 8) 8
           [Send hello; Send world; Receive; Receive]).
  - vm_compute. repeat split; try discriminate. right. right. reflexivity.
  - vm_compute. repeat split; try discriminate. right. right. reflexivity.
  - apply mappedb_ok. vm_compute. reflexivity.
  - apply mappedb_ok. vm_compute. reflexivity.
  - vm_compute. discriminate.
  - reflexivity.
  - vm_compute. discriminate.
  - reflexivity.
  - vm_compute. split; discriminate.
  - vm_compute. repeat split; discriminate.
Defined.
